(** * dbling: graph construction and candidate decomposition

    A shallow embedding of [common/graph.py] (the [DblingGraph] type, the
    directory walker [make_graph_from_dir], the attribute deriver
    [set_vertex_props], [get_dir_depth]) and of [profiler/profile.py]
    ([extract_candidates], [get_subtree_vertices]), followed by the
    properties established about them.

    Conventions.
    - A Python [str] is a list of Unicode code points ([pystr]).
    - The [posixpath] functions the code calls ([split], [basename], [join],
      [normpath], [abspath]) are transcribed from CPython's [posixpath.py].
    - Numbers are unbounded integers; a number stored in a property map is
      taken to fit the map's value type. The one place where the code
      compares against the bound of a type, the [int32_t] distance map of
      [shortest_distance], is modelled with its wrap-around.
    - A [graph_tool] graph is an arena: vertex [i] is the [i]-th entry of the
      vertex list, an edge is a pair of indices.
    - The constants imported from [common.const] and the helpers imported
      from [common.util] are parameters, collected in the record [Consts];
      [hashlib.sha256], [str] and the formatting of times are parameters
      too, collected in [Extern]. *)

From Stdlib Require Import ZArith NArith Ascii String Lia.
From Equations.Prop Require Import Equations Logic.
From stdpp Require Import base option list gmap.

Local Open Scope nat_scope.

(** ** Python strings *)

Abbreviation pystr := (list N).

Definition py (s : string) : pystr :=
  map (fun a : ascii => N_of_ascii a) (list_ascii_of_string s).

(** [s[-n:]] for a positive [n]. *)
Definition slice_last (n : nat) (s : pystr) : pystr := drop (length s - n) s.

Fixpoint startswith (pre s : pystr) : bool :=
  match pre, s with
  | [], _ => true
  | a :: pre', b :: s' => if decide (a = b) then startswith pre' s' else false
  | _ :: _, [] => false
  end.

Definition endswith (suf s : pystr) : bool := startswith (rev suf) (rev s).

(** ** posixpath *)

Module posixpath.

Definition sep : N := 47%N.
Definition dot : N := 46%N.

Definition is_sep (c : N) : bool := bool_decide (c = sep).

(** [p.rfind(sep) + 1]: the index just after the last separator, [0] when
    [p] holds none. *)
Fixpoint rfind_sep_succ (p : pystr) : nat :=
  match p with
  | [] => 0
  | c :: r =>
      match rfind_sep_succ r with
      | 0 => if is_sep c then 1 else 0
      | S k => S (S k)
      end
  end.

(** [p.rstrip(sep)] *)
Fixpoint rstrip_sep (p : pystr) : pystr :=
  match p with
  | [] => []
  | c :: r =>
      match rstrip_sep r with
      | [] => if is_sep c then [] else [c]
      | r' => c :: r'
      end
  end.

(** [basename(p)]: [i = p.rfind(sep) + 1; return p[i:]] *)
Definition basename (p : pystr) : pystr := drop (rfind_sep_succ p) p.

(** [split(p)]:
    [i = p.rfind(sep) + 1; head, tail = p[:i], p[i:];]
    [if head and head != sep*len(head): head = head.rstrip(sep)] *)
Definition split (p : pystr) : pystr * pystr :=
  let i := rfind_sep_succ p in
  let head := take i p in
  let tail := drop i p in
  if negb (bool_decide (head = [])) && negb (forallb is_sep head)
  then (rstrip_sep head, tail)
  else (head, tail).

(** [join(a, b)] with a single second component. *)
Definition join (a b : pystr) : pystr :=
  if startswith [sep] b then b
  else if bool_decide (a = []) || endswith [sep] a then a ++ b
  else a ++ sep :: b.

Definition isabs (p : pystr) : bool := startswith [sep] p.

(** [path.split(sep)] of [str]: the components between separators. *)
Fixpoint components (p : pystr) : list pystr :=
  match p with
  | [] => [[]]
  | c :: r =>
      if is_sep c then [] :: components r
      else match components r with
           | w :: ws => (c :: w) :: ws
           | [] => [[c]]
           end
  end.

(** [sep.join(comps)] *)
Fixpoint join_components (comps : list pystr) : pystr :=
  match comps with
  | [] => []
  | [w] => w
  | w :: ws => w ++ sep :: join_components ws
  end.

(** One round of the loop of [normpath]; [new_comps] is kept reversed, so
    that [new_comps[-1]] is its head. *)
Definition normpath_step (initial_slashes : nat) (new_comps : list pystr)
    (comp : pystr) : list pystr :=
  if bool_decide (comp = []) || bool_decide (comp = [dot]) then new_comps
  else if negb (bool_decide (comp = [dot; dot]))
          || (bool_decide (initial_slashes = 0) && bool_decide (new_comps = []))
          || match new_comps with
             | last :: _ => bool_decide (last = [dot; dot])
             | [] => false
             end
       then comp :: new_comps
       else match new_comps with
            | _ :: rest => rest
            | [] => new_comps
            end.

Definition normpath (path : pystr) : pystr :=
  if bool_decide (path = []) then [dot]
  else
    let initial_slashes :=
      if startswith [sep] path then
        if startswith [sep; sep] path && negb (startswith [sep; sep; sep] path)
        then 2 else 1
      else 0 in
    let new_comps := rev (fold_left (normpath_step initial_slashes) (components path) []) in
    let path := join_components new_comps in
    let path := replicate initial_slashes sep ++ path in
    if bool_decide (path = []) then [dot] else path.

(** [abspath(path)], with the current directory [cwd] of the process. *)
Definition abspath (cwd path : pystr) : pystr :=
  normpath (if isabs path then path else join cwd path).

End posixpath.

(** ** [str.encode('utf-8')] *)

(** The UTF-8 bytes of one code point; [None] for a surrogate (or a number
    that is no code point), on which the strict codec raises
    [UnicodeEncodeError]. Such code points do occur in file names: [os.walk]
    decodes undecodable bytes with [surrogateescape]. *)
Definition utf8_encode_char (c : N) : option (list N) :=
  (if c <? 128 then Some [c]
   else if c <? 2048 then Some [192 + c / 64; 128 + c mod 64]
   else if c <? 65536 then
     if (55296 <=? c) && (c <? 57344) then None
     else Some [224 + c / 4096; 128 + (c / 64) mod 64; 128 + c mod 64]
   else if c <? 1114112 then
     Some [240 + c / 262144; 128 + (c / 4096) mod 64; 128 + (c / 64) mod 64; 128 + c mod 64]
   else None)%N.

Fixpoint utf8_encode (s : pystr) : option (list N) :=
  match s with
  | [] => Some []
  | c :: r =>
      match utf8_encode_char c, utf8_encode r with
      | Some b, Some bs => Some (b ++ bs)
      | _, _ => None
      end
  end.

(** ** Constants of [common.const], helpers of [common.util] *)

(** What [graph.py] imports from [common.const] and [common.util], as
    parameters. The three patterns are compiled regular
    expressions; each is represented by the one question the code asks of it.
    [SLICE_PAT_search s] is [re.search(SLICE_PAT, s)] followed by [.group(1)]
    (the pattern is taken to have a first group that takes part in every
    match). *)
Record Consts := {
  EVAL_NONE : bool;
  IN_PAT_VAULT_match : pystr -> bool;
  ENC_PAT_search : pystr -> bool;
  SLICE_PAT_search : pystr -> option pystr;
  MIN_DEPTH : Z;
  TYPE_TO_NAME : gmap Z pystr;
  separate_mode_type : Z -> Z * Z;
  byte_len : pystr -> Z;
}.

(** Library functions whose results are only stored: [hashlib.sha256(b).hexdigest()],
    [str(n)] and [datetime.fromtimestamp(t).strftime(ISO_TIME)]. *)
Record Extern := {
  sha256_hexdigest : list N -> pystr;
  str_of_int : Z -> pystr;
  iso_time : Z -> pystr;
}.

(** ** Exceptions and the state-and-exception monad *)

Inductive exn :=
| AssertionError
| OSError
| KeyError
| ValueError
| UnicodeEncodeError.

(** A computation over a mutable object of type [S]: it returns a value or
    raises, and in both cases leaves the object in some state. *)
Inductive outcome (S A : Type) :=
| Returns (a : A) (s : S)
| Raises (e : exn) (s : S).
Arguments Returns {S A} a s.
Arguments Raises {S A} e s.

Definition M (S A : Type) : Type := S -> outcome S A.

#[export] Instance M_ret {S} : MRet (M S) := fun A a s => Returns a s.
#[export] Instance M_bind {S} : MBind (M S) := fun A B k m s =>
  match m s with
  | Returns a s' => k a s'
  | Raises e s' => Raises e s'
  end.

Definition raise {S A} (e : exn) : M S A := fun s => Raises e s.
Definition get {S} : M S S := fun s => Returns s s.
Definition modify {S} (f : S -> S) : M S unit := fun s => Returns tt (f s).
Definition or_raise {S A} (e : exn) (o : option A) : M S A :=
  match o with Some a => mret a | None => raise e end.

(** [for x in l: body x] *)
Fixpoint for_each {S X} (l : list X) (body : X -> M S unit) : M S unit :=
  match l with
  | [] => mret tt
  | x :: r => body x;; for_each r body
  end.

(** ** [get_dir_depth] *)

(** The [while True] loop of [get_dir_depth]; it ends because a head that
    differs from the previous one is a strictly shorter string. *)
Equations? get_dir_depth_loop (_head : pystr) (dir_depth : Z) : Z
  by wf (length _head) lt :=
  get_dir_depth_loop prev_head dir_depth with inspect (posixpath.split prev_head) := {
    | exist _ (h, _tail) Hsplit with decide (prev_head = h) := {
        | left _ => dir_depth
        | right Hne =>
            if bool_decide (length _tail = 0) then get_dir_depth_loop h dir_depth
            else if bool_decide (length h = 0) then (dir_depth + 1)%Z
                 else get_dir_depth_loop h (dir_depth + 1)%Z } }.
Proof.
  all: clear get_dir_depth_loop dir_depth.
  all: assert (Hstrip : forall l, length (posixpath.rstrip_sep l) <= length l
         /\ (length (posixpath.rstrip_sep l) = length l -> posixpath.rstrip_sep l = l)).
  1,3: induction l as [|c r [IH1 IH2]]; [split; reflexivity|]; simpl;
       destruct (posixpath.rstrip_sep r) as [|c' r'] eqn:E;
       [ destruct (posixpath.is_sep c); simpl in *; split; try lia;
         intros Hl; try lia; destruct r; [reflexivity | simpl in *; lia]
       | simpl in *; split; [lia | intros Hl; f_equal; apply IH2; lia] ].
  all: unfold posixpath.split in Hsplit.
  all: set (hd := take (posixpath.rfind_sep_succ prev_head) prev_head) in *.
  all: assert (Hpre : length hd <= length prev_head /\ (length hd = length prev_head -> hd = prev_head))
         by (subst hd; rewrite length_take; split; [lia | intros; apply take_ge; lia]).
  all: destruct Hpre as [Hp1 Hp2]; destruct (Hstrip hd) as [Hs1 Hs2].
  all: destruct (_ && _) in Hsplit; injection Hsplit as <- <-.
  all: try (destruct (decide (length hd = length prev_head)) as [e|]; [| lia];
            exfalso; apply Hne; symmetry; auto; fail).
  all: destruct (decide (length (posixpath.rstrip_sep hd) = length prev_head)) as [e|]; [| lia].
  all: exfalso; apply Hne; rewrite Hs2 by lia; symmetry; apply Hp2; lia.
Qed.

(** [get_dir_depth(filename, slice_path=False)] *)
Definition get_dir_depth (C : Consts) (filename : pystr) (slice_path : bool) : Z :=
  let filename :=
    if slice_path then
      match SLICE_PAT_search C filename with
      | Some g1 => g1
      | None => filename
      end
    else filename in
  get_dir_depth_loop filename 0%Z.

(** ** The operating system as the code sees it *)

(** [os.stat_result]; the three times are kept as the numbers [os.stat]
    returned, they are only handed to [iso_time]. *)
Record stat_result := {
  st_mode : Z; st_ino : Z; st_size : Z; st_uid : Z; st_gid : Z; st_nlink : Z;
  st_mtime : Z; st_ctime : Z; st_atime : Z;
}.

(** The four questions the walker asks of the file system.
    [lstat p] is [os.stat(p, follow_symlinks=False)], [None] when it raises;
    [walk top] is the sequence of triples [(dirpath, dirnames, filenames)]
    that [os.walk(top)] yields (the loop body never changes the file system
    nor the yielded lists, so the generator can be read off at once). *)
Record FileSystem := {
  getcwd : pystr;
  isdir : pystr -> bool;
  lstat : pystr -> option stat_result;
  walk : pystr -> list (pystr * list pystr * list pystr);
}.

(** ** [DblingGraph] *)

(** The internal vertex property maps declared in [DblingGraph.__init__],
    one record per vertex. *)
Record VProps := {
  vp_inode : Z;
  vp_parent_inode : Z;
  vp_filename : pystr;
  vp_filename_id : pystr;
  vp_filename_end : pystr;
  vp_filename_b_len : Z;
  vp_name_type : pystr;
  vp_type : list Z;
  vp_filesize : pystr;
  vp_encrypted : bool;
  vp_eval : bool;
  vp_size : pystr;
  vp_mode : pystr;
  vp_uid : pystr;
  vp_gid : pystr;
  vp_nlink : pystr;
  vp_mtime : pystr;
  vp_ctime : pystr;
  vp_atime : pystr;
  vp_dir_depth : Z;
  vp_gt_min_depth : bool;
  vp_keeper : bool;
}.

(** The values [new_vertex_property] gives a fresh vertex: zero, the empty
    string, [False], and [True] for [keeper] ([val=True]). *)
Definition new_vertex_props : VProps := {|
  vp_inode := 0%Z;
  vp_parent_inode := 0%Z;
  vp_filename := [];
  vp_filename_id := [];
  vp_filename_end := [];
  vp_filename_b_len := 0%Z;
  vp_name_type := [];
  vp_type := [];
  vp_filesize := [];
  vp_encrypted := false;
  vp_eval := false;
  vp_size := [];
  vp_mode := [];
  vp_uid := [];
  vp_gid := [];
  vp_nlink := [];
  vp_mtime := [];
  vp_ctime := [];
  vp_atime := [];
  vp_dir_depth := 0%Z;
  vp_gt_min_depth := false;
  vp_keeper := true |}.

#[export] Instance VProps_inhabited : Inhabited VProps := populate new_vertex_props.

#[export] Instance VProps_eq_dec : EqDecision VProps.
Proof. solve_decision. Defined.

(** Vertex [i] is the [i]-th entry of [vertices]; an edge is a pair
    (source, target) of vertex indices, in the order the edges were added.
    The optional extended attributes of [init_extended_attrs] are left out. *)
Record DblingGraph := {
  vertices : list VProps;
  edges : list (nat * nat);
  gp_has_encrypted_files : bool;
}.

(** [DblingGraph()] *)
Definition DblingGraph_init : DblingGraph :=
  {| vertices := []; edges := []; gp_has_encrypted_files := false |}.

Definition num_vertices (g : DblingGraph) : nat := length (vertices g).

(** [DblingGraph.copy]: [DblingGraph(g=self)], an independent graph with the
    same vertices, edges and internal property maps. *)
Definition copy (g : DblingGraph) : DblingGraph := g.

(** [g.vp[...][v]] for all maps at once. *)
Definition vprops (g : DblingGraph) (v : nat) : VProps := vertices g !!! v.

(** [list(v.in_neighbours())] *)
Definition in_neighbours (g : DblingGraph) (v : nat) : list nat :=
  map fst (filter (fun e : nat * nat => e.2 = v) (edges g)).

Definition add_vertex : M DblingGraph nat := fun g =>
  Returns (num_vertices g)
    {| vertices := vertices g ++ [new_vertex_props];
       edges := edges g;
       gp_has_encrypted_files := gp_has_encrypted_files g |}.

Definition add_edge (source target : nat) : M DblingGraph unit :=
  modify (fun g =>
    {| vertices := vertices g;
       edges := edges g ++ [(source, target)];
       gp_has_encrypted_files := gp_has_encrypted_files g |}).

(** Assignments [digraph.vp[...][vertex] = ...], applied to the record of
    [vertex]. *)
Definition set_props (vertex : nat) (f : VProps -> VProps) : M DblingGraph unit :=
  modify (fun g =>
    {| vertices := alter f vertex (vertices g);
       edges := edges g;
       gp_has_encrypted_files := gp_has_encrypted_files g |}).

Definition set_has_encrypted_files (b : bool) : M DblingGraph unit :=
  modify (fun g =>
    {| vertices := vertices g;
       edges := edges g;
       gp_has_encrypted_files := b |}).

(** ** [set_vertex_props] *)

(** Line 170: [digraph.vp['parent_inode'][vertex] = ...] *)
Definition store_parent_inode (x : Z) (p : VProps) : VProps :=
  {|
    vp_inode := vp_inode p;
    vp_parent_inode := x;
    vp_filename := vp_filename p;
    vp_filename_id := vp_filename_id p;
    vp_filename_end := vp_filename_end p;
    vp_filename_b_len := vp_filename_b_len p;
    vp_name_type := vp_name_type p;
    vp_type := vp_type p;
    vp_filesize := vp_filesize p;
    vp_encrypted := vp_encrypted p;
    vp_eval := vp_eval p;
    vp_size := vp_size p;
    vp_mode := vp_mode p;
    vp_uid := vp_uid p;
    vp_gid := vp_gid p;
    vp_nlink := vp_nlink p;
    vp_mtime := vp_mtime p;
    vp_ctime := vp_ctime p;
    vp_atime := vp_atime p;
    vp_dir_depth := vp_dir_depth p;
    vp_gt_min_depth := vp_gt_min_depth p;
    vp_keeper := vp_keeper p |}.

(** Lines 172-176: [inode], [filename], [filename_id], [filename_end],
    [filename_b_len]. *)
Definition store_names (C : Consts) (st : stat_result) (filename filename_id : pystr)
    (p : VProps) : VProps :=
  {|
    vp_inode := st_ino st;
    vp_parent_inode := vp_parent_inode p;
    vp_filename := filename;
    vp_filename_id := filename_id;
    vp_filename_end := posixpath.basename (slice_last 13 filename);
    vp_filename_b_len := byte_len C (posixpath.basename filename);
    vp_name_type := vp_name_type p;
    vp_type := vp_type p;
    vp_filesize := vp_filesize p;
    vp_encrypted := vp_encrypted p;
    vp_eval := vp_eval p;
    vp_size := vp_size p;
    vp_mode := vp_mode p;
    vp_uid := vp_uid p;
    vp_gid := vp_gid p;
    vp_nlink := vp_nlink p;
    vp_mtime := vp_mtime p;
    vp_ctime := vp_ctime p;
    vp_atime := vp_atime p;
    vp_dir_depth := vp_dir_depth p;
    vp_gt_min_depth := vp_gt_min_depth p;
    vp_keeper := vp_keeper p |}.

(** Lines 177-191, once [TYPE_TO_NAME[t]] has been found; a number stored in
    a map of strings is converted with [str]. *)
Definition store_metadata (C : Consts) (E : Extern) (st : stat_result) (m t : Z)
    (name : pystr) (sliced_fn : pystr) (dir_depth : Z) (p : VProps) : VProps :=
  {|
    vp_inode := vp_inode p;
    vp_parent_inode := vp_parent_inode p;
    vp_filename := vp_filename p;
    vp_filename_id := vp_filename_id p;
    vp_filename_end := vp_filename_end p;
    vp_filename_b_len := vp_filename_b_len p;
    vp_name_type := name;
    vp_type := [t];
    vp_filesize := str_of_int E (st_size st);
    vp_encrypted := ENC_PAT_search C sliced_fn;
    vp_eval := EVAL_NONE C;
    vp_size := str_of_int E (st_size st);
    vp_mode := str_of_int E m;
    vp_uid := str_of_int E (st_uid st);
    vp_gid := str_of_int E (st_gid st);
    vp_nlink := str_of_int E (st_nlink st);
    vp_mtime := iso_time E (st_mtime st);
    vp_ctime := iso_time E (st_ctime st);
    vp_atime := iso_time E (st_atime st);
    vp_dir_depth := dir_depth;
    vp_gt_min_depth := IN_PAT_VAULT_match C sliced_fn && bool_decide (MIN_DEPTH C <= dir_depth)%Z;
    vp_keeper := vp_keeper p |}.

Section Walker.

Variable C : Consts.
Variable E : Extern.
Variable fs : FileSystem.

(** The path the depth and the two patterns are computed on. *)
Definition sliced (slice_path : bool) (filename : pystr) : pystr :=
  if slice_path then
    match SLICE_PAT_search C filename with
    | Some g1 => g1
    | None => filename
    end
  else filename.

Definition set_vertex_props (vertex : nat) (filename : pystr) (slice_path : bool)
    : M DblingGraph pystr :=
  let filename := posixpath.abspath (getcwd fs) filename in
  st ← or_raise OSError (lstat fs filename);
  encoded ← or_raise UnicodeEncodeError (utf8_encode filename);
  let filename_id := sha256_hexdigest E encoded in
  let '(m, t) := separate_mode_type C (st_mode st) in
  let sliced_fn := sliced slice_path filename in
  let dir_depth := get_dir_depth C sliced_fn false in
  digraph ← get;
  match in_neighbours digraph vertex with
  | [] => mret tt
  | parent_ver :: _ =>
      set_props vertex (store_parent_inode (vp_inode (vprops digraph parent_ver)))
  end;;
  set_props vertex (store_names C st filename filename_id);;
  name ← or_raise KeyError (TYPE_TO_NAME C !! t);
  set_props vertex (store_metadata C E st m t name sliced_fn dir_depth);;
  digraph ← get;
  (if vp_encrypted (vprops digraph vertex)
   then set_has_encrypted_files true
   else mret tt);;
  mret filename_id.

(** ** [make_graph_from_dir] *)

(** What a caller may pass as [digr]. *)
Inductive digr_arg :=
| PyNone
| PyDblingGraph (g : DblingGraph)
| PyOther.

(** The locals of [make_graph_from_dir] that the loops update. *)
Record WalkState := {
  digr : DblingGraph;
  id_to_vertex : gmap pystr nat;
  ttl_objects : Z;
}.

(** Run an operation of the graph object inside the walker. *)
Definition on_digr {A} (m : M DblingGraph A) : M WalkState A := fun w =>
  match m (digr w) with
  | Returns a g =>
      Returns a {| digr := g; id_to_vertex := id_to_vertex w; ttl_objects := ttl_objects w |}
  | Raises e g =>
      Raises e {| digr := g; id_to_vertex := id_to_vertex w; ttl_objects := ttl_objects w |}
  end.

Definition remember (vertex_id : pystr) (vertex : nat) : M WalkState unit :=
  modify (fun w =>
    {| digr := digr w;
       id_to_vertex := <[vertex_id := vertex]> (id_to_vertex w);
       ttl_objects := ttl_objects w |}).

Definition count_object : M WalkState unit :=
  modify (fun w =>
    {| digr := digr w;
       id_to_vertex := id_to_vertex w;
       ttl_objects := (ttl_objects w + 1)%Z |}).

(** Lines 122-127, the body of [for f in dirnames + filenames]. *)
Definition add_child (slice_path : bool) (dirpath dir_id f : pystr) : M WalkState unit :=
  let full_filename := posixpath.join dirpath f in
  vertex ← on_digr add_vertex;
  w ← get;
  parent ← or_raise KeyError (id_to_vertex w !! dir_id);
  on_digr (add_edge parent vertex);;
  vertex_id ← on_digr (set_vertex_props vertex full_filename slice_path);
  remember vertex_id vertex;;
  count_object.

(** Lines 119-127, the body of [for dirpath, dirnames, filenames in os.walk(top_dir)]. *)
Definition walk_step (slice_path : bool) (entry : pystr * list pystr * list pystr)
    : M WalkState unit :=
  let '(dirpath, dirnames, filenames) := entry in
  encoded ← or_raise UnicodeEncodeError (utf8_encode (posixpath.abspath (getcwd fs) dirpath));
  let dir_id := sha256_hexdigest E encoded in
  for_each (dirnames ++ filenames) (add_child slice_path dirpath dir_id).

(** Lines 112-127: the top vertex, then the walk. *)
Definition populate_from (slice_path : bool) (top_dir : pystr) : M WalkState unit :=
  dir_v ← on_digr add_vertex;
  _id ← on_digr (set_vertex_props dir_v top_dir slice_path);
  modify (fun w => {| digr := digr w; id_to_vertex := {[ _id := dir_v ]}; ttl_objects := 1 |});;
  for_each (walk fs top_dir) (walk_step slice_path).

(** Lines 108-111: the graph to fill and whether paths are sliced. *)
Definition choose_graph (digr : digr_arg) : DblingGraph * bool :=
  let slice_path := true in
  match digr with
  | PyDblingGraph g => (g, slice_path)
  | PyNone | PyOther => (DblingGraph_init, false)
  end.

(** [make_graph_from_dir(top_dir, digr)]. The result is the returned graph,
    or the exception together with the state in which the graph object
    (the caller's, when one was passed) is left. *)
Definition make_graph_from_dir (top_dir : pystr) (digr_in : digr_arg)
    : outcome DblingGraph DblingGraph :=
  let '(g0, slice_path) := choose_graph digr_in in
  if negb (isdir fs top_dir) then Raises AssertionError g0
  else
    match populate_from slice_path top_dir
            {| digr := g0; id_to_vertex := ∅; ttl_objects := 0 |} with
    | Returns _ w => Returns (digr w) (digr w)
    | Raises e w => Raises e (digr w)
    end.

End Walker.

(** ** [graph_tool] operations used by the decomposer *)

(** [g.remove_vertex(rm_list)] with the default [fast=False]: the listed
    vertices go, with every edge that touches one of them; the vertices that
    remain keep their relative order and are renumbered contiguously, and the
    property maps move with them. *)
Definition kept (rm_list : list nat) (v : nat) : bool := bool_decide (v ∉ rm_list).

Definition keep_at {A} (keep : nat -> bool) (l : list A) : list A :=
  (filter (fun iv : nat * A => keep iv.1) (zip (seq 0 (length l)) l)).*2.

Definition renumber (keep : nat -> bool) (v : nat) : nat :=
  length (filter (fun i => keep i) (seq 0 v)).

Definition remove_vertex (g : DblingGraph) (rm_list : list nat) : DblingGraph :=
  {| vertices := keep_at (kept rm_list) (vertices g);
     edges :=
       map (fun e : nat * nat => (renumber (kept rm_list) e.1, renumber (kept rm_list) e.2))
           (filter (fun e : nat * nat => kept rm_list e.1 && kept rm_list e.2) (edges g));
     gp_has_encrypted_files := gp_has_encrypted_files g |}.

(** [list(g.vertices())], as indices. *)
Definition vertex_indices (g : DblingGraph) : list nat := seq 0 (num_vertices g).

Definition out_neighbours (g : DblingGraph) (v : nat) : list nat :=
  map snd (filter (fun e : nat * nat => e.1 = v) (edges g)).

(** The neighbours of [u] in the undirected view ([directed=False]). *)
Definition all_neighbours (g : DblingGraph) (u : nat) : list nat :=
  out_neighbours g u ++ in_neighbours g u.

Definition MAX_DIST : Z := (2 ^ 31 - 1)%Z.

(** A sum stored in an [int32_t] distance map. *)
Definition wrap_int32 (z : Z) : Z := ((z + 2 ^ 31) mod 2 ^ 32 - 2 ^ 31)%Z.

(** [shortest_distance(g, source, directed=False)] without weights is a
    breadth-first search: the distance map has type [int32_t], starts at the
    largest [int32_t] everywhere and at [0] on the source; discovering [v]
    from [u] stores [dist[u] + 1]. *)
Record bfs_state := {
  dist : list Z;
  visited : list bool;
  queue : list nat;
}.

Definition discover (du : Z) (st : bfs_state) (v : nat) : bfs_state :=
  match visited st !! v with
  | Some false =>
      {| dist := <[v := wrap_int32 (du + 1)]> (dist st);
         visited := <[v := true]> (visited st);
         queue := queue st ++ [v] |}
  | _ => st
  end.

Fixpoint bfs_loop (fuel : nat) (g : DblingGraph) (st : bfs_state) : bfs_state :=
  match fuel with
  | 0 => st
  | S fuel' =>
      match queue st with
      | [] => st
      | u :: q =>
          bfs_loop fuel' g
            (fold_left (discover (dist st !!! u)) (all_neighbours g u)
               {| dist := dist st; visited := visited st; queue := q |})
      end
  end.

Definition bfs_start (g : DblingGraph) (source : nat) : bfs_state :=
  {| dist := <[source := 0%Z]> (replicate (num_vertices g) MAX_DIST);
     visited := <[source := true]> (replicate (num_vertices g) false);
     queue := [source] |}.

(** Every vertex enters the queue at most once, so [num_vertices g] rounds
    empty it (lemma [bfs_loop_completes]). The result is [dist.a]. *)
Definition shortest_distance (g : DblingGraph) (source : nat) : list Z :=
  dist (bfs_loop (num_vertices g) g (bfs_start g source)).

(** ** [profiler/profile.py] *)

(** What running a piece of the decomposer gives: a value, an exception, or
    no answer within the allotted number of loop rounds. *)
Inductive run (A : Type) :=
| Done (a : A)
| Raised (e : exn)
| OutOfFuel.
Arguments Done {A} a.
Arguments Raised {A} e.
Arguments OutOfFuel {A}.

(** [get_subtree_vertices(g)]; [g.vertex(0)] raises [ValueError] on a graph
    without vertices. The vertices are returned as their indices in [g]. *)
Definition get_subtree_vertices (g : DblingGraph) : run (list nat) :=
  if bool_decide (num_vertices g = 0) then Raised ValueError
  else
    let dist := shortest_distance g 0 in
    Done (filter (fun i => bool_decide (dist !!! i < MAX_DIST)%Z) (seq 0 (length dist))).

(** One round of the [while] loop of [extract_candidates]. Membership
    [v in sg_vertices] compares vertex descriptors, that is, indices. *)
Definition extract_step (orig_graph : DblingGraph) (candidates : list DblingGraph)
    : run (DblingGraph * list DblingGraph) :=
  let sub_graph := copy orig_graph in
  match get_subtree_vertices sub_graph with
  | Done sg_vertices =>
      let rm_list := filter (fun v => bool_decide (v ∈ sg_vertices)) (vertex_indices orig_graph) in
      let orig_graph := remove_vertex orig_graph rm_list in
      let rm_list := filter (fun v => bool_decide (v ∉ sg_vertices)) (vertex_indices sub_graph) in
      let sub_graph := remove_vertex sub_graph rm_list in
      Done (orig_graph,
            if bool_decide (num_vertices sub_graph ≠ 0)
            then candidates ++ [sub_graph]
            else candidates)
  | Raised e => Raised e
  | OutOfFuel => OutOfFuel
  end.

(** The [while orig_graph.num_vertices() > 0] loop, allowed [fuel] rounds. *)
Fixpoint extract_loop (fuel : nat) (orig_graph : DblingGraph) (candidates : list DblingGraph)
    : run (list DblingGraph * DblingGraph) :=
  if bool_decide (0 < num_vertices orig_graph) then
    match fuel with
    | 0 => OutOfFuel
    | S fuel' =>
        match extract_step orig_graph candidates with
        | Done (orig_graph', candidates') => extract_loop fuel' orig_graph' candidates'
        | Raised e => Raised e
        | OutOfFuel => OutOfFuel
        end
    end
  else Done (candidates, orig_graph).

(** [extract_candidates(orig_graph)]: the list it returns and the state in
    which it leaves the graph it was given. *)
Definition extract_candidates_within (fuel : nat) (orig_graph : DblingGraph)
    : run (list DblingGraph * DblingGraph) :=
  extract_loop fuel orig_graph [].

Definition extract_candidates (orig_graph : DblingGraph)
    : run (list DblingGraph * DblingGraph) :=
  extract_candidates_within (num_vertices orig_graph) orig_graph.

(** ** [DblingGraph.save] and [DblingGraph.load] *)

(** Files that hold graphs: what [graph_tool.Graph.save] wrote under a name.
    [Graph_save] and [Graph_load] are the two methods of the base class. *)
Record Disk := { stored : gmap pystr DblingGraph }.

Definition Graph_save (file_name : pystr) (self : DblingGraph) (d : Disk)
    : DblingGraph * Disk :=
  (self, {| stored := <[file_name := self]> (stored d) |}).

Definition Graph_load (file_name : pystr) (self : DblingGraph) (d : Disk)
    : option (DblingGraph * Disk) :=
  g ← stored d !! file_name; Some (g, d).

(** [DblingGraph.save]: [super().save] with the same arguments *)
Definition save (file_name : pystr) (self : DblingGraph) (d : Disk) : DblingGraph * Disk :=
  Graph_save file_name self d.

(** [DblingGraph.load]: [super().save] with the same arguments *)
Definition load (file_name : pystr) (self : DblingGraph) (d : Disk) : DblingGraph * Disk :=
  Graph_save file_name self d.

(** ** A file system given as a tree, and sample constants *)

(** Used for the concrete runs below: directory trees from which the answers
    of [os.walk], [os.stat] and [isdir] are computed. A missing [stat_result]
    stands for an object whose [os.stat] raises. *)
Module TreeFS.

#[warnings="-register-all"] Inductive fsobj :=
| File (name : pystr) (st : option stat_result)
| Dir (name : pystr) (st : option stat_result) (children : list fsobj).

Definition name_of (o : fsobj) : pystr :=
  match o with File n _ | Dir n _ _ => n end.

Definition is_dir (o : fsobj) : bool :=
  match o with Dir _ _ _ => true | File _ _ => false end.

Definition dirnames (children : list fsobj) : list pystr :=
  map name_of (List.filter is_dir children).

Definition filenames (children : list fsobj) : list pystr :=
  map name_of (List.filter (fun o => negb (is_dir o)) children).

(** [os.walk], top-down: a directory, then each of its sub-directories. *)
Fixpoint walk_obj (parent : pystr) (o : fsobj) : list (pystr * list pystr * list pystr) :=
  match o with
  | File _ _ => []
  | Dir n _ children =>
      let top := posixpath.join parent n in
      (top, dirnames children, filenames children) :: flat_map (walk_obj top) children
  end.

(** Every object with its path, its [stat_result] and whether it is a
    directory. *)
Fixpoint objects (parent : pystr) (o : fsobj) : list (pystr * (option stat_result * bool)) :=
  match o with
  | File n st => [(posixpath.join parent n, (st, false))]
  | Dir n st children =>
      let top := posixpath.join parent n in
      (top, (st, true)) :: flat_map (objects top) children
  end.

Definition find (roots : list fsobj) (p : pystr) : option (option stat_result * bool) :=
  snd <$> List.find (fun e => bool_decide (e.1 = p)) (flat_map (objects []) roots).

(** The file system made of the trees [roots], each named by its full path. *)
Definition mount (roots : list fsobj) : FileSystem :=
  {| getcwd := [posixpath.sep];
     isdir := fun p => match find roots p with Some (_, d) => d | None => false end;
     lstat := fun p => match find roots p with Some (st, _) => st | None => None end;
     walk := fun top =>
       flat_map (fun r => if bool_decide (name_of r = top) then walk_obj [] r else []) roots |}.

End TreeFS.

Module Sample.

(** The first position at which [needle] occurs in [s], as the rest of [s]
    from there. *)
Fixpoint from_first (needle s : pystr) : option pystr :=
  if startswith needle s then Some s
  else match s with
       | [] => None
       | _ :: r => from_first needle r
       end.

Definition consts : Consts :=
  {| EVAL_NONE := false;
     IN_PAT_VAULT_match := startswith (py "/home/.shadow/");
     ENC_PAT_search := fun s =>
       startswith (py "ECRYPTFS_FNEK_ENCRYPTED.") (posixpath.basename s);
     SLICE_PAT_search := from_first (py "/home");
     MIN_DEPTH := 4;
     TYPE_TO_NAME := list_to_map [(4%Z, py "directory"); (8%Z, py "regular"); (10%Z, py "link")];
     separate_mode_type := fun mode => (mode mod 4096, mode / 4096)%Z;
     byte_len := fun s => Z.of_nat (length (default [] (utf8_encode s))) |}.

(** A stand-in for the digest: the bytes themselves. *)
Definition extern : Extern :=
  {| sha256_hexdigest := fun b => b;
     str_of_int := fun z => py (pretty.pretty z);
     iso_time := fun z => py (pretty.pretty z) |}.

Definition st_dir (ino : Z) : option stat_result :=
  Some {| st_mode := 16877; st_ino := ino; st_size := 4096; st_uid := 0; st_gid := 0;
          st_nlink := 2; st_mtime := 0; st_ctime := 0; st_atime := 0 |}.

Definition st_file (ino : Z) : option stat_result :=
  Some {| st_mode := 33188; st_ino := ino; st_size := 10; st_uid := 0; st_gid := 0;
          st_nlink := 1; st_mtime := 0; st_ctime := 0; st_atime := 0 |}.

(** [/root/a/b/file1], [/root/a/c/file2] *)
Definition tree_root : TreeFS.fsobj :=
  TreeFS.Dir (py "/root") (st_dir 1)
    [TreeFS.Dir (py "a") (st_dir 2)
       [TreeFS.Dir (py "b") (st_dir 3) [TreeFS.File (py "file1") (st_file 4)];
        TreeFS.Dir (py "c") (st_dir 5) [TreeFS.File (py "file2") (st_file 6)]]].

(** [/root2/file3] *)
Definition tree_root2 : TreeFS.fsobj :=
  TreeFS.Dir (py "/root2") (st_dir 7) [TreeFS.File (py "file3") (st_file 8)].

(** [/home/.shadow/u/vault/ECRYPTFS_FNEK_ENCRYPTED.x] and [/home/other/a/b] *)
Definition tree_home : TreeFS.fsobj :=
  TreeFS.Dir (py "/home") (st_dir 11)
    [TreeFS.Dir (py ".shadow") (st_dir 12)
       [TreeFS.Dir (py "u") (st_dir 13)
          [TreeFS.Dir (py "vault") (st_dir 14)
             [TreeFS.File (py "ECRYPTFS_FNEK_ENCRYPTED.x") (st_file 15)]]];
     TreeFS.Dir (py "other") (st_dir 16)
       [TreeFS.Dir (py "a") (st_dir 17) [TreeFS.File (py "b") (st_file 18)]]].

(** [/plain/readme] *)
Definition tree_plain : TreeFS.fsobj :=
  TreeFS.Dir (py "/plain") (st_dir 21) [TreeFS.File (py "readme") (st_file 22)].

(** An image mounted at [/mnt/img], holding [home/u]. *)
Definition tree_mnt : TreeFS.fsobj :=
  TreeFS.Dir (py "/mnt/img") (st_dir 31)
    [TreeFS.Dir (py "home") (st_dir 32) [TreeFS.File (py "u") (st_file 33)]].

Definition fs : FileSystem :=
  TreeFS.mount [tree_root; tree_root2; tree_home; tree_plain; tree_mnt].

(** [/top/lost], [/top/a/b/file1], [/top/a/c/file2]: once with every
    object readable, once with [os.stat] failing on [/top/lost]. *)
Definition tree_top (lost : option stat_result) : TreeFS.fsobj :=
  TreeFS.Dir (py "/top") (st_dir 41)
    [TreeFS.File (py "lost") lost;
     TreeFS.Dir (py "a") (st_dir 42)
       [TreeFS.Dir (py "b") (st_dir 43) [TreeFS.File (py "file1") (st_file 44)];
        TreeFS.Dir (py "c") (st_dir 45) [TreeFS.File (py "file2") (st_file 46)]]].

Definition fs_readable : FileSystem := TreeFS.mount [tree_top (st_file 47)].
Definition fs_unreadable : FileSystem := TreeFS.mount [tree_top None].

(** The graph an outcome carries. *)
Definition graph_of {A} (o : outcome DblingGraph A) : DblingGraph :=
  match o with Returns _ g | Raises _ g => g end.

Definition build (fs : FileSystem) (top_dir : string) (digr_in : digr_arg) : DblingGraph :=
  graph_of (make_graph_from_dir consts extern fs (py top_dir) digr_in).

(** One tree; two trees in one graph; a tree with an encrypted file and a
    tree without, in one graph. *)
Definition g_root : DblingGraph := build fs "/root" PyNone.
Definition g_forest : DblingGraph := build fs "/root2" (PyDblingGraph g_root).
Definition g_home : DblingGraph := build fs "/home" PyNone.

(** A graph with one fresh vertex. *)
Definition g_one : DblingGraph := graph_of (add_vertex DblingGraph_init).

(** The value an outcome returns, [d] when it raises. *)
Definition returned {A} (d : A) (o : outcome DblingGraph A) : A :=
  match o with Returns a _ => a | Raises _ _ => d end.


Definition candidates_of (g : DblingGraph) : list DblingGraph :=
  match extract_candidates g with
  | Done (candidates, _) => candidates
  | Raised _ | OutOfFuel => []
  end.


End Sample.

(** ** Predicates used in the proofs *)

(** What every state of the search from [source] in [g] satisfies. *)
Definition bfs_inv (g : DblingGraph) (source : nat) (st : bfs_state) : Prop :=
  length (dist st) = num_vertices g /\
  length (visited st) = num_vertices g /\
  visited st !! source = Some true /\
  dist st !! source = Some 0%Z.

(** The number of vertices the search has not discovered yet. *)
Definition undiscovered (st : bfs_state) : nat :=
  length (filter (fun b : bool => b = false) (visited st)).

(** Every edge joins two vertices of the graph (true of any [graph_tool]
    graph). *)
Definition valid_edges (g : DblingGraph) : Prop :=
  forall e, e ∈ edges g -> e.1 < num_vertices g /\ e.2 < num_vertices g.

(** The vertices from [root] on are linked as a tree: [root] has no in-edge
    and the default [parent_inode]; every later vertex has exactly one
    in-neighbour, an earlier vertex of the tree, whose [inode] is its
    [parent_inode]. *)
Definition parent_linked (root : nat) (g : DblingGraph) : Prop :=
  root < num_vertices g /\
  in_neighbours g root = [] /\
  vp_parent_inode (vprops g root) = 0%Z /\
  forall v, root < v < num_vertices g ->
    exists p, in_neighbours g v = [p] /\ root <= p < v /\
              vp_parent_inode (vprops g v) = vp_inode (vprops g p).



(** The depth and the two pattern attributes of a vertex were computed on
    its path, sliced or not according to [slice_path]. *)
Definition derived_with (C : Consts) (slice_path : bool) (p : VProps) : Prop :=
  let sliced_fn := sliced C slice_path (vp_filename p) in
  vp_dir_depth p = get_dir_depth C sliced_fn false /\
  vp_encrypted p = ENC_PAT_search C sliced_fn /\
  vp_gt_min_depth p =
    IN_PAT_VAULT_match C sliced_fn && bool_decide (MIN_DEPTH C <= vp_dir_depth p)%Z.

(** [digr] is a [DblingGraph]. *)
Definition is_DblingGraph (digr_in : digr_arg) : bool :=
  match digr_in with PyDblingGraph _ => true | PyNone | PyOther => false end.



(** ** Further notions *)

(** The number of non-empty components of a path: of the pieces
    [p.split('/')] gives, those that are not the empty string. *)
Definition count_components (p : pystr) : Z :=
  Z.of_nat (length (filter (fun w : pystr => w <> []) (posixpath.components p))).

(** Component starts: the characters of [p] that are no separator and
    stand first ([after_sep] says whether the start of [p] counts) or right
    after a separator. *)
Fixpoint starts (after_sep : bool) (p : pystr) : nat :=
  match p with
  | [] => 0
  | c :: r =>
      (if after_sep && negb (posixpath.is_sep c) then 1 else 0)
      + starts (posixpath.is_sep c) r
  end.

(** The assignment of line 170 of [set_vertex_props], made when the vertex
    has an in-neighbour. *)
Definition link_parent (g : DblingGraph) (vertex : nat) (p : VProps) : VProps :=
  match in_neighbours g vertex with
  | [] => p
  | parent_ver :: _ => store_parent_inode (vp_inode (vprops g parent_ver)) p
  end.

(** The state in which a computation leaves its object, whether it returns
    or raises. *)
Definition final_state {S A} (o : outcome S A) : S :=
  match o with Returns _ s | Raises _ s => s end.

(** More sample data: a directory [/run] holding a regular file and a FIFO,
    an object type that the sample [TYPE_TO_NAME] does not list. *)
Module MoreSamples.

Definition st_fifo (ino : Z) : option stat_result :=
  Some {| st_mode := 4516; st_ino := ino; st_size := 0; st_uid := 0; st_gid := 0;
          st_nlink := 1; st_mtime := 0; st_ctime := 0; st_atime := 0 |}.

Definition tree_run : TreeFS.fsobj :=
  TreeFS.Dir (py "/run") (Sample.st_dir 51)
    [TreeFS.File (py "log") (Sample.st_file 52);
     TreeFS.File (py "pipe") (st_fifo 53)].

Definition fs_run : FileSystem := TreeFS.mount [tree_run].

End MoreSamples.

(** [g'] extends [g]: the vertices and the edges of [g] are still there, in
    their places, and [has_encrypted_files] has not been cleared. *)
Definition extends (g g' : DblingGraph) : Prop :=
  vertices g `prefix_of` vertices g' /\
  edges g `prefix_of` edges g' /\
  (gp_has_encrypted_files g = true -> gp_has_encrypted_files g' = true).

(** The objects that [os.walk] lists, in the order in which the loops of
    [make_graph_from_dir] meet them: each name with the directory it was
    listed in, the sub-directories of a directory before its files. *)
Definition listed (entries : list (pystr * list pystr * list pystr)) : list (pystr * pystr) :=
  flat_map (fun entry : pystr * list pystr * list pystr =>
              map (fun f => (entry.1.1, f)) (entry.1.2 ++ entry.2)) entries.

(** The absolute path of a listed object. *)
Definition child_path (fs : FileSystem) (df : pystr * pystr) : pystr :=
  posixpath.abspath (getcwd fs) (posixpath.join df.1 df.2).

(** The record [p] carries the attributes of the file its [filename] names:
    those that [set_vertex_props] takes from the path and from [os.stat],
    with the defaults for [eval] and [keeper]. *)
Definition describes (C : Consts) (E : Extern) (fs : FileSystem) (p : VProps) : Prop :=
  exists st encoded name,
    lstat fs (vp_filename p) = Some st /\
    utf8_encode (vp_filename p) = Some encoded /\
    TYPE_TO_NAME C !! (separate_mode_type C (st_mode st)).2 = Some name /\
    vp_inode p = st_ino st /\
    vp_filename_id p = sha256_hexdigest E encoded /\
    vp_filename_end p = posixpath.basename (slice_last 13 (vp_filename p)) /\
    vp_filename_b_len p = byte_len C (posixpath.basename (vp_filename p)) /\
    vp_name_type p = name /\
    vp_type p = [(separate_mode_type C (st_mode st)).2] /\
    vp_mode p = str_of_int E (separate_mode_type C (st_mode st)).1 /\
    vp_size p = str_of_int E (st_size st) /\
    vp_filesize p = str_of_int E (st_size st) /\
    vp_uid p = str_of_int E (st_uid st) /\
    vp_gid p = str_of_int E (st_gid st) /\
    vp_nlink p = str_of_int E (st_nlink st) /\
    vp_mtime p = iso_time E (st_mtime st) /\
    vp_ctime p = iso_time E (st_ctime st) /\
    vp_atime p = iso_time E (st_atime st) /\
    vp_eval p = EVAL_NONE C /\
    vp_keeper p = true.

(** The vertices present once the walk from [top_dir], started on [g0], has
    met the objects [handled]. *)
Definition vertices_after (C : Consts) (E : Extern) (fs : FileSystem) (g0 : DblingGraph)
    (top_dir : pystr) (handled : list (pystr * pystr)) (w : WalkState) : Prop :=
  exists news,
    vertices (digr w) = vertices g0 ++ news /\
    map vp_filename news =
      posixpath.abspath (getcwd fs) top_dir :: map (child_path fs) handled /\
    Forall (describes C E fs) news.

(** The edge [e], added for the object [df] of a walk started on a graph of
    [root] vertices, runs from a vertex of the walk to a later vertex of
    [g], and the [filename_id] of its source is the digest of the path of
    the directory in which the object was listed. *)
Definition hangs_under (E : Extern) (fs : FileSystem) (root : nat) (g : DblingGraph)
    (e : nat * nat) (df : pystr * pystr) : Prop :=
  root <= e.1 < e.2 /\ e.2 < num_vertices g /\
  exists encoded,
    utf8_encode (posixpath.abspath (getcwd fs) df.1) = Some encoded /\
    vp_filename_id (vprops g e.1) = sha256_hexdigest E encoded.

(** The edges present once the walk, started on [g0], has met the objects
    [handled], and what [id_to_vertex] then holds. *)
Definition edges_after (E : Extern) (fs : FileSystem) (g0 : DblingGraph)
    (handled : list (pystr * pystr)) (w : WalkState) : Prop :=
  num_vertices (digr w) = num_vertices g0 + 1 + length handled /\
  (forall k v, id_to_vertex w !! k = Some v ->
     num_vertices g0 <= v < num_vertices (digr w) /\
     vp_filename_id (vprops (digr w) v) = k) /\
  exists new_edges,
    edges (digr w) = edges g0 ++ new_edges /\
    map snd new_edges = seq (S (num_vertices g0)) (length handled) /\
    Forall2 (hangs_under E fs (num_vertices g0) (digr w)) new_edges handled.

(** [u] and [v] are joined by an edge, in one direction or the other. *)
Definition adjacent (g : DblingGraph) (u v : nat) : Prop :=
  (u, v) ∈ edges g \/ (v, u) ∈ edges g.

(** [v] can be reached from [u] along edges taken in either direction: the
    two lie in the same weakly connected component. *)
Definition connected (g : DblingGraph) : nat -> nat -> Prop := rtc (adjacent g).

(** The number of vertices the search has discovered. *)
Definition discovered (st : bfs_state) : nat :=
  length (filter (fun b : bool => b = true) (visited st)).

(** What the search from [source] has established in state [st], apart from
    the neighbours of [busy], the vertex being expanded: discovered vertices
    are connected to the source and carry a distance below the number of
    discovered vertices, the others carry the largest [int32_t]; queued
    vertices are discovered; a discovered vertex that has left the queue has
    all its neighbours discovered. *)
Definition bfs_sound (g : DblingGraph) (source : nat) (busy : option nat) (st : bfs_state)
    : Prop :=
  length (dist st) = num_vertices g /\
  length (visited st) = num_vertices g /\
  visited st !! source = Some true /\
  (forall v, visited st !! v = Some true -> connected g source v) /\
  (forall v, visited st !! v = Some true ->
     (0 <= dist st !!! v < Z.of_nat (discovered st))%Z) /\
  (forall v, visited st !! v = Some false -> dist st !! v = Some MAX_DIST) /\
  (forall v, v ∈ queue st -> visited st !! v = Some true) /\
  (forall u v, visited st !! u = Some true -> u ∉ queue st -> busy <> Some u ->
     adjacent g u v -> visited st !! v = Some true).

(** Every vertex of [c] can be reached from its vertex 0 along edges taken
    in either direction. *)
Definition weakly_connected (c : DblingGraph) : Prop :=
  forall j, j < num_vertices c -> connected c 0 j.

(** A graph whose size fits the [int32_t] distance map of the search. *)
Definition fits_int32 (g : DblingGraph) : Prop :=
  (Z.of_nat (num_vertices g) <= MAX_DIST)%Z.

(** What [extract_candidates] leaves of a graph whose every vertex it has
    removed. *)
Definition drained (g : DblingGraph) : DblingGraph :=
  {| vertices := []; edges := []; gp_has_encrypted_files := gp_has_encrypted_files g |}.

(** A well-formed candidate: its edges join its own vertices, it is not
    empty and it is weakly connected. *)
Definition component_graph (c : DblingGraph) : Prop :=
  valid_edges c /\ 0 < num_vertices c /\ weakly_connected c.

(** The graph [g] with its [has_encrypted_files] set to [b]. *)
Definition with_flag (b : bool) (g : DblingGraph) : DblingGraph :=
  {| vertices := vertices g; edges := edges g; gp_has_encrypted_files := b |}.

Definition shift_edge (k : nat) (e : nat * nat) : nat * nat := (k + e.1, k + e.2).

Definition unshift_edge (k : nat) (e : nat * nat) : nat * nat := (e.1 - k, e.2 - k).

(** The vertices of [t] placed after those of [g0], with the edges of both
    and none between the two; the graph property is [b]. *)
Definition side_by_side (b : bool) (g0 t : DblingGraph) : DblingGraph :=
  {| vertices := vertices g0 ++ vertices t;
     edges := edges g0 ++ map (shift_edge (num_vertices g0)) (edges t);
     gp_has_encrypted_files := b |}.

(** The disjoint union of two graphs: [has_encrypted_files] holds when it
    holds of one of them. *)
Definition disjoint_union (g0 t : DblingGraph) : DblingGraph :=
  side_by_side (gp_has_encrypted_files g0 || gp_has_encrypted_files t) g0 t.

(** What a walk started on a graph of [n0] vertices has added to give [g]. *)
Definition walked_part (n0 : nat) (edges0 : nat) (g : DblingGraph) : DblingGraph :=
  {| vertices := drop n0 (vertices g);
     edges := map (unshift_edge n0) (drop edges0 (edges g));
     gp_has_encrypted_files := gp_has_encrypted_files g |}.

(** A name as [os.walk] lists them: not empty, without a separator, and
    neither [.] nor [..]. *)
Definition proper_name (f : pystr) : Prop :=
  f <> [] /\ Forall (fun c => c <> posixpath.sep) f /\
  f <> [posixpath.dot] /\ f <> [posixpath.dot; posixpath.dot].

(** The number of leading slashes [normpath] keeps. *)
Definition initial_slashes (path : pystr) : nat :=
  if startswith [posixpath.sep] path then
    if startswith [posixpath.sep; posixpath.sep] path
       && negb (startswith [posixpath.sep; posixpath.sep; posixpath.sep] path)
    then 2 else 1
  else 0.

(** The components [normpath] keeps of [path], the last one first. *)
Definition kept_components (path : pystr) : list pystr :=
  fold_left (posixpath.normpath_step (initial_slashes path)) (posixpath.components path) [].

(** The walk lists every object in the top directory or in a directory
    that it has itself listed. *)
Definition walk_descends (fs : FileSystem) (top_dir : pystr) : Prop :=
  Forall (fun df : pystr * pystr =>
            posixpath.abspath (getcwd fs) df.1 ∈
            posixpath.abspath (getcwd fs) top_dir
            :: map (child_path fs) (listed (walk fs top_dir)))
         (listed (walk fs top_dir)).

#[global] Instance proper_name_dec (f : pystr) : Decision (proper_name f).
Proof. unfold proper_name. apply _. Defined.

#[global] Instance walk_descends_dec (fs : FileSystem) (top_dir : pystr) :
  Decision (walk_descends fs top_dir).
Proof. unfold walk_descends. apply _. Defined.

(** * Properties *)

(** ** Sample evaluations of the path functions *)

Example split_ex1 : posixpath.split (py "/a/b") = (py "/a", py "b").
Proof. reflexivity. Qed.
Example split_ex2 : posixpath.split (py "/a") = (py "/", py "a").
Proof. reflexivity. Qed.
Example split_ex3 : posixpath.split (py "a//") = (py "a", py "").
Proof. reflexivity. Qed.
Example abspath_ex1 : posixpath.abspath (py "/w") (py "x/../y/./z/") = py "/w/y/z".
Proof. reflexivity. Qed.
Example abspath_ex2 : posixpath.abspath (py "/w") (py "//a/../../b") = py "//b".
Proof. reflexivity. Qed.
Example basename_ex : posixpath.basename (slice_last 13 (py "/home/user/manifest.json")) = py "manifest.json".
Proof. reflexivity. Qed.
Example depth_ex1 : get_dir_depth_loop (py "/home/user/a.txt") 0 = 3%Z.
Proof. reflexivity. Qed.
Example depth_ex2 : get_dir_depth_loop (py "a//b/") 0 = 2%Z.
Proof. reflexivity. Qed.
Example depth_ex3 : get_dir_depth_loop (py "/") 0 = 0%Z.
Proof. reflexivity. Qed.


(** ** Path functions *)

Section PathFacts.

Import posixpath.

Lemma basename_drop (s : pystr) : forall k,
  basename (drop k s) = drop (k - rfind_sep_succ s) (basename s).
Proof.
  unfold basename.
  induction s as [|c r IH]; intros k.
  - simpl. by rewrite !drop_nil.
  - destruct k as [|k]; [reflexivity|].
    cbn [drop]. rewrite IH. cbn [rfind_sep_succ].
    destruct (rfind_sep_succ r) as [|j] eqn:Hr.
    + rewrite Nat.sub_0_r. destruct (is_sep c); [replace (S k - 1) with k by lia | rewrite Nat.sub_0_r]; reflexivity.
    + reflexivity.
Qed.

Lemma basename_slice_last (n : nat) (s : pystr) :
  basename (slice_last n s) = slice_last n (basename s).
Proof.
  unfold slice_last. rewrite basename_drop. unfold basename.
  rewrite length_drop. f_equal. lia.
Qed.

Lemma rfind_sep_succ_le (s : pystr) : rfind_sep_succ s <= length s.
Proof.
  induction s as [|c r IH]; simpl; [lia|].
  destruct (rfind_sep_succ r); [destruct (is_sep c)|]; lia.
Qed.

Lemma basename_no_sep (s : pystr) : Forall (fun c => c <> sep) (basename s).
Proof.
  unfold basename. induction s as [|c r IH]; simpl; [constructor|].
  destruct (rfind_sep_succ r) as [|j] eqn:Hr.
  - unfold is_sep. case_bool_decide; simpl.
    + exact IH.
    + constructor; [done | exact IH].
  - exact IH.
Qed.

Lemma slice_last_suffix (n : nat) (s : pystr) : slice_last n s `suffix_of` s.
Proof. apply suffix_drop. Qed.

Lemma length_slice_last (n : nat) (s : pystr) : length (slice_last n s) = n `min` length s.
Proof. unfold slice_last. rewrite length_drop. lia. Qed.

End PathFacts.

(** ** The state-and-exception monad *)

Lemma bind_Returns {S A B} (m : M S A) (k : A -> M S B) s b s' :
  (m ≫= k) s = Returns b s' ->
  exists a s1, m s = Returns a s1 /\ k a s1 = Returns b s'.
Proof.
  unfold mbind, M_bind. destruct (m s) as [a s1|e s1]; [eauto | discriminate].
Qed.

Lemma or_raise_Returns {S A} e (o : option A) (s : S) a s' :
  or_raise e o s = Returns a s' -> o = Some a /\ s' = s.
Proof. destruct o; cbv [or_raise raise mret M_ret]; intros H; by simplify_eq. Qed.

Lemma for_each_app {S X} (l1 l2 : list X) (body : X -> M S unit) s :
  for_each (l1 ++ l2) body s =
  match for_each l1 body s with
  | Returns _ s1 => for_each l2 body s1
  | Raises e s1 => Raises e s1
  end.
Proof.
  revert s. induction l1 as [|x l1 IH]; intros s; [reflexivity|].
  cbn [app for_each]. unfold mbind, M_bind.
  destruct (body x s) as [[] s1|e s1]; [apply IH | reflexivity].
Qed.

(** A loop that returns has kept every invariant its body keeps. *)
Lemma for_each_invariant {S X} (I : S -> Prop) (l : list X) (body : X -> M S unit) :
  (forall x s s', x ∈ l -> I s -> body x s = Returns tt s' -> I s') ->
  forall s s', I s -> for_each l body s = Returns tt s' -> I s'.
Proof.
  induction l as [|x l IH]; intros Hbody s s' Hs Hrun.
  - cbv [for_each mret M_ret] in Hrun. by simplify_eq.
  - cbn [for_each] in Hrun. apply bind_Returns in Hrun as ([] & s1 & H1 & H2).
    eapply IH; [| | exact H2].
    + intros y t t' Hy. apply Hbody. by right.
    + eapply Hbody; [by left | exact Hs | exact H1].
Qed.

(** A loop that returns has run its body to the end on every element. *)
Lemma for_each_all_return {S X} (l : list X) (body : X -> M S unit) s s' :
  for_each l body s = Returns tt s' ->
  forall x, x ∈ l -> exists t t', body x t = Returns tt t'.
Proof.
  revert s. induction l as [|y l IH]; intros s Hrun x Hx.
  - by apply elem_of_nil in Hx.
  - cbn [for_each] in Hrun. apply bind_Returns in Hrun as ([] & s1 & H1 & H2).
    apply elem_of_cons in Hx as [->|Hx]; [eauto | eauto].
Qed.

(** ** The attribute deriver *)

Section AttributeDeriver.

Variable C : Consts.
Variable E : Extern.
Variable fs : FileSystem.

(** The whole effect of a call of [set_vertex_props] that returns. *)
Lemma set_vertex_props_Returns vertex filename slice_path g id g' :
  set_vertex_props C E fs vertex filename slice_path g = Returns id g' ->
  exists st encoded name,
    let fn := posixpath.abspath (getcwd fs) filename in
    let mt := separate_mode_type C (st_mode st) in
    let sfn := sliced C slice_path fn in
    lstat fs fn = Some st /\
    utf8_encode fn = Some encoded /\
    id = sha256_hexdigest E encoded /\
    TYPE_TO_NAME C !! mt.2 = Some name /\
    edges g' = edges g /\
    vertices g' =
      alter (fun p =>
               store_metadata C E st mt.1 mt.2 name sfn (get_dir_depth C sfn false)
                 (store_names C st fn id
                    match in_neighbours g vertex with
                    | [] => p
                    | parent_ver :: _ => store_parent_inode (vp_inode (vprops g parent_ver)) p
                    end))
            vertex (vertices g) /\
    gp_has_encrypted_files g' =
      gp_has_encrypted_files g || (bool_decide (vertex < num_vertices g) && ENC_PAT_search C sfn).
Proof.
  unfold set_vertex_props. intros H.
  apply bind_Returns in H as (st & ? & Hst & H).
  apply or_raise_Returns in Hst as [Hst ->].
  apply bind_Returns in H as (encoded & ? & Henc & H).
  apply or_raise_Returns in Henc as [Henc ->].
  destruct (separate_mode_type C (st_mode st)) as [m t] eqn:Hmt.
  apply bind_Returns in H as (g0 & ? & Hget & H). cbv [get] in Hget. simplify_eq.
  apply bind_Returns in H as ([] & g1 & Hpar & H).
  apply bind_Returns in H as ([] & g2 & Hnames & H).
  apply bind_Returns in H as (name & ? & Hname & H).
  apply or_raise_Returns in Hname as [Hname ->].
  apply bind_Returns in H as ([] & g3 & Hmeta & H).
  apply bind_Returns in H as (g4 & ? & Hget & H). cbv [get] in Hget. simplify_eq.
  apply bind_Returns in H as ([] & g5 & Hflag & H).
  cbv [mret M_ret] in H. simplify_eq.
  exists st, encoded, name. cbn zeta. rewrite Hmt. cbn [fst snd].
  assert (Hg1 : edges g1 = edges x /\ gp_has_encrypted_files g1 = gp_has_encrypted_files x /\
                vertices g1 = alter (fun p => match in_neighbours x vertex with
                                              | [] => p
                                              | parent_ver :: _ =>
                                                  store_parent_inode (vp_inode (vprops x parent_ver)) p
                                              end) vertex (vertices x)).
  { destruct (in_neighbours x vertex) as [|pv ?].
    - cbv [mret M_ret] in Hpar. simplify_eq. split_and!; try done.
      symmetry. apply list_alter_id. done.
    - cbv [set_props modify] in Hpar. by simplify_eq. }
  destruct Hg1 as (He1 & Hf1 & Hv1).
  cbv [set_props modify] in Hnames, Hmeta. simplify_eq. cbn [vertices edges gp_has_encrypted_files] in *.
  assert (Henc' : vp_encrypted (vprops
            {| vertices := alter (store_metadata C E st m t name
                   (sliced C slice_path (posixpath.abspath (getcwd fs) filename))
                   (get_dir_depth C (sliced C slice_path (posixpath.abspath (getcwd fs) filename)) false))
                 vertex (alter (store_names C st (posixpath.abspath (getcwd fs) filename)
                   (sha256_hexdigest E encoded)) vertex (vertices g1));
               edges := edges g1;
               gp_has_encrypted_files := gp_has_encrypted_files g1 |} vertex)
          = bool_decide (vertex < num_vertices x) &&
            ENC_PAT_search C (sliced C slice_path (posixpath.abspath (getcwd fs) filename))).
  { unfold vprops, num_vertices. cbn [vertices].
    rewrite list_lookup_total_alt, !list_lookup_alter_eq, Hv1, list_lookup_alter_eq.
    case_bool_decide as Hlt.
    - destruct (lookup_lt_is_Some_2 (vertices x) vertex Hlt) as [p ->]. reflexivity.
    - rewrite (lookup_ge_None_2 (vertices x) vertex) by lia. reflexivity. }
  rewrite Henc' in Hflag.
  split_and!; try done.
  - destruct (_ && _); cbv [set_has_encrypted_files modify mret M_ret] in Hflag; by simplify_eq.
  -       destruct (_ && _); cbv [set_has_encrypted_files modify mret M_ret] in Hflag; simplify_eq;
      cbn [vertices]; rewrite Hv1, !list_alter_alter_eq; reflexivity.
  - destruct (_ && _); cbv [set_has_encrypted_files modify mret M_ret] in Hflag; simplify_eq;
      cbn [gp_has_encrypted_files]; rewrite ?Hf1; by destruct (gp_has_encrypted_files x).
Qed.

(** The record of [vertex] after a call that returns. *)
Lemma set_vertex_props_vprops vertex filename slice_path g id g' :
  vertex < num_vertices g ->
  set_vertex_props C E fs vertex filename slice_path g = Returns id g' ->
  exists st name p,
    let fn := posixpath.abspath (getcwd fs) filename in
    let mt := separate_mode_type C (st_mode st) in
    let sfn := sliced C slice_path fn in
    lstat fs fn = Some st /\
    vprops g' vertex =
      store_metadata C E st mt.1 mt.2 name sfn (get_dir_depth C sfn false)
        (store_names C st fn id p).
Proof.
  intros Hlt H. apply set_vertex_props_Returns in H as (st & encoded & name & H).
  cbn zeta in H. destruct H as (Hst & _ & -> & _ & _ & Hv & _).
  exists st, name. eexists. cbn zeta. split; [exact Hst|].
  unfold vprops. rewrite Hv, list_lookup_total_alter_eq by exact Hlt. reflexivity.
Qed.

(** C6: the stored [gt_min_depth] is true exactly when the (possibly
    sliced) path matches the vault pattern and the computed depth, which is
    the stored [dir_depth], is at least [MIN_DEPTH]; failing either
    conjunct it is false. *)
Theorem gt_min_depth_iff vertex filename slice_path g id g' :
  vertex < num_vertices g ->
  set_vertex_props C E fs vertex filename slice_path g = Returns id g' ->
  let sfn := sliced C slice_path (posixpath.abspath (getcwd fs) filename) in
  let dir_depth := get_dir_depth C sfn false in
  vp_dir_depth (vprops g' vertex) = dir_depth /\
  (vp_gt_min_depth (vprops g' vertex) = true <->
   IN_PAT_VAULT_match C sfn = true /\ (MIN_DEPTH C <= dir_depth)%Z) /\
  (vp_gt_min_depth (vprops g' vertex) = false <->
   IN_PAT_VAULT_match C sfn = false \/ (dir_depth < MIN_DEPTH C)%Z).
Proof.
  intros Hlt H sfn dir_depth.
  destruct (set_vertex_props_vprops _ _ _ _ _ _ Hlt H) as (st & name & p & _ & ->).
  cbn [store_metadata vp_dir_depth vp_gt_min_depth]. fold sfn. fold dir_depth.
  split; [reflexivity|].
  rewrite andb_true_iff, andb_false_iff, bool_decide_eq_true, bool_decide_eq_false.
  split; [reflexivity|]. split; (intros [?|?]; [by left | right; lia]).
Qed.

(** C8: the stored [filename_end], computed as the basename of the last 13
    characters of the path, is the basename of the path cut down to its
    last 13 characters: a suffix of the basename of length
    [min 13 (length basename)]. *)
Theorem filename_end_is_basename_suffix vertex filename slice_path g id g' :
  vertex < num_vertices g ->
  set_vertex_props C E fs vertex filename slice_path g = Returns id g' ->
  let base := posixpath.basename (posixpath.abspath (getcwd fs) filename) in
  vp_filename_end (vprops g' vertex) = slice_last 13 base /\
  vp_filename_end (vprops g' vertex) `suffix_of` base /\
  length (vp_filename_end (vprops g' vertex)) = 13 `min` length base.
Proof.
  intros Hlt H base.
  destruct (set_vertex_props_vprops _ _ _ _ _ _ Hlt H) as (st & name & p & _ & ->).
  cbn [store_metadata store_names vp_filename_end].
  rewrite basename_slice_last. fold base.
  split; [reflexivity|]. split; [apply slice_last_suffix | apply length_slice_last].
Qed.

End AttributeDeriver.

(** C5: the identifier returned by [set_vertex_props], which is also the one
    stored in [filename_id], is the digest of the UTF-8 encoding of the
    absolute normalized path. It depends on nothing else: two calls, on any
    file systems, graphs and vertices, whose paths normalize to the same
    absolute path give the same identifier. *)
Theorem filename_id_is_digest_of_path C E fs1 fs2 v1 v2 f1 f2 sl1 sl2 g1 g2 id1 id2 g1' g2' :
  v1 < num_vertices g1 ->
  v2 < num_vertices g2 ->
  set_vertex_props C E fs1 v1 f1 sl1 g1 = Returns id1 g1' ->
  set_vertex_props C E fs2 v2 f2 sl2 g2 = Returns id2 g2' ->
  (exists encoded,
     utf8_encode (posixpath.abspath (getcwd fs1) f1) = Some encoded /\
     id1 = sha256_hexdigest E encoded /\
     vp_filename_id (vprops g1' v1) = id1 /\
     vp_filename (vprops g1' v1) = posixpath.abspath (getcwd fs1) f1) /\
  (posixpath.abspath (getcwd fs1) f1 = posixpath.abspath (getcwd fs2) f2 ->
   id1 = id2 /\ vp_filename_id (vprops g1' v1) = vp_filename_id (vprops g2' v2)).
Proof.
  intros Hlt1 Hlt2 H1 H2.
  destruct (set_vertex_props_vprops _ _ _ _ _ _ _ _ _ Hlt1 H1) as (st1 & n1 & p1 & _ & Hp1).
  destruct (set_vertex_props_vprops _ _ _ _ _ _ _ _ _ Hlt2 H2) as (st2 & n2 & p2 & _ & Hp2).
  apply set_vertex_props_Returns in H1 as (? & e1 & ? & H1).
  apply set_vertex_props_Returns in H2 as (? & e2 & ? & H2).
  cbn zeta in H1, H2.
  destruct H1 as (_ & He1 & Hid1 & _). destruct H2 as (_ & He2 & Hid2 & _).
  rewrite Hp1, Hp2. cbn [store_metadata store_names vp_filename_id vp_filename].
  split.
  - exists e1. done.
  - intros Hsame. rewrite Hsame in He1. by simplify_eq.
Qed.

(** ** [DblingGraph.load] *)

(** C9: [load] does what [save] does. The graph in memory is the one it was,
    whatever the file held; the file holds that graph afterwards; no other
    file changes. *)
Theorem load_is_save (file_name : pystr) (self : DblingGraph) (d : Disk) :
  load file_name self d = save file_name self d /\
  (load file_name self d).1 = self /\
  stored (load file_name self d).2 !! file_name = Some self /\
  (forall other, other <> file_name ->
     stored (load file_name self d).2 !! other = stored d !! other).
Proof.
  unfold load, save, Graph_save. cbn [fst snd stored].
  split_and!; [reflexivity | reflexivity | apply lookup_insert_eq |].
  intros other Hne. by apply lookup_insert_ne.
Qed.


(** ** Breadth-first search *)

Section BFS.

Variable g : DblingGraph.
Variable source : nat.
Hypothesis source_valid : source < num_vertices g.

Local Abbreviation bfs_inv := (bfs_inv g source).

Lemma bfs_start_inv : bfs_inv (bfs_start g source).
Proof.
  unfold bfs_inv, bfs_start. cbn [dist visited].
  rewrite !length_insert, !length_replicate.
  split_and!; try reflexivity;
    apply list_lookup_insert_eq; by rewrite length_replicate.
Qed.

Lemma discover_inv du st v : bfs_inv st -> bfs_inv (discover du st v).
Proof.
  intros (Hd & Hv & Hs & H0). unfold discover.
  destruct (visited st !! v) as [[]|] eqn:Hvis; try done.
  assert (v <> source) by (intros ->; congruence).
  unfold bfs_inv. cbn [dist visited].
  rewrite !length_insert, !list_lookup_insert_ne by done. done.
Qed.

Lemma discover_all_inv du vs : forall st,
  bfs_inv st -> bfs_inv (fold_left (discover du) vs st).
Proof.
  induction vs as [|v vs IH]; intros st Hst; [exact Hst|].
  cbn [fold_left]. apply IH. by apply discover_inv.
Qed.

Lemma bfs_loop_inv fuel : forall st, bfs_inv st -> bfs_inv (bfs_loop fuel g st).
Proof.
  induction fuel as [|fuel IH]; intros st Hst; [exact Hst|].
  cbn [bfs_loop]. destruct (queue st) as [|u q] eqn:Hq; [exact Hst|].
  apply IH, discover_all_inv. exact Hst.
Qed.

(** The source is at distance [0] from itself, and the map has one entry
    per vertex. *)
Lemma shortest_distance_source :
  shortest_distance g source !! source = Some 0%Z /\
  length (shortest_distance g source) = num_vertices g.
Proof.
  destruct (bfs_loop_inv (num_vertices g) _ bfs_start_inv) as (Hd & _ & _ & H0).
  done.
Qed.

Lemma undiscovered_insert (vis : list bool) v :
  vis !! v = Some false ->
  S (length (filter (fun b : bool => b = false) (<[v := true]> vis))) =
  length (filter (fun b : bool => b = false) vis).
Proof.
  revert v. induction vis as [|b vis IH]; intros v Hv; [done|].
  destruct v as [|v]; cbn in Hv.
  - simplify_eq. cbn [insert list_insert]. rewrite filter_cons_False by done.
    by rewrite filter_cons_True by done.
  - cbn [insert list_insert]. destruct b.
    + rewrite !filter_cons_False by done. by apply IH.
    + rewrite !filter_cons_True by done. cbn [length]. f_equal. by apply IH.
Qed.

Lemma discover_budget du st v :
  length (queue (discover du st v)) + undiscovered (discover du st v) =
  length (queue st) + undiscovered st.
Proof.
  unfold discover, undiscovered.
  destruct (visited st !! v) as [[]|] eqn:Hvis; try reflexivity.
  cbn [queue visited]. rewrite length_app. cbn [length].
  pose proof (undiscovered_insert _ _ Hvis). lia.
Qed.

Lemma discover_all_budget du vs : forall st,
  length (queue (fold_left (discover du) vs st)) + undiscovered (fold_left (discover du) vs st) =
  length (queue st) + undiscovered st.
Proof.
  induction vs as [|v vs IH]; intros st; [reflexivity|].
  cbn [fold_left]. rewrite IH. apply discover_budget.
Qed.

Lemma bfs_loop_budget fuel : forall st,
  length (queue st) + undiscovered st <= fuel ->
  queue (bfs_loop fuel g st) = [].
Proof.
  induction fuel as [|fuel IH]; intros st Hst.
  - cbn [bfs_loop]. destruct (queue st); [done | cbn in Hst; lia].
  - cbn [bfs_loop]. destruct (queue st) as [|u q] eqn:Hq; [done|].
    apply IH. rewrite discover_all_budget. unfold undiscovered in *. cbn [queue visited length] in *. lia.
Qed.

(** The allotted rounds suffice: the search stops on an empty queue. *)
Lemma bfs_loop_completes :
  queue (bfs_loop (num_vertices g) g (bfs_start g source)) = [].
Proof.
  apply bfs_loop_budget. unfold undiscovered, bfs_start. cbn [queue visited length].
  assert (Hsrc : replicate (num_vertices g) false !! source = Some false)
    by (apply lookup_replicate_2; exact source_valid).
  pose proof (undiscovered_insert _ _ Hsrc) as Hins.
  assert (Hall : length (filter (fun b : bool => b = false) (replicate (num_vertices g) false))
                 = num_vertices g).
  { generalize (num_vertices g). intros n. induction n as [|n IHn]; [done|].
    cbn [replicate]. rewrite filter_cons_True by done. cbn [length]. by rewrite IHn. }
  lia.
Qed.

End BFS.

(** ** Removing vertices *)

Lemma keep_at_shift {A} (keep : nat -> bool) (l : list A) (k : nat) :
  (filter (fun iv : nat * A => keep iv.1) (zip (seq k (length l)) l)).*2 =
  keep_at (fun i => keep (k + i)) l.
Proof.
  unfold keep_at. revert keep k. induction l as [|x l IH]; intros keep k; [reflexivity|].
  cbn [length seq zip zip_with].
  rewrite !filter_cons. cbn [fst]. rewrite Nat.add_0_r.
  assert (Hext : filter (fun iv : nat * A => keep (S k + iv.1)) (zip (seq 0 (length l)) l) =
                 filter (fun iv : nat * A => keep (k + (1 + iv.1))) (zip (seq 0 (length l)) l)).
  { apply list_filter_iff. intros [i y]. cbn [fst]. by replace (k + (1 + i)) with (S k + i) by lia. }
  destruct (decide (keep k)); rewrite ?fmap_cons;
    rewrite (IH keep (S k)), (IH (fun i => keep (k + i)) 1), Hext; reflexivity.
Qed.

Lemma keep_at_cons {A} (keep : nat -> bool) (x : A) (l : list A) :
  keep_at keep (x :: l) =
  (if keep 0 then [x] else []) ++ keep_at (fun i => keep (S i)) l.
Proof.
  unfold keep_at at 1. cbn [length seq zip zip_with].
  rewrite filter_cons. cbn [fst].
  destruct (keep 0) eqn:H0; cbn [decide_rel]; (destruct (decide _) as [Hd|Hd]; [|]);
    try (exfalso; by apply Hd); try done;
    rewrite ?fmap_cons; cbn [snd app]; f_equal; apply (keep_at_shift keep l 1).
Qed.

Lemma keep_at_ext {A} (k1 k2 : nat -> bool) (l : list A) :
  (forall i, i < length l -> k1 i = k2 i) -> keep_at k1 l = keep_at k2 l.
Proof.
  revert k1 k2. induction l as [|x l IH]; intros k1 k2 Hk; [reflexivity|].
  rewrite !keep_at_cons. rewrite (Hk 0) by (cbn; lia). f_equal.
  apply IH. intros i Hi. apply Hk. cbn. lia.
Qed.

(** The vertices kept and the vertices dropped make up the list. *)
Lemma keep_at_split {A} (keep : nat -> bool) (l : list A) :
  keep_at keep l ++ keep_at (fun i => negb (keep i)) l ≡ₚ l.
Proof.
  revert keep. induction l as [|x l IH]; intros keep; [reflexivity|].
  rewrite !keep_at_cons. destruct (keep 0); cbn [negb app].
  - constructor. apply (IH (fun i => keep (S i))).
  - rewrite <- Permutation_middle. constructor. apply (IH (fun i => keep (S i))).
Qed.

Lemma keep_at_length {A} (keep : nat -> bool) (l : list A) :
  length (keep_at keep l) + length (keep_at (fun i => negb (keep i)) l) = length l.
Proof. rewrite <- length_app. by rewrite keep_at_split. Qed.

Lemma keep_at_head {A} (keep : nat -> bool) (l : list A) :
  0 < length l -> keep 0 = true -> 0 < length (keep_at keep l).
Proof.
  destruct l as [|x l]; cbn [length]; [lia|]. intros _ H0.
  rewrite keep_at_cons, H0. cbn. lia.
Qed.

(** ** The decomposer *)

Lemma get_subtree_vertices_seed (g : DblingGraph) :
  0 < num_vertices g ->
  shortest_distance g 0 !! 0 = Some 0%Z /\
  exists sg_vertices, get_subtree_vertices g = Done sg_vertices /\ 0 ∈ sg_vertices.
Proof.
  intros Hn. destruct (shortest_distance_source g 0 Hn) as [H0 Hlen].
  split; [exact H0|].
  unfold get_subtree_vertices. rewrite bool_decide_eq_false_2 by lia.
  eexists. split; [reflexivity|].
  apply list_elem_of_filter. split.
  - rewrite (list_lookup_total_correct _ _ _ H0). by apply bool_decide_pack.
  - apply elem_of_seq. lia.
Qed.

(** One round: the vertices drawn from the working graph are those of the
    collected component, the candidate holds exactly these, and the working
    graph keeps the others. *)
Lemma extract_step_Done (orig_graph : DblingGraph) (candidates : list DblingGraph) :
  0 < num_vertices orig_graph ->
  exists sg_vertices orig_graph' sub_graph,
    get_subtree_vertices (copy orig_graph) = Done sg_vertices /\
    0 ∈ sg_vertices /\
    extract_step orig_graph candidates =
      Done (orig_graph',
            if bool_decide (num_vertices sub_graph ≠ 0)
            then candidates ++ [sub_graph] else candidates) /\
    vertices orig_graph' =
      keep_at (fun i => negb (bool_decide (i ∈ sg_vertices))) (vertices orig_graph) /\
    vertices sub_graph =
      keep_at (fun i => bool_decide (i ∈ sg_vertices)) (vertices orig_graph) /\
    gp_has_encrypted_files orig_graph' = gp_has_encrypted_files orig_graph /\
    gp_has_encrypted_files sub_graph = gp_has_encrypted_files orig_graph.
Proof.
  intros Hn. destruct (get_subtree_vertices_seed (copy orig_graph) Hn) as (_ & sg & Hsg & H0).
  unfold extract_step. rewrite Hsg. unfold copy in *.
  do 3 eexists. split; [reflexivity|]. split; [exact H0|].
  split; [reflexivity|].
  cbn [remove_vertex vertices gp_has_encrypted_files]. split_and!; try reflexivity.
  - apply keep_at_ext. intros i Hi. unfold kept, vertex_indices, num_vertices.
    rewrite <- bool_decide_not.
    apply bool_decide_ext. rewrite list_elem_of_filter, elem_of_seq, bool_decide_spec.
    split; [|tauto]. intros Hni Hin. apply Hni. split; [done | lia].
  - apply keep_at_ext. intros i Hi. unfold kept, vertex_indices, num_vertices.
    apply bool_decide_ext. rewrite list_elem_of_filter, elem_of_seq.
    rewrite bool_decide_spec. split.
    + intros Hni. destruct (decide (i ∈ sg)) as [|Hno]; [done|]. exfalso. apply Hni. split; [done | lia].
    + intros Hin [Hno _]. by apply Hno.
Qed.

Lemma extract_step_decreases (orig_graph : DblingGraph) (candidates : list DblingGraph) :
  0 < num_vertices orig_graph ->
  exists orig_graph' candidates',
    extract_step orig_graph candidates = Done (orig_graph', candidates') /\
    num_vertices orig_graph' < num_vertices orig_graph.
Proof.
  intros Hn. destruct (extract_step_Done orig_graph candidates Hn)
    as (sg & g' & sub & _ & H0 & Hstep & Hg' & Hsub & _).
  do 2 eexists. split; [exact Hstep|].
  unfold num_vertices in *. rewrite Hg'.
  pose proof (keep_at_length (fun i => bool_decide (i ∈ sg)) (vertices orig_graph)) as Hlen.
  pose proof (keep_at_head (fun i => bool_decide (i ∈ sg)) (vertices orig_graph) Hn
                (bool_decide_eq_true_2 _ H0)).
  lia.
Qed.

(** The loop, given at least as many rounds as the working graph has
    vertices. *)
Lemma extract_loop_Done (fuel : nat) : forall (orig_graph : DblingGraph) (candidates : list DblingGraph),
  num_vertices orig_graph <= fuel ->
  exists candidates' orig_graph',
    extract_loop fuel orig_graph candidates = Done (candidates', orig_graph') /\
    num_vertices orig_graph' = 0 /\
    concat (vertices <$> candidates') ≡ₚ concat (vertices <$> candidates) ++ vertices orig_graph /\
    gp_has_encrypted_files orig_graph' = gp_has_encrypted_files orig_graph /\
    (forall P : DblingGraph -> Prop,
       (forall c, gp_has_encrypted_files c = gp_has_encrypted_files orig_graph ->
                  0 < num_vertices c -> P c) ->
       Forall P candidates -> Forall P candidates').
Proof.
  induction fuel as [|fuel IH]; intros orig cands Hfuel.
  - cbn [extract_loop]. rewrite bool_decide_eq_false_2 by lia.
    exists cands, orig. split_and!; try done; [lia|].
    unfold num_vertices in Hfuel. destruct (vertices orig); [|cbn in Hfuel; lia].
    by rewrite app_nil_r.
  - cbn [extract_loop]. case_bool_decide as Hn.
    + destruct (extract_step_Done orig cands Hn)
        as (sg & g' & sub & _ & H0 & Hstep & Hg' & Hsub & Hf' & Hfsub).
      destruct (extract_step_decreases orig cands Hn) as (g'' & c'' & Hstep' & Hlt).
      rewrite Hstep in Hstep'. simplify_eq. rewrite Hstep.
      destruct (IH g'' (if bool_decide (num_vertices sub ≠ 0) then cands ++ [sub] else cands))
        as (cs & gf & Hrun & Hz & Hperm & Hflag & Hall); [lia|].
      exists cs, gf. split_and!; try done.
      * rewrite Hperm, Hg'.
        pose proof (keep_at_split (fun i => bool_decide (i ∈ sg)) (vertices orig)) as Hsplit.
        rewrite <- Hsub in Hsplit.
        etransitivity; [| apply Permutation_app; [reflexivity | exact Hsplit]].
        case_bool_decide as Hne.
        -- rewrite fmap_app, concat_app. cbn. rewrite app_nil_r, <- app_assoc. reflexivity.
        -- unfold num_vertices in Hne. destruct (vertices sub); [|cbn in Hne; lia].
           reflexivity.
      * congruence.
      * intros P HP Hc. apply Hall.
        -- intros c Hc1 Hc2. apply HP; [congruence | done].
        -- case_bool_decide as Hne; [|done]. apply Forall_app. split; [done|].
           constructor; [|constructor]. apply HP; [done | lia].
    + exists cands, orig. split_and!; try done; [lia|].
      unfold num_vertices in Hn. destruct (vertices orig); [|cbn in Hn; lia].
      by rewrite app_nil_r.
Qed.

Lemma extract_loop_more_fuel (fuel : nat) : forall fuel' orig_graph candidates,
  num_vertices orig_graph <= fuel -> fuel <= fuel' ->
  extract_loop fuel' orig_graph candidates = extract_loop fuel orig_graph candidates.
Proof.
  induction fuel as [|fuel IH]; intros fuel' orig cands Hn Hle.
  - destruct fuel'; cbn [extract_loop]; by rewrite bool_decide_eq_false_2 by lia.
  - destruct fuel' as [|fuel']; [lia|]. cbn [extract_loop].
    case_bool_decide as Hpos; [|reflexivity].
    destruct (extract_step_decreases orig cands Hpos) as (g' & c' & -> & Hlt).
    apply IH; lia.
Qed.

Lemma elem_of_concat {A} (L : list (list A)) (x : A) :
  x ∈ concat L <-> exists l, l ∈ L /\ x ∈ l.
Proof.
  induction L as [|l0 L IH]; cbn [concat].
  - split; [by intros ?%elem_of_nil | by intros (l & ?%elem_of_nil & _)].
  - rewrite elem_of_app, IH. split.
    + intros [Hx | (l & Hl & Hx)]; [exists l0 | exists l]; split; try done; [by left | by right].
    + intros (l & [->|Hl]%elem_of_cons & Hx); [by left | right; by exists l].
Qed.

Lemma concat_NoDup_unique {A} (L : list (list A)) (x : A) : forall k k' l l',
  NoDup (concat L) ->
  L !! k = Some l -> L !! k' = Some l' -> x ∈ l -> x ∈ l' -> k = k'.
Proof.
  induction L as [|l0 L IH]; intros k k' l l' Hnd Hk Hk' Hx Hx'; [done|].
  cbn [concat] in Hnd. apply NoDup_app in Hnd as (_ & Hdisj & Hnd).
  assert (Hin : forall j m, L !! j = Some m -> x ∈ m -> x ∈ concat L).
  { intros j m Hj Hm. apply elem_of_concat. exists m. split; [|done].
    by eapply list_elem_of_lookup_2. }
  destruct k as [|k], k' as [|k']; cbn in Hk, Hk'; simplify_eq.
  - reflexivity.
  - exfalso. eapply Hdisj; [exact Hx | by eapply Hin].
  - exfalso. eapply Hdisj; [exact Hx' | by eapply Hin].
  - f_equal. by eapply IH.
Qed.

(** C3: [extract_candidates] terminates. While the working graph has a
    vertex, the seed (vertex 0 of the scratch copy) is at distance 0 from
    itself and so belongs to the collected component, and the round leaves
    the working graph with strictly fewer vertices; hence as many rounds as
    the input has vertices always suffice, and more rounds change nothing. *)
Theorem extract_candidates_terminates (orig_graph : DblingGraph) :
  (forall candidates, 0 < num_vertices orig_graph ->
     shortest_distance (copy orig_graph) 0 !! 0 = Some 0%Z /\
     exists sg_vertices orig_graph' candidates',
       get_subtree_vertices (copy orig_graph) = Done sg_vertices /\
       0 ∈ sg_vertices /\
       extract_step orig_graph candidates = Done (orig_graph', candidates') /\
       num_vertices orig_graph' < num_vertices orig_graph) /\
  (exists result, extract_candidates orig_graph = Done result) /\
  (forall fuel, num_vertices orig_graph <= fuel ->
     extract_candidates_within fuel orig_graph = extract_candidates orig_graph).
Proof.
  split_and!.
  - intros cands Hn.
    destruct (get_subtree_vertices_seed (copy orig_graph) Hn) as (Hd & sg & Hsg & H0).
    split; [exact Hd|].
    destruct (extract_step_decreases orig_graph cands Hn) as (g' & c' & Hstep & Hlt).
    exists sg, g', c'. done.
  - destruct (extract_loop_Done (num_vertices orig_graph) orig_graph [] (Nat.le_refl _))
      as (cs & gf & Hrun & _).
    by exists (cs, gf).
  - intros fuel Hle. unfold extract_candidates, extract_candidates_within.
    by apply extract_loop_more_fuel.
Qed.

(** C1: the candidates returned by [extract_candidates] partition the
    vertices of the input. The run returns; the vertex lists of the
    candidates, put end to end, are a rearrangement of the vertex list of the
    input (a one-to-one correspondence of positions: nothing dropped, nothing
    duplicated); no candidate is empty; the working graph is left without
    vertices; and when the vertices of the input are pairwise different, each
    of them lies in exactly one candidate. *)
Theorem extract_candidates_partition (orig_graph : DblingGraph) :
  exists candidates orig_graph',
    extract_candidates orig_graph = Done (candidates, orig_graph') /\
    num_vertices orig_graph' = 0 /\
    concat (vertices <$> candidates) ≡ₚ vertices orig_graph /\
    Forall (fun c => 0 < num_vertices c) candidates /\
    (NoDup (vertices orig_graph) ->
     forall p, p ∈ vertices orig_graph ->
       exists k c, candidates !! k = Some c /\ p ∈ vertices c /\
         forall k' c', candidates !! k' = Some c' -> p ∈ vertices c' -> k' = k).
Proof.
  destruct (extract_loop_Done (num_vertices orig_graph) orig_graph [] (Nat.le_refl _))
    as (cs & gf & Hrun & Hz & Hperm & _ & Hall).
  exists cs, gf. cbn [fmap list_fmap concat app] in Hperm.
  split_and!; try done.
  - apply Hall; [|constructor]. by intros c _ Hc.
  - intros Hnd p Hp. rewrite <- Hperm in Hp, Hnd.
    apply elem_of_concat in Hp as (l & Hl & Hpl).
    apply list_elem_of_lookup in Hl as [k Hk].
    rewrite list_lookup_fmap in Hk.
    destruct (cs !! k) as [c|] eqn:Hc; [|done]. cbn in Hk. simplify_eq.
    exists k, c. split_and!; try done.
    intros k' c' Hc' Hp'.
    apply (concat_NoDup_unique (vertices <$> cs) p k' k (vertices c') (vertices c) Hnd);
      [by rewrite list_lookup_fmap, Hc' | by rewrite list_lookup_fmap, Hc | done | done].
Qed.

(** ** The tree walker *)

Section WalkerFacts.

Variable C : Consts.
Variable E : Extern.
Variable fs : FileSystem.

Lemma on_digr_Returns {A} (m : M DblingGraph A) w a w' :
  on_digr m w = Returns a w' ->
  exists g', m (digr w) = Returns a g' /\
    w' = {| digr := g'; id_to_vertex := id_to_vertex w; ttl_objects := ttl_objects w |}.
Proof.
  unfold on_digr. destruct (m (digr w)) as [a' g'|e g']; intros H; simplify_eq. eauto.
Qed.

(** The graph on which [set_vertex_props] runs for a new child of [parent]. *)
Lemma add_child_Returns slice_path dirpath dir_id f w w' :
  add_child C E fs slice_path dirpath dir_id f w = Returns tt w' ->
  exists parent vertex_id,
    id_to_vertex w !! dir_id = Some parent /\
    set_vertex_props C E fs (num_vertices (digr w)) (posixpath.join dirpath f) slice_path
      {| vertices := vertices (digr w) ++ [new_vertex_props];
         edges := edges (digr w) ++ [(parent, num_vertices (digr w))];
         gp_has_encrypted_files := gp_has_encrypted_files (digr w) |}
      = Returns vertex_id (digr w') /\
    id_to_vertex w' = <[vertex_id := num_vertices (digr w)]> (id_to_vertex w).
Proof.
  unfold add_child. intros H.
  apply bind_Returns in H as (vertex & w1 & Hadd & H).
  apply on_digr_Returns in Hadd as (g1 & Hadd & ->).
  cbv [add_vertex] in Hadd. simplify_eq.
  apply bind_Returns in H as (w0 & ? & Hget & H). cbv [get] in Hget. simplify_eq.
  apply bind_Returns in H as (parent & ? & Hpar & H).
  apply or_raise_Returns in Hpar as [Hpar ->]. cbn [id_to_vertex] in Hpar.
  apply bind_Returns in H as ([] & w2 & Hedge & H).
  apply on_digr_Returns in Hedge as (g2 & Hedge & ->).
  cbv [add_edge modify] in Hedge. simplify_eq. cbn [digr vertices edges gp_has_encrypted_files id_to_vertex ttl_objects] in H.
  apply bind_Returns in H as (vertex_id & w3 & Hset & H).
  apply on_digr_Returns in Hset as (g3 & Hset & ->).
  cbn [digr id_to_vertex ttl_objects] in *.
  apply bind_Returns in H as ([] & w4 & Hrem & H).
  cbv [remember modify count_object] in Hrem, H. simplify_eq.
  cbn [digr id_to_vertex ttl_objects] in *.
  exists parent, vertex_id. done.
Qed.

(** When [os.stat] fails on a child, the child's vertex and its edge have
    already been added. *)
Lemma add_child_stat_fails slice_path dirpath dir_id f w parent :
  id_to_vertex w !! dir_id = Some parent ->
  lstat fs (posixpath.abspath (getcwd fs) (posixpath.join dirpath f)) = None ->
  add_child C E fs slice_path dirpath dir_id f w =
    Raises OSError
      {| digr := {| vertices := vertices (digr w) ++ [new_vertex_props];
                    edges := edges (digr w) ++ [(parent, num_vertices (digr w))];
                    gp_has_encrypted_files := gp_has_encrypted_files (digr w) |};
         id_to_vertex := id_to_vertex w;
         ttl_objects := ttl_objects w |}.
Proof.
  intros Hparent Hstat.
  unfold add_child.
  cbv [mbind M_bind on_digr add_vertex get]. cbn [digr id_to_vertex ttl_objects].
  rewrite Hparent. cbv [or_raise mret M_ret add_edge modify].
  cbn [digr id_to_vertex ttl_objects vertices edges gp_has_encrypted_files].
  unfold set_vertex_props. cbv [mbind M_bind]. rewrite Hstat. reflexivity.
Qed.

(** [set_vertex_props] on the vertex that was just added. *)
Lemma set_vertex_props_fresh vs es b filename slice_path id g' :
  let g1 := {| vertices := vs ++ [new_vertex_props]; edges := es;
               gp_has_encrypted_files := b |} in
  set_vertex_props C E fs (length vs) filename slice_path g1 = Returns id g' ->
  exists st name,
    let fn := posixpath.abspath (getcwd fs) filename in
    let mt := separate_mode_type C (st_mode st) in
    let sfn := sliced C slice_path fn in
    lstat fs fn = Some st /\
    edges g' = es /\
    gp_has_encrypted_files g' = b || ENC_PAT_search C sfn /\
    vertices g' =
      vs ++ [store_metadata C E st mt.1 mt.2 name sfn (get_dir_depth C sfn false)
               (store_names C st fn id
                  match in_neighbours g1 (length vs) with
                  | [] => new_vertex_props
                  | parent_ver :: _ =>
                      store_parent_inode (vp_inode (vprops g1 parent_ver)) new_vertex_props
                  end)].
Proof.
  intros g1 H. apply set_vertex_props_Returns in H as (st & encoded & name & H).
  cbn zeta in H. destruct H as (Hst & _ & _ & _ & He & Hv & Hf).
  exists st, name. cbn zeta. split_and!; try done.
  - rewrite Hf. unfold num_vertices. subst g1. cbn [vertices gp_has_encrypted_files].
    rewrite length_app. cbn [length]. by rewrite bool_decide_eq_true_2 by lia.
  - rewrite Hv. subst g1. cbn [vertices].
    rewrite <- (Nat.add_0_r (length vs)) at 1. rewrite alter_app_r. reflexivity.
Qed.

(** An invariant of the walker state that holds once the top vertex is
    set and that every added child keeps, holds when the walk returns. *)
Lemma populate_from_invariant (I : WalkState -> Prop) slice_path top_dir w0 w' :
  populate_from C E fs slice_path top_dir w0 = Returns tt w' ->
  (forall id g1,
     set_vertex_props C E fs (num_vertices (digr w0)) top_dir slice_path
       {| vertices := vertices (digr w0) ++ [new_vertex_props];
          edges := edges (digr w0);
          gp_has_encrypted_files := gp_has_encrypted_files (digr w0) |} = Returns id g1 ->
     I {| digr := g1; id_to_vertex := {[ id := num_vertices (digr w0) ]}; ttl_objects := 1 |}) ->
  (forall dirpath dir_id f w w1,
     I w -> add_child C E fs slice_path dirpath dir_id f w = Returns tt w1 -> I w1) ->
  I w'.
Proof.
  unfold populate_from. intros H Hroot Hchild.
  apply bind_Returns in H as (dir_v & w1 & Hadd & H).
  apply on_digr_Returns in Hadd as (g1 & Hadd & ->).
  cbv [add_vertex] in Hadd. simplify_eq.
  apply bind_Returns in H as (_id & w2 & Hset & H).
  apply on_digr_Returns in Hset as (g2 & Hset & ->).
  cbn [digr id_to_vertex ttl_objects] in *.
  apply bind_Returns in H as ([] & w3 & Hmod & H).
  cbv [modify] in Hmod. simplify_eq. cbn [digr] in *.
  revert H. apply for_each_invariant; [|by apply Hroot].
  intros [[dirpath dirnames] filenames] s s' _ Hs Hstep.
  unfold walk_step in Hstep.
  apply bind_Returns in Hstep as (encoded & ? & Henc & Hstep).
  apply or_raise_Returns in Henc as [Henc ->].
  revert Hstep. apply for_each_invariant; [|exact Hs].
  intros f t t' _ Ht Hc. by eapply Hchild.
Qed.

(** When the walk returns, [set_vertex_props] has returned for the top
    directory and for every object the walk listed. *)
Lemma populate_from_all_return slice_path top_dir w0 w' :
  populate_from C E fs slice_path top_dir w0 = Returns tt w' ->
  (exists v g id g', set_vertex_props C E fs v top_dir slice_path g = Returns id g') /\
  (forall dirpath dirnames filenames f,
     (dirpath, dirnames, filenames) ∈ walk fs top_dir ->
     f ∈ dirnames ++ filenames ->
     exists v g id g',
       set_vertex_props C E fs v (posixpath.join dirpath f) slice_path g = Returns id g').
Proof.
  unfold populate_from. intros H.
  apply bind_Returns in H as (dir_v & w1 & Hadd & H).
  apply bind_Returns in H as (_id & w2 & Hset & H).
  apply on_digr_Returns in Hset as (g2 & Hset & ->).
  apply bind_Returns in H as ([] & w3 & Hmod & H).
  split; [eauto 6|].
  intros dirpath dirnames filenames f Hentry Hf.
  destruct (for_each_all_return _ _ _ _ H _ Hentry) as (t & t' & Hstep).
  unfold walk_step in Hstep.
  apply bind_Returns in Hstep as (encoded & ? & Henc & Hstep).
  destruct (for_each_all_return _ _ _ _ Hstep _ Hf) as (u & u' & Hc).
  apply add_child_Returns in Hc as (parent & vid & _ & Hc & _). eauto 6.
Qed.

(** [make_graph_from_dir] returns only through a walk that returns. *)
Lemma make_graph_from_dir_Returns top_dir digr_in g s :
  make_graph_from_dir C E fs top_dir digr_in = Returns g s ->
  isdir fs top_dir = true /\ s = g /\
  exists w',
    populate_from C E fs (choose_graph digr_in).2 top_dir
      {| digr := (choose_graph digr_in).1; id_to_vertex := ∅; ttl_objects := 0 |}
      = Returns tt w' /\
    digr w' = g.
Proof.
  unfold make_graph_from_dir. destruct (choose_graph digr_in) as [g0 sl]. cbn [fst snd].
  destruct (isdir fs top_dir); cbn [negb]; [|discriminate].
  destruct (populate_from _ _ _ _ _ _) as [[] w'|e w'] eqn:Hrun; intros H; simplify_eq.
  eauto.
Qed.

End WalkerFacts.

Section WalkOutcomes.

Variable C : Consts.
Variable E : Extern.
Variable fs : FileSystem.

(** C2, as the code has it: a failure of [os.stat] on the top directory or
    on any object the walk lists is fatal. [make_graph_from_dir] raises and
    returns no graph. The object is not skipped: when [os.stat] raises on a
    child, the child's vertex and the edge from its parent are already in
    the graph, and the loop body ends there with [OSError]. *)
Theorem stat_failure_aborts_walk top_dir digr_in :
  ((lstat fs (posixpath.abspath (getcwd fs) top_dir) = None \/
    exists dirpath dirnames filenames f,
      (dirpath, dirnames, filenames) ∈ walk fs top_dir /\
      f ∈ dirnames ++ filenames /\
      lstat fs (posixpath.abspath (getcwd fs) (posixpath.join dirpath f)) = None) ->
   exists e g, make_graph_from_dir C E fs top_dir digr_in = Raises e g) /\
  (forall slice_path dirpath dir_id f w parent,
     id_to_vertex w !! dir_id = Some parent ->
     lstat fs (posixpath.abspath (getcwd fs) (posixpath.join dirpath f)) = None ->
     add_child C E fs slice_path dirpath dir_id f w =
       Raises OSError
         {| digr := {| vertices := vertices (digr w) ++ [new_vertex_props];
                       edges := edges (digr w) ++ [(parent, num_vertices (digr w))];
                       gp_has_encrypted_files := gp_has_encrypted_files (digr w) |};
            id_to_vertex := id_to_vertex w;
            ttl_objects := ttl_objects w |}).
Proof.
  split; [|exact (add_child_stat_fails C E fs)].
  intros Hfail.
  destruct (make_graph_from_dir C E fs top_dir digr_in) as [g s|e g] eqn:Hrun; [|eauto].
  exfalso.
  apply make_graph_from_dir_Returns in Hrun as (_ & _ & w' & Hrun & _).
  apply populate_from_all_return in Hrun as [Htop Hall].
  destruct Hfail as [Hfail | (dirpath & dirnames & filenames & f & Hin & Hf & Hfail)].
  - destruct Htop as (v & g1 & id & g2 & Hset).
    apply set_vertex_props_Returns in Hset as (st & ? & ? & Hst & _).
    cbn zeta in Hst. congruence.
  - destruct (Hall _ _ _ _ Hin Hf) as (v & g1 & id & g2 & Hset).
    apply set_vertex_props_Returns in Hset as (st & ? & ? & Hst & _).
    cbn zeta in Hst. congruence.
Qed.

Lemma vprops_app_l vs b es x v :
  v < length vs ->
  vprops {| vertices := vs ++ [x]; edges := es; gp_has_encrypted_files := b |} v = vs !!! v.
Proof. intros Hv. unfold vprops. cbn [vertices]. by apply lookup_total_app_l. Qed.

Lemma vprops_app_r vs b es x :
  vprops {| vertices := vs ++ [x]; edges := es; gp_has_encrypted_files := b |} (length vs) = x.
Proof. unfold vprops. cbn [vertices]. by apply list_lookup_total_middle. Qed.

Lemma vprops_of_vertices g g' v : vertices g = vertices g' -> vprops g v = vprops g' v.
Proof. unfold vprops. by intros ->. Qed.

(** The vertices a walk adds are all derived with the same slicing flag. *)
Lemma populate_from_derived slice_path top_dir g0 w' :
  populate_from C E fs slice_path top_dir
    {| digr := g0; id_to_vertex := ∅; ttl_objects := 0 |} = Returns tt w' ->
  forall v, num_vertices g0 <= v < num_vertices (digr w') ->
    derived_with C slice_path (vprops (digr w') v).
Proof.
  intros Hrun.
  refine (populate_from_invariant C E fs
            (fun w => forall v, num_vertices g0 <= v < num_vertices (digr w) ->
                                derived_with C slice_path (vprops (digr w) v))
            _ _ _ _ Hrun _ _).
  - cbn [digr]. intros id g1 Hset v Hv.
    apply set_vertex_props_fresh in Hset as (st & name & Hset). cbn zeta in Hset.
    destruct Hset as (_ & _ & _ & Hvs).
    unfold num_vertices in *. rewrite Hvs, length_app in Hv. cbn [length] in Hv.
    assert (v = length (vertices g0)) as -> by lia.
    unfold vprops. rewrite Hvs, list_lookup_total_middle by done.
    unfold derived_with. cbn [store_metadata store_names vp_filename vp_dir_depth vp_encrypted vp_gt_min_depth].
    done.
  - intros dirpath dir_id f w w1 IH Hc v Hv.
    apply add_child_Returns in Hc as (parent & vid & _ & Hset & _).
    apply set_vertex_props_fresh in Hset as (st & name & Hset). cbn zeta in Hset.
    destruct Hset as (_ & _ & _ & Hvs).
    unfold num_vertices in *. rewrite Hvs, length_app in Hv. cbn [length] in Hv.
    unfold vprops. rewrite Hvs.
    destruct (decide (v = length (vertices (digr w)))) as [->|Hne].
    + rewrite list_lookup_total_middle by done.
      unfold derived_with. cbn [store_metadata store_names vp_filename vp_dir_depth vp_encrypted vp_gt_min_depth].
      done.
    + rewrite lookup_total_app_l by lia. apply IH. lia.
Qed.


End WalkOutcomes.

(** ** Parent links *)

Lemma filter_none {A} (P : A -> Prop) `{forall x, Decision (P x)} (l : list A) :
  (forall x, x ∈ l -> ~ P x) -> filter P l = [].
Proof.
  induction l as [|x l IH]; intros Hl; [reflexivity|].
  rewrite filter_cons_False by (apply Hl; by left).
  apply IH. intros y Hy. apply Hl. by right.
Qed.

Lemma in_neighbours_beyond (g : DblingGraph) (v : nat) :
  valid_edges g -> num_vertices g <= v -> in_neighbours g v = [].
Proof.
  intros Hvalid Hv. unfold in_neighbours. rewrite filter_none; [reflexivity|].
  intros e He Hev. destruct (Hvalid e He) as [_ Hlt]. lia.
Qed.

Lemma in_neighbours_snoc vs vs' es b b' parent target v :
  in_neighbours {| vertices := vs'; edges := es ++ [(parent, target)];
                   gp_has_encrypted_files := b' |} v =
  in_neighbours {| vertices := vs; edges := es; gp_has_encrypted_files := b |} v
    ++ (if decide (target = v) then [parent] else []).
Proof.
  unfold in_neighbours. cbn [edges]. rewrite filter_app, map_app. f_equal.
  rewrite filter_cons, filter_nil. cbn [snd]. by destruct (decide (target = v)).
Qed.

Lemma in_neighbours_edges g g' v : edges g = edges g' -> in_neighbours g v = in_neighbours g' v.
Proof. unfold in_neighbours. by intros ->. Qed.

Section ParentLinks.

Variable C : Consts.
Variable E : Extern.
Variable fs : FileSystem.

(** What the walker keeps true of its state while it extends a graph that
    had [root] vertices. *)
Lemma populate_from_parent_linked slice_path top_dir g0 w' :
  valid_edges g0 ->
  populate_from C E fs slice_path top_dir
    {| digr := g0; id_to_vertex := ∅; ttl_objects := 0 |} = Returns tt w' ->
  parent_linked (num_vertices g0) (digr w') /\
  forall v, v < num_vertices g0 ->
    vprops (digr w') v = vprops g0 v /\ in_neighbours (digr w') v = in_neighbours g0 v.
Proof.
  intros Hvalid0 Hrun.
  set (root := num_vertices g0).
  enough ((parent_linked root (digr w') /\
           forall v, v < root -> vprops (digr w') v = vprops g0 v /\
                                 in_neighbours (digr w') v = in_neighbours g0 v) /\
          valid_edges (digr w') /\
          forall k v, id_to_vertex w' !! k = Some v -> root <= v < num_vertices (digr w'))
    as [? _] by done.
  refine (populate_from_invariant C E fs
            (fun w => (parent_linked root (digr w) /\
                       forall v, v < root -> vprops (digr w) v = vprops g0 v /\
                                             in_neighbours (digr w) v = in_neighbours g0 v) /\
               valid_edges (digr w) /\
               forall k v, id_to_vertex w !! k = Some v -> root <= v < num_vertices (digr w))
            _ _ _ _ Hrun _ _).
  - cbn [digr id_to_vertex]. intros id g1 Hset.
    apply set_vertex_props_fresh in Hset as (st & name & Hset). cbn zeta in Hset.
    destruct Hset as (_ & Hes & _ & Hvs).
    assert (Hn1 : num_vertices g1 = S root)
      by (unfold root, num_vertices in *; rewrite Hvs, length_app; cbn [length]; lia).
    assert (Hin0 : forall b vs, in_neighbours {| vertices := vs; edges := edges g0;
                                   gp_has_encrypted_files := b |} root = []).
    { intros b vs. rewrite (in_neighbours_edges _ g0) by done.
      apply in_neighbours_beyond; [done | unfold root; lia]. }
    split_and!.
    + split_and!.
      * lia.
      * rewrite (in_neighbours_edges _ g0) by done.
        apply in_neighbours_beyond; [done | unfold root; lia].
      * unfold vprops. rewrite Hvs. unfold root, num_vertices.
        rewrite list_lookup_total_middle by done.
        fold (num_vertices g0). fold root. rewrite Hin0. reflexivity.
      * intros v Hv. lia.
    + intros v Hv. split.
      * unfold vprops. rewrite Hvs. by apply lookup_total_app_l.
      * by apply in_neighbours_edges.
    + intros e He. rewrite Hes in He. destruct (Hvalid0 e He). fold root in H, H0. lia.
    + intros k v Hk. apply lookup_singleton_Some in Hk as [_ <-]. lia.
  - intros dirpath dir_id f w w1 ((Hlinked & Hframe) & Hvalid & Hdict) Hc.
    apply add_child_Returns in Hc as (parent & vid & Hparent & Hset & Hdict1).
    apply set_vertex_props_fresh in Hset as (st & name & Hset). cbn zeta in Hset.
    destruct Hset as (_ & Hes & _ & Hvs).
    destruct (Hdict _ _ Hparent) as [Hp0 Hpn].
    destruct Hlinked as (Hroot & Hin_root & Hpi_root & Hrest).
    set (n := num_vertices (digr w)) in *.
    assert (Hn1 : num_vertices (digr w1) = S n)
      by (unfold n, num_vertices in *; rewrite Hvs, length_app; cbn [length]; lia).
    assert (Hin : forall v, in_neighbours (digr w1) v =
                            in_neighbours (digr w) v ++ (if decide (n = v) then [parent] else [])).
    { intros v. rewrite (in_neighbours_edges (digr w1)
        {| vertices := vertices (digr w1); edges := edges (digr w) ++ [(parent, n)];
           gp_has_encrypted_files := gp_has_encrypted_files (digr w1) |}) by done.
      rewrite (in_neighbours_snoc (vertices (digr w)) _ _ (gp_has_encrypted_files (digr w))).
      reflexivity. }
    assert (Hold : forall v, v < n -> vprops (digr w1) v = vprops (digr w) v).
    { intros v Hv. unfold vprops. rewrite Hvs. apply lookup_total_app_l. exact Hv. }
    split_and!.
    + split_and!.
      * lia.
      * rewrite Hin, Hin_root. rewrite decide_False by lia. reflexivity.
      * rewrite Hold by lia. exact Hpi_root.
      * intros v Hv. destruct (decide (v = n)) as [->|Hne].
        -- exists parent. rewrite Hin, decide_True by done.
           rewrite (in_neighbours_beyond (digr w) n Hvalid) by (unfold n; lia).
           split_and!; try done.
           rewrite (Hold parent) by lia.
           unfold vprops at 1. rewrite Hvs. unfold n, num_vertices.
           rewrite list_lookup_total_middle by done.
           fold (num_vertices (digr w)). fold n.
           rewrite (in_neighbours_snoc (vertices (digr w)) _ _ (gp_has_encrypted_files (digr w))).
           assert (Hnil : in_neighbours {| vertices := vertices (digr w); edges := edges (digr w);
                             gp_has_encrypted_files := gp_has_encrypted_files (digr w) |} n = []).
           { rewrite (in_neighbours_edges _ (digr w)) by done.
             apply in_neighbours_beyond; [done | unfold n; lia]. }
           rewrite Hnil, decide_True by done. cbn [app].
           cbn [store_metadata store_names store_parent_inode vp_parent_inode].
           f_equal. apply vprops_app_l. exact Hpn.
        -- destruct (Hrest v) as (p & Hp1 & Hp2 & Hp3); [lia|].
           exists p. rewrite Hin, Hp1, decide_False by lia.
           split_and!; try done; try lia.
           rewrite !Hold by lia. exact Hp3.
    + intros v Hv. destruct (Hframe v Hv) as [Hf1 Hf2]. split.
      * rewrite Hold by lia. exact Hf1.
      * rewrite Hin, Hf2, decide_False by lia. by rewrite app_nil_r.
    + intros e He. rewrite Hes in He. rewrite Hn1.
      apply elem_of_app in He as [He | He%list_elem_of_singleton].
      * destruct (Hvalid e He). fold n in H, H0. lia.
      * subst e. cbn [fst snd]. lia.
    + intros k v Hk. rewrite Hdict1 in Hk. rewrite Hn1.
      apply lookup_insert_Some in Hk as [[_ <-] | [_ Hk]]; [fold n; lia|].
      destruct (Hdict _ _ Hk). lia.
Qed.

(** C7: in a graph the walker returns, the vertices it added form a tree.
    Its first vertex (vertex 0 when the walker started from a fresh graph,
    so that the tree is the whole graph) has no in-edge and keeps the
    default [parent_inode] 0; every other one has exactly one in-neighbour,
    added before it, and its [parent_inode] is the [inode] of that
    in-neighbour. The vertices of a supplied graph keep their attributes
    and their in-neighbours. *)
Theorem walker_parent_links top_dir digr_in g s :
  valid_edges (choose_graph digr_in).1 ->
  make_graph_from_dir C E fs top_dir digr_in = Returns g s ->
  let root := num_vertices (choose_graph digr_in).1 in
  (is_DblingGraph digr_in = false -> root = 0) /\
  root < num_vertices g /\
  in_neighbours g root = [] /\
  vp_parent_inode (vprops g root) = 0%Z /\
  (forall v, root < v < num_vertices g ->
     exists p, in_neighbours g v = [p] /\ root <= p < v /\
               vp_parent_inode (vprops g v) = vp_inode (vprops g p)) /\
  (forall v, v < root ->
     vprops g v = vprops (choose_graph digr_in).1 v /\
     in_neighbours g v = in_neighbours (choose_graph digr_in).1 v).
Proof.
  intros Hvalid Hrun root.
  apply make_graph_from_dir_Returns in Hrun as (_ & _ & w' & Hrun & <-).
  split; [by destruct digr_in|].
  destruct (populate_from_parent_linked _ _ _ _ Hvalid Hrun)
    as ((H1 & H2 & H3 & H4) & Hframe).
  done.
Qed.

End ParentLinks.

(** ** The graph property [has_encrypted_files] *)





Section EncryptedFlag.

Variable C : Consts.
Variable E : Extern.






End EncryptedFlag.

(** * Concrete runs *)

Section Runs.

Import Sample.

Lemma g_root_built :
  make_graph_from_dir consts extern fs (py "/root") PyNone = Returns g_root g_root.
Proof. vm_compute. reflexivity. Qed.

Lemma g_forest_built :
  make_graph_from_dir consts extern fs (py "/root2") (PyDblingGraph g_root)
  = Returns g_forest g_forest.
Proof. vm_compute. reflexivity. Qed.



(** The scenario of two disjoint trees: two candidates, of six and of two
    vertices, and a drained working graph. *)
Example two_trees_two_candidates :
  exists c1 c2 g',
    extract_candidates g_forest = Done ([c1; c2], g') /\
    map vp_inode (vertices c1) = [1; 2; 3; 5; 4; 6]%Z /\
    map vp_inode (vertices c2) = [7; 8]%Z /\
    edges c2 = [(0, 1)] /\
    num_vertices g' = 0.
Proof. do 3 eexists. vm_compute. split_and!; reflexivity. Qed.

(** A connected tree gives one candidate, equal to the graph. *)
Example one_tree_one_candidate :
  exists g', extract_candidates g_root = Done ([g_root], g').
Proof. eexists. vm_compute. reflexivity. Qed.

(** The scenario of the minimum depth of interest, with [MIN_DEPTH = 4]:
    [/home/.shadow/u] matches the vault pattern at depth 3 and is not
    flagged; [/home/other/a/b] is at depth 4 and does not match. *)
Example gt_min_depth_scenario :
  map (fun p => (vp_dir_depth p, vp_gt_min_depth p)) (vertices g_home) =
  [(1, false); (2, false); (2, false); (3, false); (4, true); (5, true);
   (3, false); (4, false)]%Z.
Proof. vm_compute. reflexivity. Qed.

(** Slicing changes the depths of an image mounted under [/mnt/img]. *)
Example slicing_scenario :
  map vp_dir_depth (vertices (build fs "/mnt/img" PyNone)) = [2; 3; 4]%Z /\
  map vp_dir_depth (vertices (build fs "/mnt/img" PyOther)) = [2; 3; 4]%Z /\
  map vp_dir_depth (vertices (build fs "/mnt/img" (PyDblingGraph DblingGraph_init)))
    = [2; 1; 2]%Z.
Proof. vm_compute. split_and!; reflexivity. Qed.

(** [load] against the method of the base class it is documented after. *)
Example load_does_not_load :
  let d := {| stored := {[ py "g.gt" := g_root ]} |} in
  Graph_load (py "g.gt") DblingGraph_init d = Some (g_root, d) /\
  (load (py "g.gt") DblingGraph_init d).1 = DblingGraph_init /\
  stored (load (py "g.gt") DblingGraph_init d).2 !! py "g.gt" = Some DblingGraph_init.
Proof. vm_compute. split_and!; reflexivity. Qed.


Lemma valid_edges_init : valid_edges DblingGraph_init.
Proof. intros e He. cbn in He. by apply elem_of_nil in He. Qed.



(** C1, on two trees held in one graph. *)
Lemma extract_candidates_partition_witness :
  exists candidates g',
    extract_candidates g_forest = Done (candidates, g') /\
    forall p, p ∈ vertices g_forest ->
      exists k c, candidates !! k = Some c /\ p ∈ vertices c /\
        forall k' c', candidates !! k' = Some c' -> p ∈ vertices c' -> k' = k.
Proof.
  destruct (extract_candidates_partition g_forest) as (cs & g' & Hrun & _ & _ & _ & Huniq).
  exists cs, g'. split; [exact Hrun|]. apply Huniq.
  apply (bool_decide_unpack _). vm_compute. exact I.
Defined.

(** C3, on one tree. *)
Lemma extract_candidates_terminates_witness :
  0 < num_vertices g_root /\
  exists orig_graph' candidates',
    extract_step g_root [] = Done (orig_graph', candidates') /\
    num_vertices orig_graph' < num_vertices g_root.
Proof.
  assert (Hn : 0 < num_vertices g_root) by (vm_compute; lia).
  split; [exact Hn|].
  destruct (extract_candidates_terminates g_root) as [Hstep _].
  destruct (Hstep [] Hn) as (_ & sg & g' & c' & _ & _ & Hs & Hlt).
  exists g', c'. split; [exact Hs | exact Hlt].
Defined.

(** C2 as stated fails: with [os.stat] failing on [/top/lost], the walk
    that otherwise returns a graph of seven vertices returns nothing. It
    raises [OSError], leaving a graph of three vertices: the top directory,
    [a], and the vertex already added for [lost]; [b], [c], [file1] and
    [file2] are never visited. *)
Lemma unreadable_object_aborts_the_walk :
  (exists g, make_graph_from_dir consts extern fs_readable (py "/top") PyNone = Returns g g /\
             num_vertices g = 7) /\
  (exists g, make_graph_from_dir consts extern fs_unreadable (py "/top") PyNone
             = Raises OSError g /\
             num_vertices g = 3) /\
  ~ (exists g s, make_graph_from_dir consts extern fs_unreadable (py "/top") PyNone
                 = Returns g s /\ num_vertices g = 6).
Proof.
  split_and!.
  - eexists. vm_compute. split; reflexivity.
  - eexists. vm_compute. split; reflexivity.
  - intros (g & s & Hrun & _). vm_compute in Hrun. discriminate.
Qed.

Lemma stat_failure_aborts_walk_witness :
  exists e g,
    make_graph_from_dir consts extern fs_unreadable (py "/top") PyNone = Raises e g.
Proof.
  apply (proj1 (stat_failure_aborts_walk consts extern fs_unreadable (py "/top") PyNone)).
  right. exists (py "/top"), [py "a"], [py "lost"], (py "lost"). split_and!.
  - vm_compute. left.
  - right. left.
  - vm_compute. reflexivity.
Defined.



(** C5, on [/root] and on another spelling of it, in different graphs. *)
Lemma filename_id_is_digest_of_path_witness :
  let run1 := set_vertex_props consts extern fs 0 (py "/root") false g_one in
  let run2 := set_vertex_props consts extern fs 3 (py "/root/a/..") true g_root in
  returned [] run1 = returned [] run2 /\
  vp_filename_id (vprops (graph_of run1) 0) = vp_filename_id (vprops (graph_of run2) 3).
Proof.
  intros run1 run2.
  assert (H1 : run1 = Returns (returned [] run1) (graph_of run1)) by (vm_compute; reflexivity).
  assert (H2 : run2 = Returns (returned [] run2) (graph_of run2)) by (vm_compute; reflexivity).
  assert (Hlt1 : 0 < num_vertices g_one) by (vm_compute; lia).
  assert (Hlt2 : 3 < num_vertices g_root) by (vm_compute; lia).
  destruct (filename_id_is_digest_of_path consts extern fs fs 0 3 (py "/root") (py "/root/a/..")
              false true g_one g_root _ _ _ _ Hlt1 Hlt2 H1 H2) as [_ Hsame].
  apply Hsame. vm_compute. reflexivity.
Defined.

(** C6, on [/home/.shadow/u/vault], at depth 4. *)
Lemma gt_min_depth_iff_witness :
  let run := set_vertex_props consts extern fs 0 (py "/home/.shadow/u/vault") false g_one in
  vp_gt_min_depth (vprops (graph_of run) 0) = true.
Proof.
  intros run.
  assert (H : run = Returns (returned [] run) (graph_of run)) by (vm_compute; reflexivity).
  assert (Hlt : 0 < num_vertices g_one) by (vm_compute; lia).
  destruct (gt_min_depth_iff consts extern fs 0 (py "/home/.shadow/u/vault") false g_one
              _ _ Hlt H) as (_ & Hiff & _).
  apply Hiff. vm_compute. split; [reflexivity | discriminate].
Defined.

(** C7, on [/root/a/b/file1], vertex 4 of the tree under [/root]. *)
Lemma walker_parent_links_witness :
  exists p, in_neighbours g_root 4 = [p] /\ 0 <= p < 4 /\
            vp_parent_inode (vprops g_root 4) = vp_inode (vprops g_root p).
Proof.
  destruct (walker_parent_links consts extern fs (py "/root") PyNone g_root g_root
              valid_edges_init g_root_built) as (_ & _ & _ & _ & Hall & _).
  apply Hall. vm_compute. lia.
Defined.

(** C8, on a name of 25 characters. *)
Lemma filename_end_is_basename_suffix_witness :
  let run := set_vertex_props consts extern fs 0
               (py "/home/.shadow/u/vault/ECRYPTFS_FNEK_ENCRYPTED.x") false g_one in
  vp_filename_end (vprops (graph_of run) 0) = py "K_ENCRYPTED.x".
Proof.
  intros run.
  assert (H : run = Returns (returned [] run) (graph_of run)) by (vm_compute; reflexivity).
  assert (Hlt : 0 < num_vertices g_one) by (vm_compute; lia).
  destruct (filename_end_is_basename_suffix consts extern fs 0
              (py "/home/.shadow/u/vault/ECRYPTFS_FNEK_ENCRYPTED.x") false g_one
              _ _ Hlt H) as (Heq & _).
  rewrite Heq. vm_compute. reflexivity.
Defined.

(** C9, on a disk that holds two files. *)
Lemma load_is_save_witness :
  let d := {| stored := {[ py "g.gt" := g_root; py "h.gt" := g_home ]} |} in
  stored (load (py "g.gt") DblingGraph_init d).2 !! py "h.gt" = Some g_home.
Proof.
  intros d.
  destruct (load_is_save (py "g.gt") DblingGraph_init d) as (_ & _ & _ & Hother).
  rewrite (Hother (py "h.gt")) by (vm_compute; discriminate).
  vm_compute. reflexivity.
Defined.


End Runs.

(** * Further properties *)

(** ** The depth of a path *)

Section Depth.

Import posixpath.

Lemma starts_cons b c r :
  starts b (c :: r) = (if b && negb (is_sep c) then 1 else 0) + starts (is_sep c) r.
Proof. reflexivity. Qed.

Lemma components_cons_inv (p : pystr) : exists w ws, components p = w :: ws.
Proof.
  destruct p as [|c r]; cbn [components]; [eauto|].
  destruct (is_sep c); [eauto|]. destruct (components r); eauto.
Qed.

Lemma starts_components (p : pystr) :
  starts true p = length (filter (fun w : pystr => w <> []) (components p)) /\
  starts false p + (if decide (hd [] (components p) = []) then 0 else 1) = starts true p.
Proof.
  induction p as [|c r [IH1 IH2]]; [by cbn|].
  cbn [components starts]. destruct (is_sep c) eqn:Hc; cbn [andb negb].
  - rewrite filter_cons_False by (intros H; by apply H). cbn [hd].
    rewrite decide_True by done. split; lia.
  - destruct (components_cons_inv r) as (w & ws & Hr). rewrite Hr in *. cbn [hd] in *.
    rewrite filter_cons_True by done. cbn [length hd].
    rewrite decide_False by done.
    destruct (decide (w = [])) as [->|Hw].
    + rewrite filter_cons_False in IH1 by (intros H; by apply H). split; lia.
    + rewrite filter_cons_True in IH1 by done. cbn [length] in IH1. split; lia.
Qed.

Lemma count_components_starts (p : pystr) : count_components p = Z.of_nat (starts true p).
Proof. unfold count_components. by rewrite (proj1 (starts_components p)). Qed.

Lemma starts_app_sep (X t : pystr) b :
  starts b (X ++ sep :: t) = starts b X + starts true t.
Proof.
  revert b. induction X as [|c X IH]; intros b; cbn [app starts].
  - unfold is_sep at 1 2. rewrite bool_decide_eq_true_2 by done.
    rewrite andb_false_r. reflexivity.
  - rewrite IH. lia.
Qed.

Lemma starts_no_sep (t : pystr) b :
  Forall (fun c => c <> sep) t ->
  starts b t = if b && negb (bool_decide (t = [])) then 1 else 0.
Proof.
  intros Ht. destruct Ht as [|c r Hc Hr]; [by rewrite andb_false_r|].
  cbn [starts]. unfold is_sep. rewrite !bool_decide_eq_false_2 by done.
  cbn [negb]. rewrite andb_true_r.
  assert (forall l, Forall (fun c => c <> sep) l -> starts false l = 0) as Hz.
  { induction 1 as [|c' r' Hc' _ IH]; [done|]. cbn [starts andb].
    unfold is_sep. by rewrite bool_decide_eq_false_2 by done. }
  rewrite Hz by done. lia.
Qed.

Lemma starts_all_sep (h : pystr) b : forallb is_sep h = true -> starts b h = 0.
Proof.
  revert b. induction h as [|c r IH]; intros b; [done|].
  cbn [forallb starts]. intros [Hc Hr]%andb_true_iff. rewrite Hc, andb_false_r.
  by rewrite IH.
Qed.

Lemma rstrip_sep_nil (h : pystr) : rstrip_sep h = [] -> forallb is_sep h = true.
Proof.
  induction h as [|c r IH]; [done|]. cbn [rstrip_sep forallb].
  destruct (rstrip_sep r) eqn:Hr; [|done].
  destruct (is_sep c); [intros _; by apply IH | done].
Qed.

Lemma starts_rstrip_sep (h : pystr) b : starts b (rstrip_sep h) = starts b h.
Proof.
  revert b. induction h as [|c r IH]; intros b; [done|].
  cbn [rstrip_sep]. destruct (rstrip_sep r) as [|c' r'] eqn:Hr.
  - pose proof (starts_all_sep r (is_sep c) (rstrip_sep_nil r Hr)) as Hz.
    cbn [starts]. rewrite Hz. destruct (is_sep c) eqn:Hc.
    + by rewrite andb_false_r.
    + cbn [starts]. rewrite Hc. lia.
  - rewrite (starts_cons b c r), (starts_cons b c (c' :: r')). by rewrite IH.
Qed.

Lemma rfind_sep_succ_decomp (p : pystr) :
  match rfind_sep_succ p with
  | 0 => Forall (fun c => c <> sep) p
  | S k => exists X t, p = X ++ sep :: t /\ length X = k /\ Forall (fun c => c <> sep) t
  end.
Proof.
  induction p as [|c r IH]; [constructor|].
  cbn [rfind_sep_succ]. destruct (rfind_sep_succ r) as [|k].
  - unfold is_sep. case_bool_decide as Hc.
    + subst c. exists [], r. done.
    + by constructor.
  - destruct IH as (X & t & -> & <- & Ht). exists (c :: X), t. done.
Qed.

(** What [split] does to the number of non-empty components, and when it
    gives the path back as its head. *)
Lemma split_starts (p h t : pystr) :
  split p = (h, t) ->
  starts true p = starts true h + (if bool_decide (t = []) then 0 else 1) /\
  (p = h -> starts true p = 0).
Proof.
  unfold split. intros Hsplit.
  pose proof (rfind_sep_succ_decomp p) as Hd.
  destruct (rfind_sep_succ p) as [|k] eqn:Hk.
  - rewrite take_0, drop_0 in Hsplit. cbn in Hsplit. injection Hsplit as <- <-.
    rewrite (starts_no_sep _ true Hd). cbn [andb starts].
    split; [by destruct (bool_decide (p = [])) | intros ->; reflexivity].
  - destruct Hd as (X & t' & -> & <- & Ht').
    replace (X ++ sep :: t') with ((X ++ [sep]) ++ t') in Hsplit by (by rewrite <- app_assoc).
    rewrite take_app_length', drop_app_length' in Hsplit by (rewrite length_app; cbn; lia).
    rewrite starts_app_sep, (starts_no_sep _ true Ht'). cbn [andb].
    assert (Hhead : starts true (X ++ [sep]) = starts true X)
      by (rewrite starts_app_sep; cbn; lia).
    destruct (negb (bool_decide (X ++ [sep] = [])) && negb (forallb is_sep (X ++ [sep]))) eqn:Hcond;
      injection Hsplit as <- <-.
    + rewrite starts_rstrip_sep, Hhead. split; [by destruct (bool_decide (t' = []))|].
      intros Heq. exfalso.
      assert (length (rstrip_sep (X ++ [sep])) <= length X) as Hlen.
      { clear. induction X as [|c X IH]; [by cbn|]. cbn [app rstrip_sep].
        destruct (rstrip_sep (X ++ [sep])); [destruct (is_sep c)|]; cbn [length] in *; lia. }
      rewrite <- Heq, length_app in Hlen. cbn [length] in Hlen. lia.
    + rewrite Hhead. split; [by destruct (bool_decide (t' = []))|].
      intros Heq.
      assert (t' = []) as ->.
      { apply (f_equal length) in Heq. rewrite !length_app in Heq. cbn [length] in Heq.
        destruct t'; [done | cbn [length] in Heq; lia]. }
      rewrite bool_decide_eq_true_2 by done.
      apply andb_false_iff in Hcond as [Hc|Hc].
      * apply negb_false_iff, bool_decide_eq_true in Hc. by destruct X.
      * apply negb_false_iff in Hc. rewrite <- Hhead, (starts_all_sep _ true Hc). reflexivity.
Qed.

Lemma get_dir_depth_loop_starts (p : pystr) (d : Z) :
  get_dir_depth_loop p d = (d + Z.of_nat (starts true p))%Z.
Proof.
  funelim (get_dir_depth_loop p d).
  - destruct (split_starts _ _ _ Hsplit) as [_ Hz]. rewrite (Hz e). lia.
  - destruct (split_starts _ _ _ Hsplit) as [Hs _]. rewrite Hs.
    repeat match goal with
           | IH : get_dir_depth_loop _ _ = (_ + Z.of_nat _)%Z |- _ => rewrite IH; clear IH
           end.
    destruct _tail as [|c t]; cbn [length].
    + rewrite !bool_decide_eq_true_2 by done. lia.
    + rewrite (bool_decide_eq_false_2 (S _ = 0)) by done.
      rewrite (bool_decide_eq_false_2 (c :: t = [])) by done.
      destruct h as [|c' h']; cbn [length].
      * rewrite bool_decide_eq_true_2 by done. cbn [starts]. lia.
      * rewrite bool_decide_eq_false_2 by done. lia.
Qed.

Lemma starts_snoc_sep (p : pystr) b : starts b (p ++ [sep]) = starts b p.
Proof. rewrite starts_app_sep. cbn [starts]. lia. Qed.

Lemma endswith_sep_inv (a : pystr) :
  endswith [sep] a = true -> exists a', a = a' ++ [sep].
Proof.
  unfold endswith. change (rev [sep]) with [sep].
  destruct (rev a) as [|c r] eqn:Hrev; cbn [startswith]; [done|].
  case_decide as Hc; [|done]. subst c. intros _.
  exists (rev r). rewrite <- (rev_involutive a), Hrev. reflexivity.
Qed.

(** X1: [get_dir_depth] returns the number of non-empty components of the
    path it is given (of the first group of [SLICE_PAT] when slicing is on
    and the pattern matches): every name counts, the file's own included,
    and leading, doubled or trailing separators count for nothing. *)
Theorem get_dir_depth_counts_components (C : Consts) (filename : pystr) (slice_path : bool) :
  get_dir_depth C filename slice_path = count_components (sliced C slice_path filename).
Proof.
  unfold get_dir_depth, sliced. rewrite get_dir_depth_loop_starts, count_components_starts.
  destruct slice_path; [destruct (SLICE_PAT_search C filename)|]; lia.
Qed.

(** X2: one more name, one more level. For a name [f] that is not empty and
    holds no separator, the depth of [path.join(dirpath, f)], the path
    [make_graph_from_dir] forms for a child, is the depth of [dirpath] plus
    one; separators appended to a path leave its depth unchanged. *)
Theorem get_dir_depth_join (C : Consts) (dirpath f : pystr) :
  f <> [] ->
  Forall (fun c => c <> sep) f ->
  get_dir_depth C (join dirpath f) false = (get_dir_depth C dirpath false + 1)%Z /\
  get_dir_depth C (join dirpath f ++ [sep]) false = get_dir_depth C (join dirpath f) false.
Proof.
  intros Hne Hf. unfold get_dir_depth. rewrite !get_dir_depth_loop_starts.
  rewrite starts_snoc_sep. split; [|reflexivity].
  assert (Hst : starts true f = 1).
  { rewrite (starts_no_sep _ true Hf). cbn [andb]. by rewrite bool_decide_eq_false_2. }
  unfold join.
  assert (startswith [sep] f = false) as ->.
  { destruct Hf as [|c r Hc _]; [done|]. cbn [startswith]. by rewrite decide_False. }
  destruct (bool_decide (dirpath = [])) eqn:Hd; cbn [orb].
  - apply bool_decide_eq_true in Hd as ->. cbn [app starts]. lia.
  - destruct (endswith [sep] dirpath) eqn:He.
    + destruct (endswith_sep_inv _ He) as [a' ->].
      rewrite <- app_assoc. cbn [app]. rewrite starts_app_sep, starts_snoc_sep. lia.
    + rewrite starts_app_sep. lia.
Qed.

End Depth.

(** X2, on [/home/.shadow] and the name [u]. *)
Lemma get_dir_depth_join_witness :
  get_dir_depth Sample.consts (posixpath.join (py "/home/.shadow") (py "u")) false =
  (get_dir_depth Sample.consts (py "/home/.shadow") false + 1)%Z.
Proof.
  apply (get_dir_depth_join Sample.consts (py "/home/.shadow") (py "u")).
  - discriminate.
  - repeat constructor; discriminate.
Defined.

(** ** Outcomes of [set_vertex_props] *)

Section DeriverOutcomes.

Variable C : Consts.
Variable E : Extern.
Variable fs : FileSystem.

Lemma set_vertex_props_outcome vertex filename slice_path g :
  let fn := posixpath.abspath (getcwd fs) filename in
  set_vertex_props C E fs vertex filename slice_path g =
  match lstat fs fn with
  | None => Raises OSError g
  | Some st =>
      match utf8_encode fn with
      | None => Raises UnicodeEncodeError g
      | Some encoded =>
          let id := sha256_hexdigest E encoded in
          let mt := separate_mode_type C (st_mode st) in
          let sfn := sliced C slice_path fn in
          let g2 := {| vertices := alter (fun p => store_names C st fn id (link_parent g vertex p))
                                     vertex (vertices g);
                       edges := edges g;
                       gp_has_encrypted_files := gp_has_encrypted_files g |} in
          match TYPE_TO_NAME C !! mt.2 with
          | None => Raises KeyError g2
          | Some name =>
              Returns id
                {| vertices :=
                     alter (fun p => store_metadata C E st mt.1 mt.2 name sfn
                                       (get_dir_depth C sfn false)
                                       (store_names C st fn id (link_parent g vertex p)))
                           vertex (vertices g);
                   edges := edges g;
                   gp_has_encrypted_files :=
                     gp_has_encrypted_files g
                     || (bool_decide (vertex < num_vertices g) && ENC_PAT_search C sfn) |}
          end
      end
  end.
Proof.
  intros fn. unfold set_vertex_props. fold fn.
  destruct (lstat fs fn) as [st|]; [|reflexivity].
  destruct (utf8_encode fn) as [encoded|]; [|reflexivity].
  cbv [or_raise mbind M_bind mret M_ret get]. cbn zeta.
  destruct (separate_mode_type C (st_mode st)) as [m t] eqn:Hmt. cbn [fst snd].
  assert (Henc : forall F b,
            vp_encrypted (vprops
              {| vertices := alter (store_metadata C E st m t F (sliced C slice_path fn)
                                      (get_dir_depth C (sliced C slice_path fn) false)
                                    ∘ b) vertex (vertices g);
                 edges := edges g;
                 gp_has_encrypted_files := gp_has_encrypted_files g |} vertex)
            = bool_decide (vertex < num_vertices g) && ENC_PAT_search C (sliced C slice_path fn)).
  { intros F b. unfold vprops, num_vertices. cbn [vertices].
    rewrite list_lookup_total_alt, list_lookup_alter_eq.
    case_bool_decide as Hlt.
    - destruct (lookup_lt_is_Some_2 (vertices g) vertex Hlt) as [p ->]. reflexivity.
    - rewrite (lookup_ge_None_2 (vertices g) vertex) by lia. reflexivity. }
  unfold link_parent.
  destruct (in_neighbours g vertex) as [|parent_ver ?];
    cbv [set_props modify raise]; cbn [vertices edges gp_has_encrypted_files];
    rewrite ?list_alter_alter_eq;
    (destruct (TYPE_TO_NAME C !! t) as [name|]; [|reflexivity]);
    cbn [vertices edges gp_has_encrypted_files]; rewrite ?list_alter_alter_eq;
    rewrite Henc;
    (destruct (bool_decide (vertex < num_vertices g) && ENC_PAT_search C (sliced C slice_path fn));
     cbv [set_has_encrypted_files modify]; cbn [vertices edges gp_has_encrypted_files];
     [by rewrite orb_true_r | by rewrite orb_false_r]).
Qed.


(** X4: what [set_vertex_props] never touches, whether it returns or raises:
    the edges, the number of vertices, the record of every other vertex and
    the [keeper] attribute of its own vertex; and it never clears
    [has_encrypted_files]. *)
Theorem set_vertex_props_frame vertex filename slice_path g :
  let g' := final_state (set_vertex_props C E fs vertex filename slice_path g) in
  edges g' = edges g /\
  num_vertices g' = num_vertices g /\
  (forall u, u <> vertex -> vertices g' !! u = vertices g !! u) /\
  vp_keeper (vprops g' vertex) = vp_keeper (vprops g vertex) /\
  (gp_has_encrypted_files g = true -> gp_has_encrypted_files g' = true).
Proof.
  cbn zeta. rewrite set_vertex_props_outcome. cbn zeta.
  assert (Hkeep : forall (F : VProps -> VProps),
            (forall p, vp_keeper (F p) = vp_keeper p) ->
            vp_keeper (alter F vertex (vertices g) !!! vertex) = vp_keeper (vertices g !!! vertex)).
  { intros F HF. rewrite !list_lookup_total_alt, list_lookup_alter_eq.
    destruct (vertices g !! vertex); cbn; [apply HF | reflexivity]. }
  assert (Hlink : forall p, vp_keeper (link_parent g vertex p) = vp_keeper p)
    by (intros p; unfold link_parent; by destruct (in_neighbours g vertex)).
  destruct (lstat fs _) as [st|]; [|done].
  destruct (utf8_encode _) as [encoded|]; [|done].
  destruct (TYPE_TO_NAME C !! _) as [name|];
    unfold num_vertices, vprops; cbn [final_state vertices edges gp_has_encrypted_files];
    rewrite length_alter;
    (split_and!; [done | done | by intros u Hu; apply list_lookup_alter_ne
                 | apply Hkeep; intros p; cbn; apply Hlink | ]).
  - by intros ->.
  - done.
Qed.

(** X5: a second call changes nothing. When [set_vertex_props] has returned
    for a vertex that is not its own first in-neighbour, calling it again for
    the same vertex and file returns the same identifier and leaves the graph
    as the first call left it. *)
Theorem set_vertex_props_idempotent vertex filename slice_path g id g' :
  head (in_neighbours g vertex) <> Some vertex ->
  set_vertex_props C E fs vertex filename slice_path g = Returns id g' ->
  set_vertex_props C E fs vertex filename slice_path g' = Returns id g'.
Proof.
  intros Hself. rewrite !set_vertex_props_outcome. cbn zeta.
  destruct (lstat fs _) as [st|]; [|done].
  destruct (utf8_encode _) as [encoded|]; [|done].
  destruct (TYPE_TO_NAME C !! _) as [name|]; [|done].
  intros H. injection H as <- <-.
  unfold num_vertices. cbn [vertices edges gp_has_encrypted_files].
  rewrite length_alter. f_equal. f_equal.
  - rewrite list_alter_alter_eq. apply list_alter_ext; [|reflexivity].
    intros p _. unfold link_parent, in_neighbours, vprops. cbn [edges vertices compose].
    fold (in_neighbours g vertex).
    destruct (in_neighbours g vertex) as [|parent_ver ?]; [reflexivity|].
    rewrite list_lookup_total_alter_ne by (intros ->; by apply Hself).
    reflexivity.
  - by destruct (gp_has_encrypted_files g), (bool_decide _ && _).
Qed.

End DeriverOutcomes.

Section DeriverRuns.

Import Sample MoreSamples.


(** X4, on a call that raises for a missing file. *)
Lemma set_vertex_props_frame_witness :
  vertices (final_state (set_vertex_props consts extern fs_run 3 (py "/run/none") false g_root))
    !! 0 = vertices g_root !! 0.
Proof.
  destruct (set_vertex_props_frame consts extern fs_run 3 (py "/run/none") false g_root)
    as (_ & _ & Hother & _).
  apply Hother. discriminate.
Defined.

(** X5, on [/root/a], vertex 1 of the tree under [/root]. *)
Lemma set_vertex_props_idempotent_witness :
  set_vertex_props consts extern fs 1 (py "/root/a") false g_root =
  Returns (py "/root/a") g_root.
Proof.
  apply (set_vertex_props_idempotent consts extern fs 1 (py "/root/a") false g_root).
  - vm_compute. discriminate.
  - vm_compute. reflexivity.
Defined.

End DeriverRuns.

(** ** Loops, in every outcome *)

Lemma final_state_bind {S A B} (m : M S A) (k : A -> M S B) s :
  final_state ((m ≫= k) s) =
  match m s with
  | Returns a s1 => final_state (k a s1)
  | Raises _ s1 => s1
  end.
Proof. unfold mbind, M_bind. by destruct (m s). Qed.

(** A relation between states that every round of a loop respects, whatever
    its outcome, holds between the start and the end of the loop. *)
Lemma for_each_final_state {S X} (R : S -> S -> Prop) (l : list X) (body : X -> M S unit) :
  (forall s, R s s) ->
  (forall s1 s2 s3, R s1 s2 -> R s2 s3 -> R s1 s3) ->
  (forall x s, R s (final_state (body x s))) ->
  forall s, R s (final_state (for_each l body s)).
Proof.
  intros Hrefl Htrans Hbody. induction l as [|x l IH]; intros s; [apply Hrefl|].
  cbn [for_each]. rewrite final_state_bind.
  pose proof (Hbody x s) as Hx. destruct (body x s) as [[] s1|e s1]; cbn [final_state] in Hx.
  - eapply Htrans; [exact Hx | apply IH].
  - exact Hx.
Qed.

(** A property of the state after each round, indexed by the elements
    handled so far, holds of the whole list when the loop returns. *)
Lemma for_each_progress {S X} (P : list X -> S -> Prop) (l : list X) (body : X -> M S unit) :
  (forall handled x s1 s2,
     P handled s1 -> body x s1 = Returns tt s2 -> P (handled ++ [x]) s2) ->
  forall s s', P [] s -> for_each l body s = Returns tt s' -> P l s'.
Proof.
  revert P. induction l as [|x l IH]; intros P Hstep s s' H0 Hrun.
  - cbv [for_each mret M_ret] in Hrun. by simplify_eq.
  - cbn [for_each] in Hrun. apply bind_Returns in Hrun as ([] & s1 & H1 & H2).
    apply (IH (fun handled => P (x :: handled))) with (s := s1); [| |exact H2].
    + intros handled y t1 t2 Ht Hy. apply (Hstep (x :: handled) y t1 t2 Ht Hy).
    + apply (Hstep [] x s s1 H0 H1).
Qed.

Lemma extends_refl g : extends g g.
Proof. unfold extends. done. Qed.

Lemma extends_trans g1 g2 g3 : extends g1 g2 -> extends g2 g3 -> extends g1 g3.
Proof.
  unfold extends. intros (Hv1 & He1 & Hf1) (Hv2 & He2 & Hf2).
  split_and!; [by etrans | by etrans | auto].
Qed.

Section WalkerExtends.

Variable C : Consts.
Variable E : Extern.
Variable fs : FileSystem.

(** Adding a vertex, perhaps an edge to it, and setting its properties
    extends the graph, wherever that stops. *)
Lemma new_vertex_extends g es filename slice_path :
  extends g
    (final_state
       (set_vertex_props C E fs (num_vertices g) filename slice_path
          {| vertices := vertices g ++ [new_vertex_props];
             edges := edges g ++ es;
             gp_has_encrypted_files := gp_has_encrypted_files g |})).
Proof.
  rewrite set_vertex_props_outcome. cbn zeta.
  assert (Halter : forall F, vertices g `prefix_of`
            alter F (num_vertices g) (vertices g ++ [new_vertex_props])).
  { intros F. unfold num_vertices.
    rewrite <- (Nat.add_0_r (length (vertices g))), alter_app_r. by apply prefix_app_r. }
  destruct (lstat fs _) as [st|]; [destruct (utf8_encode _) as [encoded|];
    [destruct (TYPE_TO_NAME C !! _) as [name|]|]|];
    unfold extends; cbn [final_state vertices edges gp_has_encrypted_files];
    (split_and!; [try apply Halter; by apply prefix_app_r | by apply prefix_app_r
                 | try (by intros ->); done]).
Qed.

Lemma add_child_extends slice_path dirpath dir_id f w :
  extends (digr w) (digr (final_state (add_child C E fs slice_path dirpath dir_id f w))).
Proof.
  unfold add_child. rewrite final_state_bind.
  cbv [on_digr add_vertex]. rewrite final_state_bind. cbv [get].
  rewrite final_state_bind. cbn [id_to_vertex].
  destruct (id_to_vertex w !! dir_id) as [parent|]; cbv [or_raise mret M_ret raise].
  - rewrite final_state_bind. cbv [add_edge modify]. cbn [digr id_to_vertex ttl_objects vertices edges gp_has_encrypted_files].
    rewrite final_state_bind.
    pose proof (new_vertex_extends (digr w) [(parent, num_vertices (digr w))]
                  (posixpath.join dirpath f) slice_path) as Hext.
    destruct (set_vertex_props _ _ _ _ _ _ _) as [vid g'|e g']; cbn [final_state] in *.
    + rewrite final_state_bind. cbv [remember modify count_object]. cbn [final_state digr]. exact Hext.
    + exact Hext.
  - cbn [digr]. unfold extends. cbn [vertices edges gp_has_encrypted_files].
    split_and!; [by apply prefix_app_r | done | done].
Qed.

Lemma walk_step_extends slice_path entry w :
  extends (digr w) (digr (final_state (walk_step C E fs slice_path entry w))).
Proof.
  destruct entry as [[dirpath dirnames] filenames]. unfold walk_step.
  rewrite final_state_bind.
  destruct (utf8_encode _) as [encoded|]; cbv [or_raise mret M_ret raise]; [|apply extends_refl].
  apply (for_each_final_state (fun w w' => extends (digr w) (digr w'))).
  - intros s. apply extends_refl.
  - intros s1 s2 s3. apply extends_trans.
  - intros x s. apply add_child_extends.
Qed.

Lemma populate_from_extends slice_path top_dir w :
  extends (digr w) (digr (final_state (populate_from C E fs slice_path top_dir w))).
Proof.
  unfold populate_from. rewrite final_state_bind. cbv [on_digr add_vertex].
  rewrite final_state_bind.
  pose proof (new_vertex_extends (digr w) [] top_dir slice_path) as Hext.
  rewrite app_nil_r in Hext.
  destruct (set_vertex_props _ _ _ _ _ _ _) as [vid g'|e g']; cbn [final_state] in *;
    [|exact Hext].
  rewrite final_state_bind. cbv [modify]. cbn [digr].
  eapply extends_trans; [exact Hext|].
  apply (for_each_final_state (fun w w' => extends (digr w) (digr w'))
           (walk fs top_dir) (walk_step C E fs slice_path)
           (fun s => extends_refl _)
           (fun s1 s2 s3 => extends_trans _ _ _)
           (fun x s => walk_step_extends slice_path x s)
           {| digr := g'; id_to_vertex := {[vid := num_vertices (digr w)]}; ttl_objects := 1 |}).
Qed.

(** X8: whatever its outcome, [make_graph_from_dir] only extends the graph
    it is given: the vertices and edges that graph had are kept as they
    were and [has_encrypted_files] is not cleared, also when the walk ends
    in an exception half-way. When [top_dir] is no directory the graph is
    not touched at all. *)
Theorem make_graph_from_dir_extends top_dir g_in :
  extends g_in (final_state (make_graph_from_dir C E fs top_dir (PyDblingGraph g_in))) /\
  (isdir fs top_dir = false ->
   make_graph_from_dir C E fs top_dir (PyDblingGraph g_in) = Raises AssertionError g_in).
Proof.
  unfold make_graph_from_dir. cbn [choose_graph].
  destruct (isdir fs top_dir); cbn [negb].
  - split; [|done].
    pose proof (populate_from_extends true top_dir
                  {| digr := g_in; id_to_vertex := ∅; ttl_objects := 0 |}) as Hext.
    cbn [digr] in Hext.
    by destruct (populate_from _ _ _ _ _ _) as [[] w'|e w'].
  - split; [apply extends_refl | done].
Qed.

End WalkerExtends.

(** X8, on a path that is no directory. *)
Lemma make_graph_from_dir_extends_witness :
  make_graph_from_dir Sample.consts Sample.extern MoreSamples.fs_run (py "/nowhere")
    (PyDblingGraph Sample.g_root) = Raises AssertionError Sample.g_root.
Proof.
  apply (make_graph_from_dir_extends Sample.consts Sample.extern MoreSamples.fs_run
           (py "/nowhere") Sample.g_root).
  vm_compute. reflexivity.
Defined.

(** A walk that ends in [KeyError] on the FIFO [/run/pipe] has added three
    vertices after the six of the graph it was given. *)
Example walk_raises_half_way :
  exists g,
    make_graph_from_dir Sample.consts Sample.extern MoreSamples.fs_run (py "/run")
      (PyDblingGraph Sample.g_root) = Raises KeyError g /\
    take 6 (vertices g) = vertices Sample.g_root /\
    num_vertices g = 9.
Proof. eexists. vm_compute. split_and!; reflexivity. Qed.

(** ** The graph a walk builds *)

Lemma listed_snoc entries (entry : pystr * list pystr * list pystr) :
  listed (entries ++ [entry]) =
  listed entries ++ map (fun f => (entry.1.1, f)) (entry.1.2 ++ entry.2).
Proof. unfold listed. rewrite flat_map_app. cbn [flat_map]. by rewrite app_nil_r. Qed.

Section WalkerGraph.

Variable C : Consts.
Variable E : Extern.
Variable fs : FileSystem.

(** [set_vertex_props] on the vertex that was just added, in full. *)
Lemma set_vertex_props_new vs es b filename slice_path id g' :
  let g1 := {| vertices := vs ++ [new_vertex_props]; edges := es;
               gp_has_encrypted_files := b |} in
  set_vertex_props C E fs (length vs) filename slice_path g1 = Returns id g' ->
  exists rec,
    vertices g' = vs ++ [rec] /\
    edges g' = es /\
    vp_filename rec = posixpath.abspath (getcwd fs) filename /\
    vp_filename_id rec = id /\
    describes C E fs rec.
Proof.
  intros g1 H. apply set_vertex_props_Returns in H as (st & encoded & name & H).
  cbn zeta in H. destruct H as (Hst & Henc & -> & Hname & He & Hv & _).
  eexists. split; [|split; [exact He|]].
  - rewrite Hv. subst g1. cbn [vertices].
    rewrite <- (Nat.add_0_r (length vs)) at 1. rewrite alter_app_r. reflexivity.
  - cbn [alter list_alter]. split; [reflexivity|]. split; [reflexivity|].
    exists st, encoded, name.
    cbn [store_metadata store_names vp_filename vp_inode vp_filename_id vp_filename_end
         vp_filename_b_len vp_name_type vp_type vp_mode vp_size vp_filesize vp_uid vp_gid
         vp_nlink vp_mtime vp_ctime vp_atime vp_eval vp_keeper].
    split_and!; try done.
    by destruct (in_neighbours _ _).
Qed.

Local Abbreviation vertices_after := (vertices_after C E fs).

Lemma add_child_vertices_after g0 top_dir slice_path dirpath dir_id f handled w w' :
  vertices_after g0 top_dir handled w ->
  add_child C E fs slice_path dirpath dir_id f w = Returns tt w' ->
  vertices_after g0 top_dir (handled ++ [(dirpath, f)]) w'.
Proof.
  intros (news & Hvs & Hnames & Hdesc) Hc.
  apply add_child_Returns in Hc as (parent & vid & _ & Hset & _).
  apply set_vertex_props_new in Hset as (rec & Hvs' & _ & Hfn & _ & Hrec).
  exists (news ++ [rec]). split_and!.
  - by rewrite Hvs', Hvs, app_assoc.
  - rewrite !map_app, Hnames. cbn [map app]. by rewrite Hfn.
  - apply Forall_app. split; [done | by constructor].
Qed.

Lemma populate_from_vertices slice_path top_dir g0 w' :
  populate_from C E fs slice_path top_dir
    {| digr := g0; id_to_vertex := ∅; ttl_objects := 0 |} = Returns tt w' ->
  vertices_after g0 top_dir (listed (walk fs top_dir)) w'.
Proof.
  unfold populate_from. intros H.
  apply bind_Returns in H as (dir_v & w1 & Hadd & H).
  apply on_digr_Returns in Hadd as (g1 & Hadd & ->).
  cbv [add_vertex] in Hadd. simplify_eq.
  apply bind_Returns in H as (_id & w2 & Hset & H).
  apply on_digr_Returns in Hset as (g2 & Hset & ->).
  cbn [digr id_to_vertex ttl_objects] in *.
  apply bind_Returns in H as ([] & w3 & Hmod & H).
  cbv [modify] in Hmod. simplify_eq. cbn [digr] in *.
  apply set_vertex_props_new in Hset as (rec & Hvs' & _ & Hfn & _ & Hrec).
  revert H.
  apply (for_each_progress (fun entries w => vertices_after g0 top_dir (listed entries) w)).
  - intros entries [[dirpath dirnames] filenames] s1 s2 Hs Hstep.
    rewrite listed_snoc. cbn [fst snd].
    unfold walk_step in Hstep.
    apply bind_Returns in Hstep as (encoded & ? & Henc & Hstep).
    apply or_raise_Returns in Henc as [_ ->].
    revert Hstep.
    apply (for_each_progress
             (fun names w => vertices_after g0 top_dir
                               (listed entries ++ map (fun f => (dirpath, f)) names) w)).
    + intros names f t1 t2 Ht Hc. rewrite map_app, app_assoc. cbn [map].
      eapply add_child_vertices_after; [exact Ht | exact Hc].
    + cbn [map]. by rewrite app_nil_r.
  - exists [rec]. cbn [digr listed flat_map map]. split_and!; [done | by rewrite Hfn | by constructor].
Qed.


Lemma hangs_under_grow root g g' e df :
  vertices g `prefix_of` vertices g' ->
  hangs_under E fs root g e df -> hangs_under E fs root g' e df.
Proof.
  intros [k Hk] ((H1 & H2) & H3 & encoded & Henc & Hid). unfold hangs_under, num_vertices, vprops in *.
  rewrite Hk, length_app. split_and!; try lia.
  exists encoded. split; [done|]. rewrite lookup_total_app_l by lia. done.
Qed.

Lemma add_child_edges_after g0 slice_path dirpath encoded f handled w w' :
  utf8_encode (posixpath.abspath (getcwd fs) dirpath) = Some encoded ->
  edges_after E fs g0 handled w ->
  add_child C E fs slice_path dirpath (sha256_hexdigest E encoded) f w = Returns tt w' ->
  edges_after E fs g0 (handled ++ [(dirpath, f)]) w'.
Proof.
  intros Henc (Hn & Hdict & new_edges & Hes & Htargets & Hall) Hc.
  apply add_child_Returns in Hc as (parent & vid & Hparent & Hset & Hdict').
  apply set_vertex_props_new in Hset as (rec & Hvs' & Hes' & _ & Hvid & _).
  destruct (Hdict _ _ Hparent) as [Hp Hpid].
  assert (Hpre : vertices (digr w) `prefix_of` vertices (digr w')) by (rewrite Hvs'; by apply prefix_app_r).
  assert (Hn' : num_vertices (digr w') = S (num_vertices (digr w)))
    by (unfold num_vertices; rewrite Hvs', length_app; cbn [length]; lia).
  assert (Hold : forall v, v < num_vertices (digr w) -> vprops (digr w') v = vprops (digr w) v).
  { intros v Hv. unfold vprops. rewrite Hvs'. by apply lookup_total_app_l. }
  split_and!.
  - rewrite Hn', Hn, length_app. cbn [length]. lia.
  - intros k v Hk. rewrite Hdict' in Hk. rewrite Hn'.
    apply lookup_insert_Some in Hk as [[<- <-] | [_ Hk]].
    + split; [lia|]. unfold vprops. rewrite Hvs'. unfold num_vertices.
      rewrite list_lookup_total_middle by done. exact Hvid.
    + destruct (Hdict _ _ Hk) as [Hv Hvk]. split; [lia|]. by rewrite Hold by lia.
  - exists (new_edges ++ [(parent, num_vertices (digr w))]). split_and!.
    + by rewrite Hes', Hes, app_assoc.
    + rewrite map_app, Htargets, length_app, seq_app. cbn [map snd length seq].
      do 2 f_equal. lia.
    + apply Forall2_app.
      * eapply Forall2_impl; [exact Hall|]. intros e df. by apply hangs_under_grow.
      * constructor; [|constructor]. unfold hangs_under. cbn [fst snd].
        rewrite Hn'. split_and!; try lia.
        exists encoded. split; [exact Henc|]. by rewrite Hold by lia.
Qed.

Lemma populate_from_edges slice_path top_dir g0 w' :
  populate_from C E fs slice_path top_dir
    {| digr := g0; id_to_vertex := ∅; ttl_objects := 0 |} = Returns tt w' ->
  edges_after E fs g0 (listed (walk fs top_dir)) w'.
Proof.
  unfold populate_from. intros H.
  apply bind_Returns in H as (dir_v & w1 & Hadd & H).
  apply on_digr_Returns in Hadd as (g1 & Hadd & ->).
  cbv [add_vertex] in Hadd. simplify_eq.
  apply bind_Returns in H as (_id & w2 & Hset & H).
  apply on_digr_Returns in Hset as (g2 & Hset & ->).
  cbn [digr id_to_vertex ttl_objects] in *.
  apply bind_Returns in H as ([] & w3 & Hmod & H).
  cbv [modify] in Hmod. simplify_eq. cbn [digr] in *.
  apply set_vertex_props_new in Hset as (rec & Hvs' & Hes' & _ & Hvid & _).
  revert H.
  apply (for_each_progress (fun entries w => edges_after E fs g0 (listed entries) w)).
  - intros entries [[dirpath dirnames] filenames] s1 s2 Hs Hstep.
    rewrite listed_snoc. cbn [fst snd].
    unfold walk_step in Hstep.
    apply bind_Returns in Hstep as (encoded & ? & Henc & Hstep).
    apply or_raise_Returns in Henc as [Henc ->].
    revert Hstep.
    apply (for_each_progress
             (fun names w => edges_after E fs g0
                               (listed entries ++ map (fun f => (dirpath, f)) names) w)).
    + intros names f t1 t2 Ht Hc. rewrite map_app, app_assoc. cbn [map].
      eapply add_child_edges_after; [exact Henc | exact Ht | exact Hc].
    + cbn [map]. by rewrite app_nil_r.
  - assert (Hn1 : num_vertices g2 = S (num_vertices g0))
      by (unfold num_vertices; rewrite Hvs', length_app; cbn [length]; lia).
    unfold edges_after. cbn [digr id_to_vertex listed flat_map length].
    rewrite Hn1. split_and!.
    + lia.
    + intros k v Hk. apply lookup_singleton_Some in Hk as [<- <-].
      split; [lia|].
      unfold vprops, num_vertices. rewrite Hvs', list_lookup_total_middle by done. exact Hvid.
    + exists []. rewrite app_nil_r. split_and!; [done | done | constructor].
Qed.

(** X7: one edge for every object the walk lists, added after the edges of
    the graph the walk started from, in the order of the walk. The edge of
    the [i]-th listed object ends at the [i]-th vertex after the top
    directory's; it starts at an earlier vertex of the walk, whose
    [filename_id] is the digest of the path of the directory in which the
    object was listed. *)
Theorem make_graph_from_dir_edges top_dir digr_in g s :
  make_graph_from_dir C E fs top_dir digr_in = Returns g s ->
  let root := num_vertices (choose_graph digr_in).1 in
  exists new_edges,
    edges g = edges (choose_graph digr_in).1 ++ new_edges /\
    map snd new_edges = seq (S root) (length (listed (walk fs top_dir))) /\
    Forall2 (hangs_under E fs root g) new_edges (listed (walk fs top_dir)).
Proof.
  intros Hrun.
  apply make_graph_from_dir_Returns in Hrun as (_ & _ & w' & Hrun & <-).
  apply populate_from_edges in Hrun as (_ & _ & Hedges).
  exact Hedges.
Qed.

End WalkerGraph.

Section WalkerGraphRuns.

Import Sample.


(** X7, on the tree under [/root2], walked onto the graph of [/root]: one
    new edge, from vertex 6 to vertex 7. *)
Lemma make_graph_from_dir_edges_witness :
  exists new_edges,
    edges g_forest = edges g_root ++ new_edges /\
    map snd new_edges = [7] /\
    Forall2 (hangs_under extern fs 6 g_forest) new_edges [(py "/root2", py "file3")].
Proof.
  destruct (make_graph_from_dir_edges consts extern fs (py "/root2") (PyDblingGraph g_root)
              g_forest g_forest g_forest_built) as (new_edges & Hes & Htargets & Hall).
  exists new_edges. split; [exact Hes|]. split; [exact Htargets | exact Hall].
Defined.

End WalkerGraphRuns.

(** ** The component the search collects *)

Lemma adjacent_all_neighbours (g : DblingGraph) (u v : nat) :
  v ∈ all_neighbours g u <-> adjacent g u v.
Proof.
  unfold all_neighbours, out_neighbours, in_neighbours, adjacent.
  rewrite elem_of_app, !list_elem_of_In, !in_map_iff.
  setoid_rewrite <- list_elem_of_In. setoid_rewrite list_elem_of_filter.
  split.
  - intros [([a b] & <- & Ha & He) | ([a b] & <- & Hb & He)]; cbn in *; subst; auto.
  - intros [He | He]; [left; exists (u, v) | right; exists (v, u)]; done.
Qed.

Lemma adjacent_valid (g : DblingGraph) (u v : nat) :
  valid_edges g -> adjacent g u v -> u < num_vertices g /\ v < num_vertices g.
Proof. intros Hvalid [He | He]; destruct (Hvalid _ He); cbn in *; lia. Qed.

Lemma discovered_le (st : bfs_state) : discovered st <= length (visited st).
Proof. unfold discovered. apply length_filter. Qed.

Lemma discovered_insert (vis : list bool) v :
  vis !! v = Some false ->
  length (filter (fun b : bool => b = true) (<[v := true]> vis)) =
  S (length (filter (fun b : bool => b = true) vis)).
Proof.
  revert v. induction vis as [|b vis IH]; intros v Hv; [done|].
  destruct v as [|v]; cbn in Hv.
  - simplify_eq. cbn [insert list_insert]. rewrite filter_cons_True by done.
    by rewrite filter_cons_False by done.
  - cbn [insert list_insert]. destruct b.
    + rewrite !filter_cons_True by done. cbn [length]. f_equal. by apply IH.
    + rewrite !filter_cons_False by done. by apply IH.
Qed.

Lemma wrap_int32_small (z : Z) : (0 <= z < 2 ^ 31)%Z -> wrap_int32 z = z.
Proof. intros Hz. unfold wrap_int32. rewrite Z.mod_small; lia. Qed.

Section Search.

Variable g : DblingGraph.
Variable source : nat.
Hypothesis edges_valid : valid_edges g.
Hypothesis size_fits : (Z.of_nat (num_vertices g) <= MAX_DIST)%Z.

Lemma bfs_sound_start :
  source < num_vertices g -> bfs_sound g source None (bfs_start g source).
Proof.
  intros Hsrc. unfold bfs_sound, bfs_start, discovered. cbn [dist visited queue].
  rewrite !length_insert, !length_replicate.
  assert (Hrep : replicate (num_vertices g) false !! source = Some false)
    by (by apply lookup_replicate_2).
  assert (Hvis : forall v, <[source := true]> (replicate (num_vertices g) false) !! v = Some true ->
                           v = source).
  { intros v Hv. destruct (decide (v = source)) as [|Hne]; [done|].
    rewrite list_lookup_insert_ne in Hv by done.
    apply lookup_replicate in Hv as [? _]. done. }
  split_and!; try done.
  - apply list_lookup_insert_eq. by rewrite length_replicate.
  - intros v ->%Hvis. apply rtc_refl.
  - intros v ->%Hvis. rewrite discovered_insert by done.
    rewrite list_lookup_total_insert_eq by (by rewrite length_replicate). lia.
  - intros v Hv. destruct (decide (v = source)) as [->|Hne].
    + rewrite list_lookup_insert_eq in Hv by (by rewrite length_replicate). done.
    + rewrite list_lookup_insert_ne in Hv by done. rewrite list_lookup_insert_ne by done.
      apply lookup_replicate in Hv as [_ Hlt]. by apply lookup_replicate_2.
  - intros v ->%list_elem_of_singleton. apply list_lookup_insert_eq. by rewrite length_replicate.
  - intros u v ->%Hvis Hq. exfalso. apply Hq. by apply list_elem_of_singleton.
Qed.

(** Discovering a neighbour [v] of the vertex [u] that is being expanded. *)
Lemma discover_sound u st v :
  bfs_sound g source (Some u) st ->
  visited st !! u = Some true ->
  adjacent g u v ->
  forall du, (0 <= du < Z.of_nat (discovered st))%Z ->
  bfs_sound g source (Some u) (discover du st v) /\
  visited (discover du st v) !! v = Some true /\
  (forall x, visited st !! x = Some true -> visited (discover du st v) !! x = Some true) /\
  discovered st <= discovered (discover du st v).
Proof.
  intros (Hd & Hv & Hs & Hconn & Hdist & Hmax & Hq & Hclosed) Hu Hadj du Hdu.
  destruct (adjacent_valid g u v edges_valid Hadj) as [_ Hvn].
  unfold discover.
  destruct (visited st !! v) as [[]|] eqn:Hvis.
  - split_and!; done.
  - assert (Hcount : discovered {| dist := <[v:=wrap_int32 (du + 1)]> (dist st);
                                   visited := <[v:=true]> (visited st);
                                   queue := queue st ++ [v] |} = S (discovered st))
      by (unfold discovered; cbn [visited]; by apply discovered_insert).
    assert (Hgrow : forall x, visited st !! x = Some true ->
                              <[v:=true]> (visited st) !! x = Some true).
    { intros x Hx. destruct (decide (x = v)) as [->|Hne]; [congruence|].
      by rewrite list_lookup_insert_ne. }
    assert (Hnew : <[v:=true]> (visited st) !! v = Some true)
      by (apply list_lookup_insert_eq; lia).
    assert (Hback : forall x, <[v:=true]> (visited st) !! x = Some true ->
                              x = v \/ visited st !! x = Some true).
    { intros x Hx. destruct (decide (x = v)) as [->|Hne]; [by left|].
      rewrite list_lookup_insert_ne in Hx by done. by right. }
    pose proof (discovered_le st) as Hle.
    assert (Hwrap : wrap_int32 (du + 1) = (du + 1)%Z).
    { apply wrap_int32_small. unfold MAX_DIST in size_fits. lia. }
    split_and!; [|exact Hnew|exact Hgrow|lia].
    unfold bfs_sound. rewrite Hcount. cbn [dist visited queue].
    rewrite !length_insert. split_and!; try done.
    + by apply Hgrow.
    + intros x [->|Hx]%Hback; [|by apply Hconn].
      eapply rtc_r; [apply Hconn; exact Hu | exact Hadj].
    + intros x [->|Hx]%Hback.
      * rewrite list_lookup_total_insert_eq by lia. rewrite Hwrap. lia.
      * assert (x <> v) by congruence.
        rewrite list_lookup_total_insert_ne by done. specialize (Hdist x Hx). lia.
    + intros x Hx. destruct (decide (x = v)) as [->|Hne].
      * rewrite Hnew in Hx. done.
      * rewrite list_lookup_insert_ne in Hx by done. rewrite list_lookup_insert_ne by done.
        by apply Hmax.
    + intros x [Hx | ->%list_elem_of_singleton]%elem_of_app; [by apply Hgrow, Hq | exact Hnew].
    + intros x y [->|Hx]%Hback Hxq Hbusy Hxy.
      * exfalso. apply Hxq. apply elem_of_app. right. by apply list_elem_of_singleton.
      * apply Hgrow. apply (Hclosed x y Hx); [|done|done].
        intros Hin. apply Hxq. apply elem_of_app. by left.
  - apply lookup_ge_None in Hvis. lia.
Qed.

Lemma discover_all_sound u du vs : forall st,
  bfs_sound g source (Some u) st ->
  visited st !! u = Some true ->
  (forall v, v ∈ vs -> adjacent g u v) ->
  (0 <= du < Z.of_nat (discovered st))%Z ->
  bfs_sound g source (Some u) (fold_left (discover du) vs st) /\
  (forall v, v ∈ vs -> visited (fold_left (discover du) vs st) !! v = Some true) /\
  (forall x, visited st !! x = Some true ->
             visited (fold_left (discover du) vs st) !! x = Some true).
Proof.
  induction vs as [|v vs IH]; intros st Hst Hu Hadj Hdu.
  - cbn [fold_left]. split_and!; [done | by intros v ?%elem_of_nil | done].
  - cbn [fold_left].
    destruct (discover_sound u st v Hst Hu (Hadj v (list_elem_of_here _ _)) du Hdu)
      as (Hst1 & Hv1 & Hgrow1 & Hcount1).
    destruct (IH (discover du st v) Hst1 (Hgrow1 u Hu)
                (fun x Hx => Hadj x (list_elem_of_further _ _ _ Hx)) ltac:(lia))
      as (Hst2 & Hvs2 & Hgrow2).
    split_and!; [done | | by intros x Hx; apply Hgrow2, Hgrow1].
    intros x [->|Hx]%elem_of_cons; [by apply Hgrow2 | by apply Hvs2].
Qed.

Lemma bfs_loop_sound fuel : forall st,
  bfs_sound g source None st -> bfs_sound g source None (bfs_loop fuel g st).
Proof.
  induction fuel as [|fuel IH]; intros st Hst; [exact Hst|].
  cbn [bfs_loop]. destruct (queue st) as [|u q] eqn:Hqueue; [exact Hst|].
  apply IH.
  destruct Hst as (Hd & Hv & Hs & Hconn & Hdist & Hmax & Hq & Hclosed).
  assert (Hu : visited st !! u = Some true) by (apply Hq; rewrite Hqueue; by left).
  set (st0 := {| dist := dist st; visited := visited st; queue := q |}).
  assert (Hst0 : bfs_sound g source (Some u) st0).
  { unfold bfs_sound, discovered. subst st0. cbn [dist visited queue].
    split_and!; try done.
    - intros v Hvq. apply Hq. rewrite Hqueue. by right.
    - intros x y Hx Hxq Hbusy Hxy. apply (Hclosed x y Hx); [|done|done].
      rewrite Hqueue. intros [->|Hin]%elem_of_cons; [by apply Hbusy | by apply Hxq]. }
  destruct (discover_all_sound u (dist st !!! u) (all_neighbours g u) st0 Hst0 Hu
              (fun v Hv => proj1 (adjacent_all_neighbours g u v) Hv) (Hdist u Hu))
    as (Hst1 & Hnb & Hgrow).
  destruct Hst1 as (Hd1 & Hv1 & Hs1 & Hconn1 & Hdist1 & Hmax1 & Hq1 & Hclosed1).
  unfold bfs_sound. split_and!; try done.
  intros x y Hx Hxq _ Hxy. destruct (decide (x = u)) as [->|Hne].
  - apply Hnb. by apply adjacent_all_neighbours.
  - apply (Hclosed1 x y Hx Hxq); [congruence | done].
Qed.

(** What the finished search has marked. *)
Lemma shortest_distance_reaches :
  source < num_vertices g ->
  forall i, i < num_vertices g ->
    ((shortest_distance g source !!! i < MAX_DIST)%Z <-> connected g source i).
Proof.
  intros Hsrc i Hi. unfold shortest_distance.
  pose proof (bfs_loop_sound (num_vertices g) _ (bfs_sound_start Hsrc)) as Hst.
  pose proof (bfs_loop_completes g source Hsrc) as Hq.
  set (st := bfs_loop (num_vertices g) g (bfs_start g source)) in *.
  destruct Hst as (Hd & Hv & Hs & Hconn & Hdist & Hmax & _ & Hclosed).
  assert (Hall : forall v, connected g source v -> visited st !! v = Some true).
  { apply (rtc_ind_r (fun v => visited st !! v = Some true) source); [exact Hs|].
    intros a b _ Hab IH.
    apply (Hclosed a b IH); [rewrite Hq; by intros ?%elem_of_nil | done | done]. }
  destruct (lookup_lt_is_Some_2 (visited st) i ltac:(lia)) as [[] Hvi].
  - split; [intros _; by apply Hconn|]. intros _.
    pose proof (Hdist i Hvi). pose proof (discovered_le st). lia.
  - split.
    + intros Hlt. rewrite (list_lookup_total_correct _ _ _ (Hmax i Hvi)) in Hlt. lia.
    + intros Hc. rewrite (Hall i Hc) in Hvi. done.
Qed.

End Search.

(** The vertices collected are those connected to vertex 0. *)
Lemma get_subtree_vertices_reach (g : DblingGraph) :
  valid_edges g ->
  0 < num_vertices g ->
  (Z.of_nat (num_vertices g) <= MAX_DIST)%Z ->
  exists sg_vertices,
    get_subtree_vertices g = Done sg_vertices /\
    (forall i, i ∈ sg_vertices <-> i < num_vertices g /\ connected g 0 i).
Proof.
  intros Hvalid Hn Hfits.
  destruct (shortest_distance_source g 0 Hn) as [_ Hlen].
  unfold get_subtree_vertices. rewrite bool_decide_eq_false_2 by lia.
  eexists. split; [reflexivity|]. rewrite Hlen.
  intros i. rewrite list_elem_of_filter, elem_of_seq, bool_decide_spec.
  split.
  - intros [Hlt Hi]. split; [lia|].
    apply (shortest_distance_reaches g 0 Hvalid Hfits Hn i); [lia | done].
  - intros [Hi Hc]. split; [|lia].
    by apply (shortest_distance_reaches g 0 Hvalid Hfits Hn i).
Qed.

(** X9: the vertices [get_subtree_vertices] collects are the weakly
    connected component of vertex 0, in increasing order: on a graph whose
    edges join existing vertices and whose size fits the [int32_t] distance
    map, a vertex is collected exactly when it can be reached from vertex 0
    along edges taken in either direction. *)
Theorem get_subtree_vertices_component (g : DblingGraph) :
  valid_edges g ->
  0 < num_vertices g ->
  (Z.of_nat (num_vertices g) <= MAX_DIST)%Z ->
  exists sg_vertices,
    get_subtree_vertices g = Done sg_vertices /\
    (forall i, i ∈ sg_vertices <-> i < num_vertices g /\ connected g 0 i) /\
    sg_vertices `sublist_of` seq 0 (num_vertices g).
Proof.
  intros Hvalid Hn Hfits.
  destruct (get_subtree_vertices_reach g Hvalid Hn Hfits) as (sg_vertices & Hrun & Hmem).
  exists sg_vertices. split_and!; [done | done |].
  unfold get_subtree_vertices in Hrun.
  rewrite bool_decide_eq_false_2 in Hrun by lia. injection Hrun as <-.
  destruct (shortest_distance_source g 0 Hn) as [_ ->]. apply sublist_filter.
Qed.

(** ** Renumbering after a removal *)

Lemma renumber_S (keep : nat -> bool) (v : nat) :
  renumber keep (S v) = renumber keep v + (if keep v then 1 else 0).
Proof.
  unfold renumber. rewrite seq_S, filter_app, length_app. cbn [Nat.add].
  rewrite filter_cons, filter_nil. by destruct (keep v).
Qed.

Lemma renumber_mono (keep : nat -> bool) (a b : nat) :
  a <= b -> renumber keep a <= renumber keep b.
Proof.
  induction 1 as [|b _ IH]; [done|]. rewrite renumber_S. lia.
Qed.

Lemma renumber_lt (keep : nat -> bool) (a b : nat) :
  keep a = true -> a < b -> renumber keep a < renumber keep b.
Proof.
  intros Ha Hab. pose proof (renumber_mono keep (S a) b Hab) as Hle.
  rewrite renumber_S, Ha in Hle. lia.
Qed.

Lemma renumber_inj (keep : nat -> bool) (a b : nat) :
  keep a = true -> keep b = true -> renumber keep a = renumber keep b -> a = b.
Proof.
  intros Ha Hb Heq. destruct (Nat.lt_trichotomy a b) as [Hlt|[->|Hlt]]; [|done|].
  - pose proof (renumber_lt keep a b Ha Hlt). lia.
  - pose proof (renumber_lt keep b a Hb Hlt). lia.
Qed.

Lemma renumber_surj (keep : nat -> bool) (n j : nat) :
  j < renumber keep n -> exists a, a < n /\ keep a = true /\ renumber keep a = j.
Proof.
  induction n as [|n IH]; [cbn; lia|]. rewrite renumber_S. intros Hj.
  destruct (decide (j < renumber keep n)) as [Hlt|Hge].
  - destruct (IH Hlt) as (a & Ha & Hk & Hr). exists a. split; [lia | done].
  - destruct (keep n) eqn:Hn; [|lia]. exists n. split; [lia|]. split; [done | lia].
Qed.

Lemma renumber_ext (k1 k2 : nat -> bool) (v : nat) :
  (forall i, i < v -> k1 i = k2 i) -> renumber k1 v = renumber k2 v.
Proof.
  induction v as [|v IH]; intros Hk; [done|].
  rewrite !renumber_S, IH by (intros i Hi; apply Hk; lia). rewrite (Hk v) by lia. done.
Qed.

Lemma renumber_shift (keep : nat -> bool) (n : nat) :
  renumber keep (S n) = (if keep 0 then 1 else 0) + renumber (fun i => keep (S i)) n.
Proof.
  induction n as [|n IH].
  - rewrite renumber_S. cbn. lia.
  - rewrite renumber_S, IH, (renumber_S (fun i => keep (S i))). lia.
Qed.

Lemma length_keep_at {A} (keep : nat -> bool) (l : list A) :
  length (keep_at keep l) = renumber keep (length l).
Proof.
  revert keep. induction l as [|x l IH]; intros keep; [done|].
  rewrite keep_at_cons, length_app, IH. cbn [length]. rewrite renumber_shift.
  by destruct (keep 0).
Qed.

Lemma keep_at_all {A} (keep : nat -> bool) (l : list A) :
  (forall i, i < length l -> keep i = true) -> keep_at keep l = l.
Proof.
  revert keep. induction l as [|x l IH]; intros keep Hk; [done|].
  rewrite keep_at_cons, (Hk 0) by (cbn; lia). cbn [app]. f_equal.
  apply IH. intros i Hi. apply Hk. cbn. lia.
Qed.

Lemma keep_at_none {A} (keep : nat -> bool) (l : list A) :
  (forall i, i < length l -> keep i = false) -> keep_at keep l = [].
Proof.
  revert keep. induction l as [|x l IH]; intros keep Hk; [done|].
  rewrite keep_at_cons, (Hk 0) by (cbn; lia). cbn [app].
  apply IH. intros i Hi. apply Hk. cbn. lia.
Qed.

Lemma renumber_all (keep : nat -> bool) (v : nat) :
  (forall i, i < v -> keep i = true) -> renumber keep v = v.
Proof.
  induction v as [|v IH]; intros Hk; [done|].
  rewrite renumber_S, IH by (intros; apply Hk; lia). rewrite (Hk v) by lia. lia.
Qed.

Lemma keep_at_sublist {A} (keep : nat -> bool) (l : list A) : keep_at keep l `sublist_of` l.
Proof.
  revert keep. induction l as [|x l IH]; intros keep; [done|].
  rewrite keep_at_cons. destruct (keep 0); cbn [app].
  - by apply sublist_skip.
  - by apply sublist_cons.
Qed.

(** ** Removing a set of vertices that no edge leaves *)

Section Removal.

Variable g : DblingGraph.
Variable rm_list : list nat.
Hypothesis edges_valid : valid_edges g.

Local Abbreviation keep := (kept rm_list).
Local Abbreviation g' := (remove_vertex g rm_list).

Lemma num_vertices_remove_vertex : num_vertices g' = renumber keep (num_vertices g).
Proof. unfold num_vertices. cbn [remove_vertex vertices]. apply length_keep_at. Qed.

Lemma remove_vertex_valid : valid_edges g'.
Proof.
  intros e He. cbn [remove_vertex edges] in He.
  apply list_elem_of_In, in_map_iff in He as ([a b] & <- & Hin).
  apply list_elem_of_In, list_elem_of_filter in Hin as [Hk Hin].
  apply andb_prop_elim in Hk as [Ha Hb]. cbn [fst snd] in *.
  destruct (edges_valid _ Hin) as [Han Hbn]. cbn [fst snd] in *.
  rewrite num_vertices_remove_vertex.
  split; apply renumber_lt; try done; by apply Is_true_eq_true.
Qed.

Lemma remove_vertex_adjacent a b :
  keep a = true -> keep b = true -> adjacent g a b ->
  adjacent g' (renumber keep a) (renumber keep b).
Proof.
  intros Ha Hb [He | He]; [left | right]; cbn [remove_vertex edges];
    apply list_elem_of_In, in_map_iff.
  - exists (a, b). split; [done|]. apply list_elem_of_In, list_elem_of_filter.
    cbn [fst snd]. rewrite Ha, Hb. done.
  - exists (b, a). split; [done|]. apply list_elem_of_In, list_elem_of_filter.
    cbn [fst snd]. rewrite Ha, Hb. done.
Qed.

(** When no edge joins a kept vertex and a removed one, connected kept
    vertices stay connected. *)
Lemma remove_vertex_connected a b :
  (forall x y, adjacent g x y -> keep x = true -> keep y = true) ->
  keep a = true -> connected g a b ->
  keep b = true /\ connected g' (renumber keep a) (renumber keep b).
Proof.
  intros Hclosed Ha.
  apply (rtc_ind_r (fun b => keep b = true /\ connected g' (renumber keep a) (renumber keep b)) a).
  - split; [done | apply rtc_refl].
  - intros x y _ Hxy [Hx IH]. pose proof (Hclosed x y Hxy Hx) as Hy.
    split; [done|]. eapply rtc_r; [exact IH|]. by apply remove_vertex_adjacent.
Qed.

End Removal.

(** ** Candidates are components *)

Lemma filter_split_length {A} (P Q : A -> bool) (l : list A) :
  (forall x, x ∈ l -> Q x = negb (P x)) ->
  length (filter (fun x => P x) l) + length (filter (fun x => Q x) l) = length l.
Proof.
  induction l as [|x l IH]; intros HPQ; [done|].
  pose proof (HPQ x (list_elem_of_here _ _)) as Hx.
  specialize (IH (fun y Hy => HPQ y (list_elem_of_further _ _ _ Hy))).
  destruct (P x) eqn:HP; cbn [negb] in Hx.
  - rewrite (filter_cons_True (fun x => P x)) by (rewrite HP; cbn; tauto).
    rewrite (filter_cons_False (fun x => Q x)) by (rewrite Hx; cbn; tauto).
    cbn [length]. lia.
  - rewrite (filter_cons_False (fun x => P x)) by (rewrite HP; cbn; tauto).
    rewrite (filter_cons_True (fun x => Q x)) by (rewrite Hx; cbn; tauto).
    cbn [length]. lia.
Qed.

Lemma filter_all {A} (P : A -> Prop) `{forall x, Decision (P x)} (l : list A) :
  (forall x, x ∈ l -> P x) -> filter P l = l.
Proof.
  induction l as [|x l IH]; intros Hl; [reflexivity|].
  rewrite filter_cons_True by (apply Hl; by left). f_equal.
  apply IH. intros y Hy. apply Hl. by right.
Qed.

Lemma connected_sym (g : DblingGraph) (a b : nat) : connected g a b -> connected g b a.
Proof.
  induction 1 as [|a b c Hab _ IH]; [apply rtc_refl|].
  eapply rtc_r; [exact IH|]. destruct Hab; [by right | by left].
Qed.

Lemma remove_vertex_nothing (g : DblingGraph) (rm_list : list nat) :
  valid_edges g ->
  (forall i, i < num_vertices g -> i ∉ rm_list) ->
  remove_vertex g rm_list = g.
Proof.
  intros Hvalid Hnone.
  assert (Hk : forall i, i < num_vertices g -> kept rm_list i = true)
    by (intros i Hi; apply bool_decide_eq_true_2; by apply Hnone).
  destruct g as [vs es b]. unfold remove_vertex. cbn [vertices edges gp_has_encrypted_files] in *.
  f_equal.
  - by apply keep_at_all.
  - transitivity (map (fun e : nat * nat => e) es); [|apply map_id].
    rewrite filter_all
      by (intros [a b'] He; destruct (Hvalid _ He); cbn [fst snd] in *; by rewrite !Hk).
    apply map_ext_in. intros [a b'] He%list_elem_of_In.
    destruct (Hvalid _ He). cbn [fst snd] in *.
    rewrite !renumber_all; [done | |]; intros i Hi; apply Hk; unfold num_vertices in *; cbn in *; lia.
Qed.

Lemma remove_vertex_everything (g : DblingGraph) (rm_list : list nat) :
  valid_edges g ->
  (forall i, i < num_vertices g -> i ∈ rm_list) ->
  remove_vertex g rm_list = drained g.
Proof.
  intros Hvalid Hall.
  assert (Hk : forall i, i < num_vertices g -> kept rm_list i = false).
  { intros i Hi. apply bool_decide_eq_false_2. intros Hni. by apply Hni, Hall. }
  unfold remove_vertex, drained. f_equal.
  - by apply keep_at_none.
  - rewrite filter_none; [done|]. intros [a b'] He.
    destruct (Hvalid _ He). cbn [fst snd] in *. rewrite Hk by done. cbn. tauto.
Qed.

Section OneRound.

Variable orig_graph : DblingGraph.
Hypothesis edges_valid : valid_edges orig_graph.
Hypothesis not_empty : 0 < num_vertices orig_graph.
Hypothesis size_fits : fits_int32 orig_graph.

(** One round of the loop on a well-formed graph: the candidate appended is
    the component of vertex 0, and what remains is well-formed again. *)
Lemma extract_step_component (candidates : list DblingGraph) :
  exists orig_graph' sub_graph,
    extract_step orig_graph candidates = Done (orig_graph', candidates ++ [sub_graph]) /\
    valid_edges orig_graph' /\
    num_vertices orig_graph' < num_vertices orig_graph /\
    component_graph sub_graph /\
    length (edges sub_graph) + length (edges orig_graph') = length (edges orig_graph) /\
    vertices sub_graph `sublist_of` vertices orig_graph /\
    vertices orig_graph' `sublist_of` vertices orig_graph /\
    gp_has_encrypted_files orig_graph' = gp_has_encrypted_files orig_graph /\
    (weakly_connected orig_graph ->
     sub_graph = orig_graph /\ orig_graph' = drained orig_graph).
Proof.
  destruct (get_subtree_vertices_reach orig_graph edges_valid not_empty size_fits)
    as (sg & Hsg & Hmem).
  set (n := num_vertices orig_graph) in *.
  set (rm1 := filter (fun v => bool_decide (v ∈ sg)) (vertex_indices orig_graph)).
  set (rm2 := filter (fun v => bool_decide (v ∉ sg)) (vertex_indices orig_graph)).
  assert (Hk1 : forall i, i < n -> kept rm1 i = negb (bool_decide (i ∈ sg))).
  { intros i Hi. unfold kept, rm1, vertex_indices. rewrite <- bool_decide_not.
    apply bool_decide_ext. rewrite list_elem_of_filter, elem_of_seq, bool_decide_spec.
    split; [|tauto]. intros Hni Hin. apply Hni. split; [done | lia]. }
  assert (Hk2 : forall i, i < n -> kept rm2 i = bool_decide (i ∈ sg)).
  { intros i Hi. unfold kept, rm2, vertex_indices.
    apply bool_decide_ext. rewrite list_elem_of_filter, elem_of_seq, bool_decide_spec.
    split.
    - intros Hni. destruct (decide (i ∈ sg)) as [|Hno]; [done|]. exfalso. apply Hni.
      split; [done | lia].
    - intros Hin [Hno _]. by apply Hno. }
  assert (Hadj : forall x y, adjacent orig_graph x y -> x ∈ sg -> y ∈ sg).
  { intros x y Hxy Hx. destruct (adjacent_valid _ _ _ edges_valid Hxy) as [_ Hy].
    apply Hmem. split; [done|]. eapply rtc_r; [apply Hmem; exact Hx | exact Hxy]. }
  assert (Hadj' : forall x y, adjacent orig_graph x y -> (x ∈ sg <-> y ∈ sg)).
  { intros x y Hxy. split; [by apply Hadj|]. apply Hadj. destruct Hxy; [by right | by left]. }
  assert (H0 : 0 ∈ sg) by (apply Hmem; split; [done | apply rtc_refl]).
  assert (Hstep : extract_step orig_graph candidates =
                  Done (remove_vertex orig_graph rm1,
                        if bool_decide (num_vertices (remove_vertex orig_graph rm2) ≠ 0)
                        then candidates ++ [remove_vertex orig_graph rm2] else candidates)).
  { unfold extract_step, copy. rewrite Hsg. reflexivity. }
  assert (Hsubn : 0 < num_vertices (remove_vertex orig_graph rm2)).
  { rewrite num_vertices_remove_vertex.
    apply Nat.le_lt_trans with (renumber (kept rm2) 0); [lia|].
    apply renumber_lt; [|done]. rewrite Hk2 by done. by apply bool_decide_eq_true_2. }
  rewrite bool_decide_eq_true_2 in Hstep by lia.
  exists (remove_vertex orig_graph rm1), (remove_vertex orig_graph rm2).
  split; [exact Hstep|].
  split; [by apply remove_vertex_valid|].
  split.
  { destruct (extract_step_decreases orig_graph candidates not_empty) as (g1 & c1 & Hs1 & Hlt).
    rewrite Hstep in Hs1. by simplify_eq. }
  split.
  { split; [by apply remove_vertex_valid|]. split; [exact Hsubn|].
    intros j Hj. rewrite num_vertices_remove_vertex in Hj.
    destruct (renumber_surj _ _ _ Hj) as (a & Ha & Hka & <-).
    rewrite Hk2 in Hka by done. apply bool_decide_eq_true in Hka.
    destruct (remove_vertex_connected orig_graph rm2 0 a) as [_ Hc].
    - intros x y Hxy Hx. destruct (adjacent_valid _ _ _ edges_valid Hxy) as [Hxn Hyn].
      rewrite Hk2 in * by done. apply bool_decide_eq_true_2.
      apply bool_decide_eq_true in Hx. by apply (Hadj x y).
    - rewrite Hk2 by done. by apply bool_decide_eq_true_2.
    - by apply Hmem.
    - exact Hc. }
  split.
  { cbn [remove_vertex edges]. rewrite !length_map.
    apply (filter_split_length
             (fun e : nat * nat => kept rm2 e.1 && kept rm2 e.2)
             (fun e : nat * nat => kept rm1 e.1 && kept rm1 e.2)).
    intros [a b] He. destruct (edges_valid _ He) as [Ha Hb]. cbn [fst snd] in *.
    rewrite !Hk1, !Hk2 by done.
    assert (Hab : bool_decide (a ∈ sg) = bool_decide (b ∈ sg))
      by (apply bool_decide_ext, Hadj'; by left).
    rewrite Hab. by destruct (bool_decide (b ∈ sg)). }
  split; [apply keep_at_sublist|]. split; [apply keep_at_sublist|]. split; [done|].
  intros Hconn. split.
  - apply remove_vertex_nothing; [done|]. intros i Hi.
    unfold rm2. rewrite list_elem_of_filter, bool_decide_spec. intros [Hno _].
    apply Hno, Hmem. split; [done | by apply Hconn].
  - apply remove_vertex_everything; [done|]. intros i Hi.
    unfold rm1, vertex_indices. rewrite list_elem_of_filter, bool_decide_spec, elem_of_seq.
    split; [|lia]. apply Hmem. split; [done | by apply Hconn].
Qed.

End OneRound.

Lemma drained_empty (g : DblingGraph) :
  valid_edges g -> num_vertices g = 0 -> g = drained g.
Proof.
  intros Hvalid Hn. destruct g as [vs es b]. unfold drained, num_vertices in *.
  cbn [vertices edges gp_has_encrypted_files] in *.
  destruct vs; [|done]. destruct es as [|e es]; [done|].
  destruct (Hvalid e (list_elem_of_here _ _)). cbn in *. lia.
Qed.

(** The loop on a well-formed graph: it appends components and drains the
    graph. *)
Lemma extract_loop_components (fuel : nat) : forall orig_graph candidates,
  valid_edges orig_graph ->
  fits_int32 orig_graph ->
  num_vertices orig_graph <= fuel ->
  exists cs,
    extract_loop fuel orig_graph candidates = Done (candidates ++ cs, drained orig_graph) /\
    Forall component_graph cs /\
    Forall (fun c => vertices c `sublist_of` vertices orig_graph) cs /\
    sum_list (map (fun c => length (edges c)) cs) = length (edges orig_graph).
Proof.
  induction fuel as [|fuel IH]; intros orig cands Hvalid Hfits Hfuel.
  - cbn [extract_loop]. rewrite bool_decide_eq_false_2 by lia.
    exists []. rewrite app_nil_r, <- drained_empty by (done || lia).
    split_and!; try done. cbn.
    destruct (edges orig) as [|e es] eqn:He; [done|].
    destruct (Hvalid e) as [? _]; [rewrite He; by left | lia].
  - cbn [extract_loop]. case_bool_decide as Hn.
    + destruct (extract_step_component orig Hvalid Hn Hfits cands)
        as (g1 & sub & Hstep & Hvalid1 & Hlt & Hcomp & Hedges & Hsub & Hsub1 & Hflag & _).
      rewrite Hstep.
      destruct (IH g1 (cands ++ [sub]) Hvalid1) as (cs & Hrun & Hall & Hsubs & Hsum);
        [unfold fits_int32 in *; lia | lia |].
      exists (sub :: cs). rewrite Hrun, <- app_assoc. cbn [app].
      split_and!.
      * unfold drained. by rewrite Hflag.
      * by constructor.
      * constructor; [done|]. eapply Forall_impl; [exact Hsubs|].
        intros c Hc. by transitivity (vertices g1).
      * cbn [map sum_list_with id]. unfold id in *. lia.
    + exists []. rewrite app_nil_r, <- drained_empty by (done || lia).
      split_and!; try done. cbn.
      destruct (edges orig) as [|e es] eqn:He; [done|].
      destruct (Hvalid e) as [? _]; [rewrite He; by left | lia].
Qed.

Lemma sublist_fits (c g : DblingGraph) :
  vertices c `sublist_of` vertices g -> fits_int32 g -> fits_int32 c.
Proof.
  intros Hsub Hfits. apply sublist_length in Hsub. unfold fits_int32, num_vertices in *. lia.
Qed.

Lemma extract_candidates_of_connected (g : DblingGraph) :
  component_graph g -> fits_int32 g ->
  extract_candidates g = Done ([g], drained g).
Proof.
  intros (Hvalid & Hn & Hconn) Hfits.
  unfold extract_candidates, extract_candidates_within.
  destruct (num_vertices g) as [|fuel] eqn:Hnum; [lia|].
  cbn [extract_loop]. rewrite bool_decide_eq_true_2 by lia.
  destruct (extract_step_component g Hvalid ltac:(lia) Hfits [])
    as (g1 & sub & Hstep & _ & _ & _ & _ & _ & _ & _ & Hwhole).
  destruct (Hwhole Hconn) as [-> ->]. rewrite Hstep. cbn [app].
  destruct fuel; cbn [extract_loop]; by rewrite bool_decide_eq_false_2 by (cbn; lia).
Qed.

(** X10: on a graph whose edges join existing vertices and whose size fits
    the distance map, every candidate is a graph in its own right: its edges
    join its own vertices, it is not empty, all its vertices can be reached
    from its vertex 0 along edges taken in either direction, and its vertices
    are vertices of the input in their original order. The input is left
    without vertices and without edges. *)
Theorem extract_candidates_components (g : DblingGraph) candidates g' :
  valid_edges g ->
  fits_int32 g ->
  extract_candidates g = Done (candidates, g') ->
  g' = drained g /\
  Forall (fun c => component_graph c /\ vertices c `sublist_of` vertices g) candidates.
Proof.
  intros Hvalid Hfits Hrun.
  destruct (extract_loop_components (num_vertices g) g [] Hvalid Hfits (Nat.le_refl _))
    as (cs & Hrun' & Hall & Hsubs & _).
  unfold extract_candidates, extract_candidates_within in Hrun.
  rewrite Hrun' in Hrun. cbn [app] in Hrun. simplify_eq.
  split; [done|]. apply Forall_and. done.
Qed.

(** X11: no edge is lost and none joins two candidates: on such a graph the
    numbers of edges of the candidates add up to the number of edges of the
    input. *)
Theorem extract_candidates_edges (g : DblingGraph) candidates g' :
  valid_edges g ->
  fits_int32 g ->
  extract_candidates g = Done (candidates, g') ->
  sum_list (map (fun c => length (edges c)) candidates) = length (edges g).
Proof.
  intros Hvalid Hfits Hrun.
  destruct (extract_loop_components (num_vertices g) g [] Hvalid Hfits (Nat.le_refl _))
    as (cs & Hrun' & _ & _ & Hsum).
  unfold extract_candidates, extract_candidates_within in Hrun.
  rewrite Hrun' in Hrun. cbn [app] in Hrun. by simplify_eq.
Qed.

(** X12: a weakly connected graph is its own single candidate: on a
    non-empty graph whose edges join existing vertices, whose size fits the
    distance map and whose vertices can all be reached from vertex 0,
    [extract_candidates] returns the list holding that graph alone, equal
    to it vertex for vertex and edge for edge. *)
Theorem extract_candidates_connected (g : DblingGraph) :
  valid_edges g ->
  0 < num_vertices g ->
  fits_int32 g ->
  weakly_connected g ->
  extract_candidates g = Done ([g], drained g).
Proof.
  intros Hvalid Hn Hfits Hconn. apply extract_candidates_of_connected; [|done].
  by split_and!.
Qed.

(** X13: decomposing a candidate gives the candidate back: every graph that
    [extract_candidates] returns for such an input is returned unchanged,
    as the only candidate, when [extract_candidates] is run on it. *)
Theorem extract_candidates_stable (g : DblingGraph) candidates g' c :
  valid_edges g ->
  fits_int32 g ->
  extract_candidates g = Done (candidates, g') ->
  c ∈ candidates ->
  extract_candidates c = Done ([c], drained c).
Proof.
  intros Hvalid Hfits Hrun Hc.
  destruct (extract_loop_components (num_vertices g) g [] Hvalid Hfits (Nat.le_refl _))
    as (cs & Hrun' & Hall & Hsubs & _).
  unfold extract_candidates, extract_candidates_within in Hrun.
  rewrite Hrun' in Hrun. cbn [app] in Hrun. simplify_eq.
  rewrite Forall_forall in Hall, Hsubs.
  apply extract_candidates_of_connected; [by apply Hall|].
  eapply sublist_fits; [by apply Hsubs | done].
Qed.

(** ** The walker and the decomposer together *)

Lemma in_neighbours_elem (g : DblingGraph) (p v : nat) :
  p ∈ in_neighbours g v <-> (p, v) ∈ edges g.
Proof.
  unfold in_neighbours. rewrite list_elem_of_fmap. split.
  - intros ([a b] & -> & He). apply list_elem_of_filter in He as [Hb He].
    cbn in Hb. by subst.
  - intros He. exists (p, v). split; [done|]. by apply list_elem_of_filter.
Qed.

(** A graph linked as a tree from vertex 0 is weakly connected. *)
Lemma parent_linked_connected (g : DblingGraph) :
  parent_linked 0 g -> weakly_connected g.
Proof.
  intros (_ & _ & _ & Hlinks) j.
  induction j as [j IH] using lt_wf_ind. intros Hj.
  destruct (decide (j = 0)) as [->|Hne]; [apply rtc_refl|].
  destruct (Hlinks j ltac:(lia)) as (p & Hin & Hp & _).
  apply rtc_r with p; [apply IH; lia|].
  left. apply in_neighbours_elem. rewrite Hin. by left.
Qed.

Section WalkThenExtract.

Variable C : Consts.
Variable E : Extern.
Variable fs : FileSystem.

(** A walk into a fresh graph gives a well-formed, connected graph. *)
Lemma fresh_walk_component top_dir digr_in g s :
  (choose_graph digr_in).1 = DblingGraph_init ->
  make_graph_from_dir C E fs top_dir digr_in = Returns g s ->
  component_graph g.
Proof.
  intros Hfresh Hrun.
  apply make_graph_from_dir_Returns in Hrun as (_ & _ & w' & Hrun & <-).
  rewrite Hfresh in Hrun.
  pose proof (populate_from_parent_linked C E fs _ _ _ _ valid_edges_init Hrun)
    as [Hlinked _].
  apply populate_from_edges in Hrun as (_ & _ & new_edges & Hedges & _ & Hhang).
  cbn [DblingGraph_init edges app] in Hedges.
  split_and!.
  - intros e He. rewrite Hedges in He.
    apply list_elem_of_lookup in He as [i Hi].
    destruct (Forall2_lookup_l _ _ _ _ _ Hhang Hi) as (df & _ & (? & ? & _)). lia.
  - destruct Hlinked as [? _]. lia.
  - by apply parent_linked_connected.
Qed.

(** X14: the walker and the decomposer compose: when [make_graph_from_dir]
    has walked a directory into a fresh graph (no graph supplied, or an
    empty one), [extract_candidates] finds the whole graph as its one
    candidate, unchanged, and leaves the working graph empty. *)
Theorem fresh_walk_one_candidate top_dir digr_in g s :
  (choose_graph digr_in).1 = DblingGraph_init ->
  make_graph_from_dir C E fs top_dir digr_in = Returns g s ->
  fits_int32 g ->
  extract_candidates g = Done ([g], drained g).
Proof.
  intros Hfresh Hrun Hfits.
  apply extract_candidates_of_connected; [|done].
  by eapply fresh_walk_component.
Qed.

End WalkThenExtract.

(** Checks of the hypotheses on a given graph. *)
Lemma valid_edges_check (g : DblingGraph) :
  forallb (fun e : nat * nat => (e.1 <? num_vertices g) && (e.2 <? num_vertices g)) (edges g)
    = true ->
  valid_edges g.
Proof.
  intros Hcheck e He. rewrite forallb_forall in Hcheck.
  apply list_elem_of_In, Hcheck, andb_prop in He as [H1 H2].
  apply Nat.ltb_lt in H1, H2. done.
Defined.

Lemma weakly_connected_check (g : DblingGraph) :
  valid_edges g -> 0 < num_vertices g -> fits_int32 g ->
  get_subtree_vertices g = Done (seq 0 (num_vertices g)) ->
  weakly_connected g.
Proof.
  intros Hvalid Hn Hfits Hrun j Hj.
  destruct (get_subtree_vertices_reach g Hvalid Hn Hfits) as (sg & Hrun' & Hreach).
  rewrite Hrun in Hrun'. simplify_eq.
  apply Hreach, elem_of_seq. lia.
Defined.

Section DecomposerRuns.

Import Sample.

Lemma g_forest_valid : valid_edges g_forest.
Proof. apply valid_edges_check. vm_compute. reflexivity. Defined.

Lemma g_forest_fits : fits_int32 g_forest.
Proof. unfold fits_int32. vm_compute. discriminate. Defined.

Lemma g_root_valid : valid_edges g_root.
Proof. apply valid_edges_check. vm_compute. reflexivity. Defined.

Lemma g_root_fits : fits_int32 g_root.
Proof. unfold fits_int32. vm_compute. discriminate. Defined.

Lemma g_root_not_empty : 0 < num_vertices g_root.
Proof. vm_compute. lia. Defined.

(** X9, on the two trees of [g_forest]: the search from vertex 0 collects
    the six vertices of the first tree. *)
Lemma get_subtree_vertices_component_witness :
  exists sg_vertices,
    get_subtree_vertices g_forest = Done sg_vertices /\
    (forall i, i ∈ sg_vertices <-> i < num_vertices g_forest /\ connected g_forest 0 i) /\
    sg_vertices `sublist_of` seq 0 (num_vertices g_forest).
Proof.
  apply (get_subtree_vertices_component g_forest g_forest_valid).
  - vm_compute. lia.
  - exact g_forest_fits.
Defined.

(** X10, on [g_forest]: its two candidates are components. *)
Lemma extract_candidates_components_witness :
  drained g_forest = drained g_forest /\
  Forall (fun c => component_graph c /\ vertices c `sublist_of` vertices g_forest)
         (candidates_of g_forest).
Proof.
  apply (extract_candidates_components g_forest (candidates_of g_forest) (drained g_forest)
           g_forest_valid g_forest_fits).
  vm_compute. reflexivity.
Defined.

(** X11, on [g_forest]: four edges in the first tree, one in the second. *)
Lemma extract_candidates_edges_witness :
  sum_list (map (fun c => length (edges c)) (candidates_of g_forest)) = length (edges g_forest).
Proof.
  apply (extract_candidates_edges g_forest (candidates_of g_forest) (drained g_forest)
           g_forest_valid g_forest_fits).
  vm_compute. reflexivity.
Defined.

(** X12, on the tree under [/root]. *)
Lemma extract_candidates_connected_witness :
  extract_candidates g_root = Done ([g_root], drained g_root).
Proof.
  apply (extract_candidates_connected g_root g_root_valid g_root_not_empty g_root_fits).
  apply (weakly_connected_check g_root g_root_valid g_root_not_empty g_root_fits).
  vm_compute. reflexivity.
Defined.

(** X13, on the second candidate of [g_forest]. *)
Lemma extract_candidates_stable_witness :
  let c := default DblingGraph_init (candidates_of g_forest !! 1) in
  extract_candidates c = Done ([c], drained c).
Proof.
  apply (extract_candidates_stable g_forest (candidates_of g_forest) (drained g_forest) _
           g_forest_valid g_forest_fits).
  - vm_compute. reflexivity.
  - vm_compute. right. left.
Defined.

(** X14, on the walk of [/root] into a fresh graph. *)
Lemma fresh_walk_one_candidate_witness :
  extract_candidates g_root = Done ([g_root], drained g_root).
Proof.
  apply (fresh_walk_one_candidate consts extern fs (py "/root") PyNone g_root g_root).
  - reflexivity.
  - exact g_root_built.
  - exact g_root_fits.
Defined.

End DecomposerRuns.

(** ** Decomposing graphs that lie side by side *)

Lemma keep_at_app {A} (l1 l2 : list A) : forall keep : nat -> bool,
  keep_at keep (l1 ++ l2) =
  keep_at keep l1 ++ keep_at (fun i => keep (length l1 + i)) l2.
Proof.
  induction l1 as [|x l1 IH]; intros keep; [done|].
  cbn [app length]. rewrite !keep_at_cons, IH, <- app_assoc. done.
Qed.

Lemma renumber_add (keep : nat -> bool) (a k : nat) :
  renumber keep (a + k) = renumber keep a + renumber (fun i => keep (a + i)) k.
Proof.
  induction k as [|k IH]; [by rewrite Nat.add_0_r; unfold renumber; cbn; lia|].
  rewrite Nat.add_succ_r, !renumber_S, IH. lia.
Qed.

(** The edges left by a removal depend on [keep] only at the vertices. *)
Lemma kept_edges_ext (k1 k2 : nat -> bool) (n : nat) (es : list (nat * nat)) :
  (forall e, e ∈ es -> e.1 < n /\ e.2 < n) ->
  (forall i, i < n -> k1 i = k2 i) ->
  map (fun e : nat * nat => (renumber k1 e.1, renumber k1 e.2))
      (filter (fun e : nat * nat => k1 e.1 && k1 e.2) es) =
  map (fun e : nat * nat => (renumber k2 e.1, renumber k2 e.2))
      (filter (fun e : nat * nat => k2 e.1 && k2 e.2) es).
Proof.
  intros Hvalid Hk. induction es as [|e es IH]; [done|].
  destruct (Hvalid e ltac:(by left)) as [H1 H2].
  specialize (IH (fun x Hx => Hvalid x (list_elem_of_further _ _ _ Hx))).
  rewrite !filter_cons, <- !(Hk _ H1), <- !(Hk _ H2).
  destruct (decide _); [|done]. cbn [map]. rewrite IH. f_equal.
  f_equal; apply renumber_ext; intros; apply Hk; lia.
Qed.

(** Removal depends on the removal list only through its members among the
    vertices. *)
Lemma remove_vertex_ext (g : DblingGraph) (rm1 rm2 : list nat) :
  valid_edges g ->
  (forall i, i < num_vertices g -> kept rm1 i = kept rm2 i) ->
  remove_vertex g rm1 = remove_vertex g rm2.
Proof.
  intros Hvalid Hk. unfold remove_vertex. f_equal.
  - by apply keep_at_ext.
  - by apply kept_edges_ext with (num_vertices g).
Qed.

Lemma shifted_edges_kept (keep : nat -> bool) (n0 nt : nat) (es : list (nat * nat)) :
  (forall e, e ∈ es -> e.1 < nt /\ e.2 < nt) ->
  (forall i, i < nt -> keep (n0 + i) = true) ->
  map (fun e : nat * nat => (renumber keep e.1, renumber keep e.2))
      (filter (fun e : nat * nat => keep e.1 && keep e.2) (map (shift_edge n0) es)) =
  map (shift_edge (renumber keep n0)) es.
Proof.
  intros Hvalid Hk. induction es as [|e es IH]; [done|].
  destruct (Hvalid e ltac:(by left)) as [H1 H2].
  specialize (IH (fun x Hx => Hvalid x (list_elem_of_further _ _ _ Hx))).
  cbn [map].
  rewrite filter_cons_True
    by (unfold shift_edge; cbn [fst snd]; rewrite (Hk _ H1), (Hk _ H2); done).
  cbn [map]. rewrite IH.
  f_equal. unfold shift_edge. cbn [fst snd].
  rewrite !renumber_add.
  rewrite !(renumber_all (fun i => keep (n0 + i))) by (intros; apply Hk; lia).
  done.
Qed.

Lemma shifted_edges_dropped (keep : nat -> bool) (n0 nt : nat) (es : list (nat * nat)) :
  (forall e, e ∈ es -> e.1 < nt /\ e.2 < nt) ->
  (forall i, i < nt -> keep (n0 + i) = false) ->
  filter (fun e : nat * nat => keep e.1 && keep e.2) (map (shift_edge n0) es) = [].
Proof.
  intros Hvalid Hk. apply filter_none. intros e He.
  apply list_elem_of_fmap in He as (e0 & -> & He0).
  destruct (Hvalid e0 He0) as [H1 _]. unfold shift_edge. cbn [fst snd].
  rewrite (Hk _ H1). cbn. tauto.
Qed.

Section SideBySide.

Variable b : bool.
Variable t : DblingGraph.
Hypothesis t_valid : valid_edges t.

Local Abbreviation beside := (fun g0 => side_by_side b g0 t).

Lemma num_vertices_side_by_side g0 :
  num_vertices (beside g0) = num_vertices g0 + num_vertices t.
Proof. unfold num_vertices, side_by_side. cbn [vertices]. by rewrite length_app. Qed.

Lemma side_by_side_valid g0 : valid_edges g0 -> valid_edges (beside g0).
Proof.
  intros Hvalid e He. rewrite num_vertices_side_by_side.
  unfold side_by_side in He. cbn [edges] in He.
  apply elem_of_app in He as [He|He].
  - destruct (Hvalid e He). lia.
  - apply list_elem_of_fmap in He as (e0 & -> & He0).
    destruct (t_valid e0 He0). unfold shift_edge. cbn [fst snd]. lia.
Qed.

(** Removing vertices of the first graph only. *)
Lemma remove_vertex_first g0 rm rm0 :
  valid_edges g0 ->
  (forall i, i < num_vertices g0 -> kept rm i = kept rm0 i) ->
  (forall i, i < num_vertices t -> kept rm (num_vertices g0 + i) = true) ->
  remove_vertex (beside g0) rm = beside (remove_vertex g0 rm0).
Proof.
  intros Hvalid Hk Hkt.
  pose proof (num_vertices_remove_vertex g0 rm0) as Hn.
  unfold remove_vertex, side_by_side in *.
  cbn [vertices edges gp_has_encrypted_files]. f_equal.
  - rewrite keep_at_app. f_equal.
    + by apply keep_at_ext.
    + by apply keep_at_all.
  - rewrite filter_app, map_app. f_equal.
    + by apply kept_edges_ext with (num_vertices g0).
    + rewrite (shifted_edges_kept _ _ (num_vertices t)) by done.
      rewrite Hn. f_equal. f_equal. apply renumber_ext. intros i Hi. apply Hk. lia.
Qed.

(** Removing the rest of the first graph together with the second. *)
Lemma remove_vertex_second g0 rm rm0 :
  valid_edges g0 ->
  (forall i, i < num_vertices g0 -> kept rm i = kept rm0 i) ->
  (forall i, i < num_vertices t -> kept rm (num_vertices g0 + i) = false) ->
  remove_vertex (beside g0) rm = with_flag b (remove_vertex g0 rm0).
Proof.
  intros Hvalid Hk Hkt. unfold remove_vertex, with_flag, side_by_side.
  cbn [vertices edges gp_has_encrypted_files]. f_equal.
  - rewrite keep_at_app, (keep_at_none _ (vertices t)) by done.
    rewrite app_nil_r. by apply keep_at_ext.
  - rewrite filter_app, map_app.
    rewrite (shifted_edges_dropped _ _ (num_vertices t)) by done.
    cbn [map]. rewrite app_nil_r.
    by apply kept_edges_ext with (num_vertices g0).
Qed.

(** From a vertex of the first graph only the first graph is reached. *)
Lemma connected_first g0 i :
  valid_edges g0 -> 0 < num_vertices g0 ->
  connected (beside g0) 0 i <-> i < num_vertices g0 /\ connected g0 0 i.
Proof.
  intros Hvalid Hn. split.
  - revert i. apply (rtc_ind_r (fun v => v < num_vertices g0 /\ connected g0 0 v) 0).
    + split; [done | apply rtc_refl].
    + intros u v _ Huv [Hu Hc].
      assert (Hg0 : adjacent g0 u v).
      { destruct Huv as [He|He]; [left|right];
          unfold side_by_side in He; cbn [edges] in He;
          (apply elem_of_app in He as [He|He]; [done|]);
          apply list_elem_of_fmap in He as (e0 & Heq & _);
          unfold shift_edge in Heq; simplify_eq; lia. }
      split; [|by eapply rtc_r].
      destruct Hg0 as [He|He]; destruct (Hvalid _ He); cbn in *; lia.
  - intros [_ Hc]. eapply rtc_subrel; [|exact Hc].
    intros u v [He|He]; [left|right]; unfold side_by_side; cbn [edges];
      apply elem_of_app; by left.
Qed.

(** The search from vertex 0 collects the same vertices in both. *)
Lemma get_subtree_vertices_first g0 :
  valid_edges g0 -> 0 < num_vertices g0 -> fits_int32 (beside g0) ->
  exists sg0 sg,
    get_subtree_vertices g0 = Done sg0 /\
    get_subtree_vertices (beside g0) = Done sg /\
    (forall i, i ∈ sg <-> i ∈ sg0) /\
    (forall i, i ∈ sg0 <-> i < num_vertices g0 /\ connected g0 0 i).
Proof.
  intros Hvalid Hn Hfits.
  pose proof (num_vertices_side_by_side g0) as Hnum.
  destruct (get_subtree_vertices_reach g0 Hvalid Hn) as (sg0 & Hsg0 & Hmem0);
    [unfold fits_int32 in Hfits; lia|].
  destruct (get_subtree_vertices_reach (beside g0) (side_by_side_valid g0 Hvalid))
    as (sg & Hsg & Hmem); [lia | exact Hfits |].
  exists sg0, sg. split_and!; try done.
  intros i. rewrite Hmem, Hmem0, connected_first by done. intuition lia.
Qed.

(** One round on the two graphs side by side is one round on the first. *)
Lemma extract_step_first g0 :
  valid_edges g0 -> 0 < num_vertices g0 -> fits_int32 (beside g0) ->
  exists g0' sub0,
    (forall candidates, extract_step g0 candidates = Done (g0', candidates ++ [sub0])) /\
    (forall candidates,
       extract_step (beside g0) candidates =
       Done (beside g0', candidates ++ [with_flag b sub0])) /\
    valid_edges g0' /\
    num_vertices g0' < num_vertices g0 /\
    gp_has_encrypted_files g0' = gp_has_encrypted_files g0.
Proof.
  intros Hvalid Hn Hfits.
  pose proof (num_vertices_side_by_side g0) as Hnum.
  destruct (get_subtree_vertices_first g0 Hvalid Hn Hfits)
    as (sg0 & sg & Hsg0 & Hsg & Hsame & Hmem0).
  assert (H0 : 0 ∈ sg0) by (apply Hmem0; split; [done | apply rtc_refl]).
  set (rm1 := filter (fun v => bool_decide (v ∈ sg0)) (vertex_indices g0)).
  set (rm2 := filter (fun v => bool_decide (v ∉ sg0)) (vertex_indices g0)).
  set (rm1' := filter (fun v => bool_decide (v ∈ sg)) (vertex_indices (beside g0))).
  set (rm2' := filter (fun v => bool_decide (v ∉ sg)) (vertex_indices (beside g0))).
  assert (Hin1 : forall i, i ∈ rm1 <-> i < num_vertices g0 /\ i ∈ sg0).
  { intros i. unfold rm1, vertex_indices.
    rewrite list_elem_of_filter, elem_of_seq, bool_decide_spec. intuition lia. }
  assert (Hin2 : forall i, i ∈ rm2 <-> i < num_vertices g0 /\ i ∉ sg0).
  { intros i. unfold rm2, vertex_indices.
    rewrite list_elem_of_filter, elem_of_seq, bool_decide_spec. intuition lia. }
  assert (Hin1' : forall i, i ∈ rm1' <-> i < num_vertices g0 + num_vertices t /\ i ∈ sg0).
  { intros i. unfold rm1', vertex_indices.
    rewrite list_elem_of_filter, elem_of_seq, bool_decide_spec, Hnum, Hsame. intuition lia. }
  assert (Hin2' : forall i, i ∈ rm2' <-> i < num_vertices g0 + num_vertices t /\ i ∉ sg0).
  { intros i. unfold rm2', vertex_indices.
    rewrite list_elem_of_filter, elem_of_seq, bool_decide_spec, Hnum, Hsame. intuition lia. }
  assert (Hbeyond : forall j, num_vertices g0 + j ∉ sg0).
  { intros j Hj. apply Hmem0 in Hj as [? _]. lia. }
  assert (Hsub : num_vertices (remove_vertex g0 rm2) ≠ 0).
  { rewrite num_vertices_remove_vertex.
    destruct (num_vertices g0) as [|m] eqn:Hm; [lia|]. rewrite renumber_shift.
    replace (kept rm2 0) with true; [lia|]. symmetry. apply bool_decide_eq_true.
    rewrite Hin2. tauto. }
  exists (remove_vertex g0 rm1), (remove_vertex g0 rm2). split_and!.
  - intros candidates. unfold extract_step, copy. rewrite Hsg0. fold rm1 rm2.
    by rewrite bool_decide_eq_true_2.
  - intros candidates. unfold extract_step, copy. rewrite Hsg. fold rm1' rm2'.
    rewrite (remove_vertex_first g0 rm1' rm1), (remove_vertex_second g0 rm2' rm2); try done.
    + by rewrite bool_decide_eq_true_2.
    + intros i Hi. unfold kept. apply bool_decide_ext. rewrite Hin2, Hin2'.
      split; intros Hno [? ?]; apply Hno; (split; [lia | done]).
    + intros i Hi. unfold kept. apply bool_decide_eq_false. rewrite Hin2'.
      specialize (Hbeyond i). intros Hno. apply Hno. split; [lia | done].
    + intros i Hi. unfold kept. apply bool_decide_ext. rewrite Hin1, Hin1'.
      split; intros Hno [? ?]; apply Hno; (split; [lia | done]).
    + intros i Hi. unfold kept. apply bool_decide_eq_true. rewrite Hin1'.
      specialize (Hbeyond i). tauto.
  - by apply remove_vertex_valid.
  - destruct (extract_step_decreases g0 [] Hn) as (g1 & c1 & Hstep & Hlt).
    unfold extract_step, copy in Hstep. rewrite Hsg0 in Hstep.
    injection Hstep as Hg _. by rewrite <- Hg in Hlt.
  - done.
Qed.

Lemma extract_loop_S (fuel : nat) (g : DblingGraph) candidates :
  0 < num_vertices g ->
  extract_loop (S fuel) g candidates =
  match extract_step g candidates with
  | Done (g', candidates') => extract_loop fuel g' candidates'
  | Raised e => Raised e
  | OutOfFuel => OutOfFuel
  end.
Proof. intros Hn. cbn [extract_loop]. by rewrite bool_decide_eq_true_2. Qed.

Lemma side_by_side_empty g0 :
  valid_edges g0 -> num_vertices g0 = 0 -> beside g0 = with_flag b t.
Proof.
  intros Hvalid Hn. rewrite (drained_empty g0 Hvalid Hn).
  unfold side_by_side, with_flag, drained, num_vertices. cbn [vertices edges app length].
  f_equal. rewrite <- (map_id (edges t)) at 2. apply map_ext. by intros [a c].
Qed.

(** The loop on the two graphs side by side first takes the first graph
    apart, as it would on its own, and goes on with the second. *)
Lemma extract_loop_first (f : nat) : forall g0,
  valid_edges g0 -> num_vertices g0 <= f -> fits_int32 (beside g0) ->
  exists cs0,
    (forall candidates fuel, num_vertices g0 <= fuel ->
       extract_loop fuel g0 candidates = Done (candidates ++ cs0, drained g0)) /\
    (forall candidates fuel, num_vertices g0 + num_vertices t <= fuel ->
       extract_loop fuel (beside g0) candidates =
       extract_loop fuel (with_flag b t) (candidates ++ map (with_flag b) cs0)).
Proof.
  induction f as [|f IH]; intros g0 Hvalid Hf Hfits.
  - exists []. split; intros candidates fuel Hfuel.
    + rewrite app_nil_r, <- (drained_empty g0) by (done || lia).
      destruct fuel; cbn [extract_loop]; by rewrite bool_decide_eq_false_2 by lia.
    + cbn [map]. by rewrite app_nil_r, side_by_side_empty by (done || lia).
  - destruct (decide (num_vertices g0 = 0)) as [Hz|Hnz].
    { exists []. split; intros candidates fuel Hfuel.
      + rewrite app_nil_r, <- (drained_empty g0) by (done || lia).
        destruct fuel; cbn [extract_loop]; by rewrite bool_decide_eq_false_2 by lia.
      + cbn [map]. by rewrite app_nil_r, side_by_side_empty by (done || lia). }
    destruct (extract_step_first g0 Hvalid ltac:(lia) Hfits)
      as (g1 & sub0 & Hstep0 & Hstep & Hvalid1 & Hlt & Hflag).
    pose proof (num_vertices_side_by_side g0) as Hnum.
    pose proof (num_vertices_side_by_side g1) as Hnum1.
    destruct (IH g1 Hvalid1 ltac:(lia)) as (cs1 & Hown & Hboth);
      [unfold fits_int32 in *; lia|].
    exists (sub0 :: cs1). split; intros candidates fuel Hfuel.
    + destruct fuel as [|fuel]; [lia|]. cbn [extract_loop].
      rewrite bool_decide_eq_true_2 by lia. rewrite Hstep0, Hown by lia.
      rewrite <- app_assoc. cbn [app]. unfold drained. by rewrite Hflag.
    + destruct fuel as [|fuel]; [lia|].
      rewrite (extract_loop_more_fuel fuel (S fuel) (with_flag b t))
        by (change (num_vertices (with_flag b t)) with (num_vertices t); lia).
      rewrite extract_loop_S by lia. rewrite Hstep, Hboth by lia.
      rewrite <- app_assoc. done.
Qed.

End SideBySide.

(** The graph property takes no part in the search or in the removals. *)
Lemma bfs_loop_with_flag (b : bool) (g : DblingGraph) (fuel : nat) : forall st,
  bfs_loop fuel (with_flag b g) st = bfs_loop fuel g st.
Proof.
  induction fuel as [|fuel IH]; intros st; [done|].
  cbn [bfs_loop]. destruct (queue st); [done|]. apply IH.
Qed.

Lemma get_subtree_vertices_with_flag (b : bool) (g : DblingGraph) :
  get_subtree_vertices (with_flag b g) = get_subtree_vertices g.
Proof.
  unfold get_subtree_vertices, shortest_distance.
  change (num_vertices (with_flag b g)) with (num_vertices g).
  change (bfs_start (with_flag b g) 0) with (bfs_start g 0).
  by rewrite bfs_loop_with_flag.
Qed.

Lemma extract_step_with_flag (b : bool) (g : DblingGraph) candidates pre g1 candidates1 :
  extract_step g candidates = Done (g1, candidates1) ->
  extract_step (with_flag b g) (pre ++ map (with_flag b) candidates) =
  Done (with_flag b g1, pre ++ map (with_flag b) candidates1).
Proof.
  unfold extract_step, copy. rewrite get_subtree_vertices_with_flag.
  destruct (get_subtree_vertices g) as [sg| |]; [|done|done].
  change (vertex_indices (with_flag b g)) with (vertex_indices g).
  intros Hstep. injection Hstep as <- <-.
  set (rm1 := filter _ _). set (rm2 := filter _ _).
  change (remove_vertex (with_flag b g) rm1) with (with_flag b (remove_vertex g rm1)).
  change (remove_vertex (with_flag b g) rm2) with (with_flag b (remove_vertex g rm2)).
  change (num_vertices (with_flag b (remove_vertex g rm2)))
    with (num_vertices (remove_vertex g rm2)).
  case_bool_decide; [|done]. by rewrite map_app, app_assoc.
Qed.

Lemma extract_loop_with_flag (b : bool) (fuel : nat) : forall g candidates pre cs g',
  extract_loop fuel g candidates = Done (cs, g') ->
  extract_loop fuel (with_flag b g) (pre ++ map (with_flag b) candidates) =
  Done (pre ++ map (with_flag b) cs, with_flag b g').
Proof.
  induction fuel as [|fuel IH]; intros g candidates pre cs g'; cbn [extract_loop];
    change (num_vertices (with_flag b g)) with (num_vertices g);
    case_bool_decide; try done; try (by intros [= <- <-]).
  destruct (extract_step g candidates) as [[g1 c1]| |] eqn:Hstep; [|done|done].
  rewrite (extract_step_with_flag b g candidates pre g1 c1 Hstep). apply IH.
Qed.

(** The candidates of two graphs side by side. *)
Lemma extract_candidates_side_by_side (b : bool) (g0 t : DblingGraph) cs0 cst g0' t' :
  valid_edges g0 -> valid_edges t ->
  fits_int32 (side_by_side b g0 t) ->
  extract_candidates g0 = Done (cs0, g0') ->
  extract_candidates t = Done (cst, t') ->
  extract_candidates (side_by_side b g0 t) =
  Done (map (with_flag b) (cs0 ++ cst), drained (side_by_side b g0 t)).
Proof.
  intros Hvalid0 Hvalidt Hfits Hrun0 Hrunt.
  pose proof (num_vertices_side_by_side b t g0) as Hnum.
  destruct (extract_loop_first b t Hvalidt (num_vertices g0) g0 Hvalid0 (Nat.le_refl _) Hfits)
    as (cs & Hown & Hboth).
  unfold extract_candidates, extract_candidates_within in *.
  rewrite Hown in Hrun0 by done. cbn [app] in Hrun0. injection Hrun0 as <- <-.
  rewrite Hboth by lia. cbn [app].
  rewrite (extract_loop_more_fuel (num_vertices t)); [|done|lia].
  destruct (extract_loop_components (num_vertices t) t [] Hvalidt) as (cs' & Hrun' & _);
    [unfold fits_int32 in *; lia | done |].
  rewrite Hrunt in Hrun'. cbn [app] in Hrun'. injection Hrun' as <- ->.
  rewrite <- (app_nil_r (map (with_flag b) cs)).
  change [] with (map (with_flag b) []) at 1.
  rewrite (extract_loop_with_flag b _ t [] _ cst (drained t) Hrunt).
  by rewrite map_app.
Qed.

(** X15: decomposition distributes over disjoint union. When two graphs
    with valid edges are placed side by side, with no edge between them,
    [extract_candidates] returns the candidates of the first followed by
    the candidates of the second, each as it would be found in its own
    graph, vertex for vertex and edge for edge, and carrying the
    [has_encrypted_files] of the union. *)
Theorem extract_candidates_disjoint_union (g0 t : DblingGraph) cs0 cst g0' t' :
  valid_edges g0 -> valid_edges t ->
  fits_int32 (disjoint_union g0 t) ->
  extract_candidates g0 = Done (cs0, g0') ->
  extract_candidates t = Done (cst, t') ->
  extract_candidates (disjoint_union g0 t) =
  Done (map (with_flag (gp_has_encrypted_files g0 || gp_has_encrypted_files t)) (cs0 ++ cst),
        drained (disjoint_union g0 t)).
Proof.
  intros Hvalid0 Hvalidt Hfits Hrun0 Hrunt. unfold disjoint_union in *.
  by eapply extract_candidates_side_by_side.
Qed.

(** ** Walking a directory into a graph that holds other trees *)

Section WalkOnto.

Variable C : Consts.
Variable E : Extern.
Variable fs : FileSystem.

(** The graph a walk returns is the graph it started from with the tree of
    the walk beside it, and that tree is one component. *)
Lemma walk_side_by_side top_dir digr_in g s :
  let g0 := (choose_graph digr_in).1 in
  let t := walked_part (num_vertices g0) (length (edges g0)) g in
  valid_edges g0 ->
  make_graph_from_dir C E fs top_dir digr_in = Returns g s ->
  g = side_by_side (gp_has_encrypted_files g) g0 t /\
  component_graph t /\
  num_vertices t = 1 + length (listed (walk fs top_dir)).
Proof.
  intros g0 t Hvalid0 Hrun.
  apply make_graph_from_dir_Returns in Hrun as (_ & _ & w' & Hrun & <-).
  fold g0 in Hrun.
  pose proof (populate_from_parent_linked C E fs _ _ _ _ Hvalid0 Hrun)
    as [(_ & _ & _ & Hlinks) _].
  destruct (populate_from_vertices C E fs _ _ _ _ Hrun) as (news & Hvs & Hnames & _).
  destruct (populate_from_edges C E fs _ _ _ _ Hrun) as (Hnum & _ & new_edges & Hes & _ & Hhang).
  set (g := digr w') in *. set (n0 := num_vertices g0) in *.
  assert (Hnews : length news = 1 + length (listed (walk fs top_dir))).
  { apply (f_equal length) in Hnames. rewrite !length_map in Hnames.
    cbn [length] in Hnames. rewrite length_map in Hnames. lia. }
  assert (Hnew : forall e, e ∈ new_edges -> n0 <= e.1 < e.2 /\ e.2 < n0 + length news).
  { intros e He. apply list_elem_of_lookup in He as [i Hi].
    destruct (Forall2_lookup_l _ _ _ _ _ Hhang Hi) as (df & _ & (? & ? & _)). lia. }
  assert (Hvt : vertices t = news).
  { unfold t, walked_part. cbn [vertices]. rewrite Hvs. apply drop_app_length. }
  assert (Het : edges t = map (unshift_edge n0) new_edges).
  { unfold t, walked_part. cbn [edges]. rewrite Hes. by rewrite drop_app_length. }
  assert (Hnt : num_vertices t = length news) by (unfold num_vertices; by rewrite Hvt).
  split_and!.
  - unfold side_by_side. rewrite Hvt, Het. destruct g as [vs es fl]. cbn in Hvs, Hes |- *.
    f_equal; [done|]. rewrite Hes. f_equal.
    rewrite <- (map_id new_edges) at 1. rewrite map_map. apply map_ext_in.
    intros [a c] Hin. apply list_elem_of_In, Hnew in Hin. cbn in Hin.
    unfold shift_edge, unshift_edge. cbn [fst snd]. fold n0. f_equal; lia.
  - unfold component_graph. split_and!; [| lia |].
    { intros e He. rewrite Het in He. apply list_elem_of_fmap in He as (e0 & -> & He0).
      destruct (Hnew e0 He0). unfold unshift_edge. cbn [fst snd]. lia. }
    intros j. induction j as [j IH] using lt_wf_ind. intros Hj.
    destruct (decide (j = 0)) as [->|Hne]; [apply rtc_refl|].
    destruct (Hlinks (n0 + j)) as (p & Hin & Hp & _); [lia|].
    assert (He : (p, n0 + j) ∈ edges g) by (apply in_neighbours_elem; rewrite Hin; by left).
    rewrite Hes in He. apply elem_of_app in He as [He|He].
    { destruct (Hvalid0 _ He) as [_ Hlt]. cbn in Hlt. fold n0 in Hlt. lia. }
    apply rtc_r with (p - n0); [apply IH; lia|].
    left. rewrite Het. apply list_elem_of_fmap. exists (p, n0 + j). split; [|done].
    unfold unshift_edge. cbn [fst snd]. f_equal. lia.
  - lia.
Qed.

(** X16: walking one more directory into a graph adds one candidate. When
    [make_graph_from_dir] has walked a directory into a graph with valid
    edges, [extract_candidates] on the result returns the candidates of the
    graph the walk started from, in their order and with the
    [has_encrypted_files] of the result, followed by one more candidate: the
    tree of the walk, with one vertex for the top directory and one for
    every object the walk listed. *)
Theorem walk_adds_one_candidate top_dir digr_in g s cs0 g0' :
  let g0 := (choose_graph digr_in).1 in
  let t := walked_part (num_vertices g0) (length (edges g0)) g in
  valid_edges g0 ->
  make_graph_from_dir C E fs top_dir digr_in = Returns g s ->
  fits_int32 g ->
  extract_candidates g0 = Done (cs0, g0') ->
  extract_candidates g =
    Done (map (with_flag (gp_has_encrypted_files g)) cs0 ++ [t], drained g) /\
  component_graph t /\
  num_vertices t = 1 + length (listed (walk fs top_dir)).
Proof.
  intros g0 t Hvalid0 Hrun Hfits Hrun0.
  destruct (walk_side_by_side top_dir digr_in g s Hvalid0 Hrun) as (Hg & Hcomp & Hnum).
  fold g0 t in Hg, Hcomp, Hnum. split_and!; [|done|done].
  assert (Hfits_t : fits_int32 t).
  { unfold fits_int32 in *. rewrite Hg in Hfits.
    rewrite num_vertices_side_by_side in Hfits. lia. }
  pose proof (extract_candidates_of_connected t Hcomp Hfits_t) as Hrun_t.
  rewrite Hg at 1 3.
  rewrite (extract_candidates_side_by_side _ g0 t cs0 [t] g0' (drained t));
    [| done | by destruct Hcomp | by rewrite <- Hg | done | done].
  by rewrite map_app.
Qed.

End WalkOnto.

Section SideBySideRuns.

Import Sample.

Lemma g_home_valid : valid_edges g_home.
Proof. apply valid_edges_check. vm_compute. reflexivity. Defined.

(** X15, on the trees under [/root] and [/home], built by two separate
    walks: the union has the two trees as its candidates. *)
Lemma extract_candidates_disjoint_union_witness :
  extract_candidates (disjoint_union g_root g_home) =
  Done (map (with_flag (gp_has_encrypted_files g_root || gp_has_encrypted_files g_home))
            ([g_root] ++ [g_home]),
        drained (disjoint_union g_root g_home)).
Proof.
  apply (extract_candidates_disjoint_union g_root g_home [g_root] [g_home]
           (drained g_root) (drained g_home) g_root_valid g_home_valid).
  - unfold fits_int32. vm_compute. discriminate.
  - vm_compute. reflexivity.
  - vm_compute. reflexivity.
Defined.

(** X16, on the walk of [/root2] into the graph of [/root]. *)
Lemma walk_adds_one_candidate_witness :
  let t := walked_part (num_vertices g_root) (length (edges g_root)) g_forest in
  extract_candidates g_forest =
    Done (map (with_flag (gp_has_encrypted_files g_forest)) [g_root] ++ [t],
          drained g_forest) /\
  component_graph t /\
  num_vertices t = 1 + length (listed (walk fs (py "/root2"))).
Proof.
  apply (walk_adds_one_candidate consts extern fs (py "/root2") (PyDblingGraph g_root)
           g_forest g_forest [g_root] (drained g_root) g_root_valid g_forest_built
           g_forest_fits).
  vm_compute. reflexivity.
Defined.

End SideBySideRuns.

(** ** The depth of a normalised path *)

Section NormPath.

Import posixpath.

Lemma components_app_sep (a b : pystr) :
  components (a ++ sep :: b) = components a ++ components b.
Proof.
  induction a as [|c a IH]; cbn [app components].
  - unfold is_sep. by rewrite bool_decide_eq_true_2.
  - rewrite IH. destruct (is_sep c); [done|].
    by destruct (components_cons_inv a) as (w & ws & ->).
Qed.

Lemma components_no_sep (f : pystr) :
  Forall (fun c => c <> sep) f -> components f = [f].
Proof.
  induction 1 as [|c r Hc _ IH]; [done|]. cbn [components].
  unfold is_sep. rewrite bool_decide_eq_false_2 by done. by rewrite IH.
Qed.

Lemma components_snoc_sep (a : pystr) : components (a ++ [sep]) = components a ++ [[]].
Proof. by rewrite components_app_sep. Qed.

(** [normpath], with its parts named. *)
Lemma normpath_unfold (path : pystr) :
  path <> [] ->
  normpath path =
  let p := replicate (initial_slashes path) sep ++ join_components (rev (kept_components path)) in
  if bool_decide (p = []) then [dot] else p.
Proof. intros Hne. unfold normpath. by rewrite bool_decide_eq_false_2. Qed.

(** What is on the stack of [normpath] is not empty and holds no
    separator. *)
Lemma normpath_step_names i (stack : list pystr) (comp : pystr) :
  Forall (fun c => c <> sep) comp ->
  Forall (fun w : pystr => w <> [] /\ Forall (fun c => c <> sep) w) stack ->
  Forall (fun w : pystr => w <> [] /\ Forall (fun c => c <> sep) w)
         (normpath_step i stack comp).
Proof.
  intros Hcomp Hstack. unfold normpath_step.
  destruct (bool_decide (comp = [])) eqn:He; cbn [orb]; [done|].
  apply bool_decide_eq_false in He.
  destruct (bool_decide (comp = [dot])); [done|].
  destruct (_ || _ || _).
  - by constructor.
  - destruct Hstack; [constructor | done].
Qed.

Lemma components_names (p : pystr) :
  Forall (fun w : pystr => Forall (fun c => c <> sep) w) (components p).
Proof.
  induction p as [|c p IH]; [by repeat constructor|]. cbn [components].
  destruct (is_sep c) eqn:Hc; [by constructor|].
  apply bool_decide_eq_false in Hc.
  destruct (components_cons_inv p) as (w & ws & Hp). rewrite Hp in IH |- *.
  apply Forall_cons in IH as [Hw Hws]. constructor; [by constructor | done].
Qed.

Lemma fold_normpath_step_names i (cs : list pystr) : forall stack,
  Forall (fun w : pystr => Forall (fun c => c <> sep) w) cs ->
  Forall (fun w : pystr => w <> [] /\ Forall (fun c => c <> sep) w) stack ->
  Forall (fun w : pystr => w <> [] /\ Forall (fun c => c <> sep) w)
         (fold_left (normpath_step i) cs stack).
Proof.
  induction cs as [|c cs IH]; intros stack Hcs Hstack; [done|].
  apply Forall_cons in Hcs as [Hc Hcs]. cbn [fold_left].
  apply IH; [done|]. by apply normpath_step_names.
Qed.

Lemma kept_components_names (p : pystr) :
  Forall (fun w : pystr => w <> [] /\ Forall (fun c => c <> sep) w) (kept_components p).
Proof. apply fold_normpath_step_names; [apply components_names | constructor]. Qed.

(** The depth of names joined by separators, after leading slashes. *)
Lemma starts_join_components (names : list pystr) (b : bool) :
  Forall (fun w : pystr => w <> [] /\ Forall (fun c => c <> sep) w) names ->
  starts b (join_components names) =
  match names with [] => 0 | _ :: rest => (if b then 1 else 0) + length rest end.
Proof.
  intros Hnames. revert b. induction Hnames as [|w ws [Hne Hw] Hws IH]; intros b; [done|].
  cbn [join_components]. destruct ws as [|w' ws'].
  - rewrite (starts_no_sep _ b Hw). rewrite bool_decide_eq_false_2 by done.
    cbn [negb length]. rewrite andb_true_r. destruct b; lia.
  - rewrite starts_app_sep, IH, (starts_no_sep _ b Hw).
    rewrite bool_decide_eq_false_2 by done. cbn [negb length]. rewrite andb_true_r.
    destruct b; lia.
Qed.

Lemma starts_replicate_sep (n : nat) (p : pystr) (b : bool) :
  0 < n -> starts b (replicate n sep ++ p) = starts true p.
Proof.
  intros Hn. destruct n as [|n]; [lia|]. clear Hn. revert b.
  induction n as [|n IH]; intros b.
  - cbn [replicate app starts]. unfold is_sep. rewrite bool_decide_eq_true_2 by done.
    cbn [negb]. by rewrite andb_false_r.
  - change (replicate (S (S n)) sep ++ p) with (sep :: (replicate (S n) sep ++ p)).
    rewrite starts_cons, IH. unfold is_sep. rewrite bool_decide_eq_true_2 by done.
    cbn [negb]. by rewrite andb_false_r.
Qed.

(** The depth of a normalised absolute path is the number of components
    [normpath] keeps. *)
Lemma count_components_normpath (p : pystr) :
  isabs p = true ->
  count_components (normpath p) = Z.of_nat (length (kept_components p)).
Proof.
  intros Habs.
  assert (Hne : p <> []) by (by destruct p).
  assert (Hi : 0 < initial_slashes p).
  { unfold initial_slashes. unfold isabs in Habs. rewrite Habs. destruct (_ && _); lia. }
  rewrite normpath_unfold by done. cbn zeta.
  rewrite bool_decide_eq_false_2.
  2:{ destruct (initial_slashes p); [lia | done]. }
  rewrite count_components_starts, starts_replicate_sep by done.
  rewrite starts_join_components by (apply Forall_rev, kept_components_names).
  rewrite <- (length_rev (kept_components p)).
  destruct (rev (kept_components p)); cbn [length]; lia.
Qed.

Lemma endswith_sep_snoc (a : pystr) (c : N) :
  endswith [sep] (a ++ [c]) = bool_decide (c = sep).
Proof.
  unfold endswith. rewrite rev_unit. change (rev [sep]) with [sep]. cbn [startswith].
  case_decide; subst; [by rewrite bool_decide_eq_true_2 | by rewrite bool_decide_eq_false_2].
Qed.

Lemma endswith_sep_cons (c : N) (a : pystr) :
  a <> [] -> endswith [sep] (c :: a) = endswith [sep] a.
Proof.
  intros Hne. destruct a as [|c' a'] using rev_ind; [done|].
  by rewrite app_comm_cons, !endswith_sep_snoc.
Qed.

(** The leading slashes of an absolute path stay when something is
    appended that does not add to them. *)
Lemma initial_slashes_app (p x : pystr) :
  isabs p = true ->
  (endswith [sep] p = true -> startswith [sep] x = false) ->
  initial_slashes (p ++ x) = initial_slashes p.
Proof.
  intros Habs Hx. unfold isabs in Habs.
  destruct p as [|c0 [|c1 [|c2 p]]]; [done| | |].
  - cbn [startswith] in Habs. case_decide; [subst c0|done].
    specialize (Hx eq_refl).
    unfold initial_slashes. cbn [app startswith].
    rewrite !decide_True by done. destruct x as [|c x]; [done|].
    cbn [startswith] in Hx |- *. by destruct (decide (sep = c)).
  - cbn [startswith] in Habs. case_decide; [subst c0|done].
    unfold initial_slashes. cbn [app startswith]. rewrite !decide_True by done.
    destruct (decide (sep = c1)) as [<-|Hc1]; [|done].
    specialize (Hx eq_refl). destruct x as [|c x]; [done|].
    cbn [startswith] in Hx |- *. by destruct (decide (sep = c)).
  - unfold initial_slashes. cbn [app startswith]. by repeat case_decide.
Qed.

Lemma initial_slashes_join (p f : pystr) :
  isabs p = true -> proper_name f ->
  initial_slashes (join p f) = initial_slashes p.
Proof.
  intros Habs (Hne & Hf & _).
  assert (Hstart : startswith [sep] f = false).
  { destruct Hf as [|c r Hc _]; [done|]. cbn [startswith]. by rewrite decide_False. }
  unfold join. rewrite Hstart.
  rewrite bool_decide_eq_false_2 by (by destruct p). cbn [orb].
  destruct (endswith [sep] p) eqn:He.
  - apply initial_slashes_app; done.
  - apply initial_slashes_app; [done|]. by rewrite He.
Qed.

Lemma normpath_step_proper i (stack : list pystr) (f : pystr) :
  proper_name f -> normpath_step i stack f = f :: stack.
Proof.
  intros (Hne & _ & Hdot & Hdots). unfold normpath_step.
  rewrite !bool_decide_eq_false_2 by done. done.
Qed.

Lemma normpath_step_empty i (stack : list pystr) : normpath_step i stack [] = stack.
Proof. done. Qed.

(** Joining a proper name to an absolute path adds one component to those
    [normpath] keeps. *)
Lemma kept_components_join (p f : pystr) :
  isabs p = true -> proper_name f ->
  kept_components (join p f) = f :: kept_components p.
Proof.
  intros Habs Hproper. unfold kept_components.
  rewrite initial_slashes_join by done.
  destruct Hproper as (Hne & Hf & Hdots).
  assert (Hstart : startswith [sep] f = false).
  { destruct Hf as [|c r Hc _]; [done|]. cbn [startswith]. by rewrite decide_False. }
  unfold join. rewrite Hstart.
  rewrite bool_decide_eq_false_2 by (by destruct p). cbn [orb].
  destruct (endswith [sep] p) eqn:He.
  - destruct (endswith_sep_inv _ He) as [a ->].
    rewrite <- app_assoc. cbn [app].
    rewrite components_app_sep, components_snoc_sep, (components_no_sep f Hf).
    rewrite !fold_left_app. cbn [fold_left].
    by rewrite normpath_step_empty, normpath_step_proper.
  - rewrite components_app_sep, (components_no_sep f Hf), fold_left_app. cbn [fold_left].
    by rewrite normpath_step_proper.
Qed.

Lemma proper_name_not_abs (f : pystr) : proper_name f -> startswith [sep] f = false.
Proof.
  intros (_ & Hf & _). destruct Hf as [|c r Hc _]; [done|].
  cbn [startswith]. by rewrite decide_False.
Qed.

Lemma isabs_join (p f : pystr) : isabs p = true -> proper_name f -> isabs (join p f) = true.
Proof.
  intros Habs Hproper. unfold join. rewrite (proper_name_not_abs f Hproper).
  destruct p; [done|]. unfold isabs in *. by destruct (_ || _).
Qed.

(** One more proper name, one more level, also through [normpath]. *)
Lemma count_components_normpath_join (p f : pystr) :
  isabs p = true -> proper_name f ->
  count_components (normpath (join p f)) = (count_components (normpath p) + 1)%Z.
Proof.
  intros Habs Hproper.
  rewrite !count_components_normpath, kept_components_join by (done || by apply isabs_join).
  cbn [length]. lia.
Qed.

Lemma endswith_sep_app (a d : pystr) :
  d <> [] -> endswith [sep] (a ++ d) = endswith [sep] d.
Proof.
  intros Hne. destruct d as [|c d' _] using rev_ind; [done|].
  by rewrite app_assoc, !endswith_sep_snoc.
Qed.

Lemma join_relative (a b : pystr) :
  startswith [sep] b = false ->
  join a b = if bool_decide (a = []) || endswith [sep] a then a ++ b else a ++ sep :: b.
Proof. intros Hb. unfold join. by rewrite Hb. Qed.

(** [join] is associative on relative paths. *)
Lemma join_join (cwd d f : pystr) :
  cwd <> [] -> isabs d = false -> proper_name f ->
  join cwd (join d f) = join (join cwd d) f /\ isabs (join d f) = false.
Proof.
  intros Hcwd Hd Hproper. pose proof (proper_name_not_abs f Hproper) as Hf.
  unfold isabs in *.
  assert (Hdf : startswith [sep] (join d f) = false).
  { rewrite join_relative by done. destruct d as [|c d]; [done|].
    cbn [startswith] in Hd |- *.
    destruct (_ || _); cbn [app startswith]; done. }
  split; [|exact Hdf].
  rewrite (join_relative cwd (join d f) Hdf), (join_relative (join cwd d) f Hf).
  rewrite (join_relative cwd d Hd), (join_relative d f Hf).
  rewrite (bool_decide_eq_false_2 (cwd = [])) by done. cbn [orb].
  destruct d as [|c d].
  - rewrite (bool_decide_eq_true_2 ([] = [])) by done. cbn [orb app].
    destruct (endswith [sep] cwd) eqn:He.
    + rewrite app_nil_r, bool_decide_eq_false_2 by done. by rewrite He.
    + rewrite endswith_sep_snoc, (bool_decide_eq_true_2 (sep = sep)), orb_true_r by done.
      by rewrite <- app_assoc.
  - rewrite (bool_decide_eq_false_2 (c :: d = [])) by done. cbn [orb].
    destruct (endswith [sep] cwd) eqn:He.
    + rewrite bool_decide_eq_false_2 by (by destruct cwd). cbn [orb].
      rewrite endswith_sep_app by done.
      destruct (endswith [sep] (c :: d)); by rewrite <- app_assoc.
    + rewrite bool_decide_eq_false_2 by (by destruct cwd). cbn [orb].
      rewrite (endswith_sep_app cwd (sep :: c :: d)) by done.
      rewrite (endswith_sep_cons sep (c :: d)) by done.
      destruct (endswith [sep] (c :: d)); by rewrite <- app_assoc.
Qed.

(** One more proper name, one more level, also through [abspath]. *)
Lemma count_components_abspath_join (cwd d f : pystr) :
  isabs cwd = true -> proper_name f ->
  count_components (abspath cwd (join d f)) = (count_components (abspath cwd d) + 1)%Z.
Proof.
  intros Hcwd Hproper. unfold abspath.
  destruct (isabs d) eqn:Hd.
  - rewrite isabs_join by done. by apply count_components_normpath_join.
  - destruct (join_join cwd d f) as [Hjoin ->]; [by destruct cwd | done | done |].
    rewrite Hjoin. apply count_components_normpath_join; [|done].
    unfold isabs in *. unfold join. rewrite Hd.
    destruct cwd; [done|]. by destruct (_ || _).
Qed.

End NormPath.

(** ** The depth along an edge *)

Lemma get_dir_depth_plain (C : Consts) (filename : pystr) :
  get_dir_depth C filename false = count_components filename.
Proof.
  unfold get_dir_depth. rewrite get_dir_depth_loop_starts, count_components_starts. lia.
Qed.

Lemma lookup_map {A B} (f : A -> B) (l : list A) (i : nat) :
  map f l !! i = f <$> (l !! i).
Proof. exact (list_lookup_fmap f l i). Qed.

Section DepthAlongEdges.

Variable C : Consts.
Variable E : Extern.
Variable fs : FileSystem.

(** X17: a child lies one level below its parent. In a graph that
    [make_graph_from_dir] has built without slicing (no graph supplied),
    with an absolute current directory, from a walk that lists proper names
    (not empty, no separator, neither [.] nor [..]) and only in the top
    directory or in directories it has listed, and in which no two vertices
    share a [filename_id], every edge runs from a vertex to a vertex whose
    [dir_depth] is larger by one. *)
Theorem dir_depth_along_edges top_dir digr_in g s :
  make_graph_from_dir C E fs top_dir digr_in = Returns g s ->
  (choose_graph digr_in).2 = false ->
  posixpath.isabs (getcwd fs) = true ->
  Forall (fun df : pystr * pystr => proper_name df.2) (listed (walk fs top_dir)) ->
  walk_descends fs top_dir ->
  NoDup (map vp_filename_id (vertices g)) ->
  forall e, e ∈ edges g ->
    vp_dir_depth (vprops g e.2) = (vp_dir_depth (vprops g e.1) + 1)%Z.
Proof.
  intros Hrun Hplain Hcwd Hnames Hdesc Hids e He.
  apply make_graph_from_dir_Returns in Hrun as (_ & _ & w' & Hrun & <-).
  assert (Hfresh : choose_graph digr_in = (DblingGraph_init, false))
    by (destruct digr_in; done).
  rewrite Hfresh in Hrun. cbn [fst snd] in Hrun.
  destruct (populate_from_vertices C E fs _ _ _ _ Hrun) as (news & Hvs & Hfn & Hdescribed).
  destruct (populate_from_edges C E fs _ _ _ _ Hrun)
    as (Hnum & _ & new_edges & Hes & Hsnd & Hhang).
  pose proof (populate_from_derived C E fs _ _ _ _ Hrun) as Hderived.
  set (g := digr w') in *. cbn [DblingGraph_init vertices edges app] in Hvs, Hes.
  change (num_vertices DblingGraph_init) with 0 in *.
  rewrite Hes in He. apply list_elem_of_lookup in He as [i Hi].
  destruct (Forall2_lookup_l _ _ _ _ _ Hhang Hi)
    as ([d f] & Hdf & (Hlt & Hlt2 & encoded & Henc & Hpid)).
  cbn [fst snd] in Henc.
  (* the child *)
  assert (He2 : e.2 = S i).
  { assert (Hl : map snd new_edges !! i = Some e.2) by (by rewrite lookup_map, Hi).
    rewrite Hsnd in Hl. apply lookup_seq in Hl as [-> _]. done. }
  assert (Hchild : vp_filename (vprops g e.2) = child_path fs (d, f)).
  { assert (Hl : map vp_filename news !! S i = Some (child_path fs (d, f))).
    { rewrite Hfn.
      change (map (child_path fs) (listed (walk fs top_dir)) !! i
              = Some (child_path fs (d, f))).
      by rewrite lookup_map, Hdf. }
    rewrite lookup_map in Hl.
    destruct (news !! S i) as [vv|] eqn:Hvv; [|done]. cbn in Hl.
    unfold vprops. rewrite Hvs, He2, (list_lookup_total_correct _ _ _ Hvv). congruence. }
  (* the parent *)
  assert (Hparent : vp_filename (vprops g e.1) = posixpath.abspath (getcwd fs) d).
  { unfold walk_descends in Hdesc. rewrite Forall_forall in Hdesc.
    pose proof (Hdesc (d, f) (list_elem_of_lookup_2 _ _ _ Hdf)) as Hin.
    cbn [fst] in Hin. rewrite <- Hfn in Hin.
    apply list_elem_of_fmap in Hin as (vq & Hq & Hin).
    apply list_elem_of_lookup in Hin as [q Hq'].
    rewrite Forall_forall in Hdescribed.
    destruct (Hdescribed vq (list_elem_of_lookup_2 _ _ _ Hq'))
      as (_ & enc & _ & _ & Hencq & _ & _ & Hidq & _).
    rewrite <- Hq, Henc in Hencq. injection Hencq as <-.
    assert (Hn : num_vertices g = length news) by (unfold num_vertices; by rewrite Hvs).
    destruct (lookup_lt_is_Some_2 news e.1 ltac:(lia)) as [vp Hvp].
    assert (e.1 = q) as ->.
    { rewrite Hvs in Hids. eapply (NoDup_lookup _ _ _ _ Hids).
      - rewrite lookup_map, Hvp. reflexivity.
      - rewrite lookup_map, Hq'. cbn. f_equal. rewrite Hidq, <- Hpid.
        unfold vprops. by rewrite Hvs, (list_lookup_total_correct _ _ _ Hvp). }
    unfold vprops. by rewrite Hvs, (list_lookup_total_correct _ _ _ Hq'). }
  destruct (Hderived e.2 ltac:(lia)) as [-> _].
  destruct (Hderived e.1 ltac:(lia)) as [-> _].
  unfold sliced. rewrite !get_dir_depth_plain, Hchild, Hparent.
  unfold child_path. cbn [fst snd].
  apply count_components_abspath_join; [done|].
  rewrite Forall_forall in Hnames.
  apply (Hnames (d, f) (list_elem_of_lookup_2 _ _ _ Hdf)).
Qed.

End DepthAlongEdges.

(** X17, on the tree under [/root]. *)
Lemma dir_depth_along_edges_witness :
  Forall (fun e : nat * nat =>
            vp_dir_depth (vprops Sample.g_root e.2) =
            (vp_dir_depth (vprops Sample.g_root e.1) + 1)%Z)
         (edges Sample.g_root).
Proof.
  apply Forall_forall.
  apply (dir_depth_along_edges Sample.consts Sample.extern Sample.fs (py "/root") PyNone
           Sample.g_root Sample.g_root g_root_built).
  - reflexivity.
  - vm_compute. reflexivity.
  - apply (bool_decide_unpack _). vm_compute. exact I.
  - apply (bool_decide_unpack _). vm_compute. exact I.
  - apply (bool_decide_unpack _). vm_compute. exact I.
Defined.
